(** * rossa: expansion of nested test-parameter specifications

    A shallow embedding of [src/rossa/parameters.py] and the properties of
    its combination engine: [ParameterCombination] (cartesian product with
    zip groups), [fill_template], [check_validity], [_extract_skeleton] and
    the driver [get_combinations].

    Modelling conventions.
    - Python values are the type [value]: [None], integers, strings, lists
      and mappings.  Booleans and floats play no role in the engine (it
      only asks [isinstance(v, list)] and [isinstance(v, dict)]) and are
      left out.  Mapping keys are strings.  A string is a [string], one
      [ascii] for every character: strings with characters outside that
      range are not covered.
    - A mapping is an association list in insertion order ([dict]); the
      order decides the order of [itertools.product] and of the output.
    - The mappings of the caller's specification are objects in a store
      ([heap]), referred to by address ([VRef]): the engine pops keys from
      them and assigns into them, and those effects are visible through
      every alias.  Mappings created during the call (combinations, event
      records, [p.copy()]) are never changed once another object refers to
      them, so they are carried by value ([VDict]).
    - Exceptions are the type [exn]; a computation that changes the store
      returns the store together with its outcome, also when it raises.
    - numpy's boolean index arrays are [ndarray]: a shape and the
      row-major list of entries.  Resource limits of numpy (rank, memory)
      and of the interpreter (recursion depth) are not modelled.
    - [dataclasses.astuple] copies the extracted skeleton before the
      sequence is generated.  The model generates from the skeleton
      itself; see [get_combinations] for the one case in which the copy
      fails. *)

From Stdlib Require Import ZArith String Ascii List Bool Arith Lia.
From Stdlib Require Import DecimalString DecimalNat.
From stdpp Require Import base list strings.
Import ListNotations.

Set Warnings "-register-all".

Open Scope string_scope.
Open Scope list_scope.
Open Scope nat_scope.

(** ** Values, mappings, exceptions *)

Inductive value : Type :=
| VNone
| VInt (z : Z)
| VStr (s : string)
| VList (l : list value)
| VDict (d : list (string * value))
| VRef (a : nat).

Abbreviation dict := (list (string * value)).

Abbreviation heap := (list dict).

Inductive exn : Type :=
| ValueError (msg : string)
| KeyError (key : string)
| TypeError
| AttributeError
| IndexError.

(** Outcome of a call: a value, a raised exception, or [NoFuel] when the
    bound on loop iterations given to the model was too small. *)
Inductive result (A : Type) : Type :=
| Ok (a : A)
| Raise (e : exn)
| NoFuel.

Arguments Ok {A} a.
Arguments Raise {A} e.
Arguments NoFuel {A}.

Module Res.

Definition bind {A B} (r : result A) (f : A -> result B) : result B :=
  match r with
  | Ok a => f a
  | Raise e => Raise e
  | NoFuel => NoFuel
  end.

Definition is_ok {A} (r : result A) : bool :=
  match r with Ok _ => true | _ => false end.

Definition is_raise {A} (r : result A) : bool :=
  match r with Raise _ => true | _ => false end.

End Res.

#[global] Instance result_ret : MRet result := @Ok.
#[global] Instance result_bind : MBind result := fun A B f r => Res.bind r f.
#[global] Instance result_fmap : FMap result :=
  fun A B f r => Res.bind r (fun a => Ok (f a)).

(** ** Python primitives *)

Module Py.

(** [isinstance(v, dict)] and [isinstance(v, list)]. *)
Definition is_dict (v : value) : bool :=
  match v with VDict _ | VRef _ => true | _ => false end.

Definition is_list (v : value) : bool :=
  match v with VList _ => true | _ => false end.

(** [v == 0] for the values of the model. *)
Definition eq_zero (v : value) : bool :=
  match v with VInt z => Z.eqb z 0 | _ => false end.

(** [d.get(k)] *)
Fixpoint get (k : string) (d : dict) : option value :=
  match d with
  | [] => None
  | (k', v) :: r => if String.eqb k k' then Some v else get k r
  end.

(** [d[k] = v]: an existing key keeps its position, a new key is
    appended. *)
Fixpoint set (k : string) (v : value) (d : dict) : dict :=
  match d with
  | [] => [(k, v)]
  | (k', v') :: r =>
      if String.eqb k k' then (k', v) :: r else (k', v') :: set k v r
  end.

(** [del d[k]] when present. *)
Fixpoint remove (k : string) (d : dict) : dict :=
  match d with
  | [] => []
  | (k', v') :: r =>
      if String.eqb k k' then r else (k', v') :: remove k r
  end.

(** [d.pop(k, default)] on a mapping held by value: the popped value and
    the remaining mapping. *)
Definition pop (k : string) (default : value) (d : dict) : value * dict :=
  match get k d with
  | Some v => (v, remove k d)
  | None => (default, d)
  end.

(** [d |= e], also [d | e] on a copy of [d]. *)
Definition update (d e : dict) : dict :=
  fold_left (fun acc kv => set kv.1 kv.2 acc) e d.

(** [dict(zip(names, vals))] *)
Definition dict_zip (names : list string) (vals : list value) : dict :=
  update [] (combine names vals).

Definition keys (d : dict) : list string := map fst d.
Definition values (d : dict) : list value := map snd d.

(** [itertools.product] of the lists in [vals]: the last list varies
    fastest. *)
Fixpoint product {A} (vals : list (list A)) : list (list A) :=
  match vals with
  | [] => [[]]
  | v :: vs => flat_map (fun x => map (cons x) (product vs)) v
  end.

(** [s.split(sep)] for a non-empty separator. [skip] counts the
    characters of a matched separator still to be passed over, [cur] is
    the piece being collected. *)
Fixpoint split_go (sep : string) (skip : nat) (cur s : string)
  : list string :=
  match s with
  | EmptyString => [cur]
  | String c s' =>
      match skip with
      | S k => split_go sep k cur s'
      | O =>
          if String.prefix sep s
          then cur :: split_go sep (String.length sep - 1) "" s'
          else split_go sep 0 (cur ++ String c "") s'
      end
  end.

Definition split (sep s : string) : list string := split_go sep 0 "" s.

(** [str(n)] for a natural number and for an integer. *)
Definition str_nat (n : nat) : string :=
  NilEmpty.string_of_uint (Nat.to_uint n).

Definition str_int (z : Z) : string :=
  NilEmpty.string_of_int (Z.to_int z).

(** The characters of a string, as iteration over a [str] yields them:
    one string of length one for every [ascii] of the model's string. *)
Fixpoint chars (s : string) : list string :=
  match s with
  | EmptyString => []
  | String c s' => String c "" :: chars s'
  end.

End Py.

(** ** numpy boolean arrays *)

Module Np.

Record ndarray : Type := mk_ndarray { shape : list nat; data : list bool }.

(** One entry of an index tuple: [slice(None)] or [range(n)]. *)
Inductive slicer : Type :=
| SliceAll
| Range (n : nat).

(** All multi-indices of an array of the given shape in row-major (C)
    order, the order of [flatten]. *)
Fixpoint indices (shp : list nat) : list (list nat) :=
  match shp with
  | [] => [[]]
  | n :: s => flat_map (fun i => map (cons i) (indices s)) (seq 0 n)
  end.

Definition size (shp : list nat) : nat := fold_right Nat.mul 1 shp.

(** [np.zeros(shape).astype(bool)] *)
Definition zeros (shp : list nat) : ndarray :=
  mk_ndarray shp (repeat false (size shp)).

(** The lengths of the [range] entries of an index tuple. *)
Fixpoint range_lengths (ix : list slicer) : list nat :=
  match ix with
  | [] => []
  | SliceAll :: r => range_lengths r
  | Range n :: r => n :: range_lengths r
  end.

(** Integer index arrays are broadcast against each other; the engine
    only builds ranges longer than one, which broadcast exactly when
    they have one common length. *)
Definition broadcastable (lens : list nat) : bool :=
  match lens with
  | [] => true
  | n :: r => forallb (Nat.eqb n) r
  end.

(** Whether the multi-index [idx] is addressed by the index tuple [ix]:
    every sliced axis is free, the axes indexed by ranges move together
    ([t] is the common position once one range axis has been seen). *)
Fixpoint selected (ix : list slicer) (idx : list nat) (t : option nat)
  : bool :=
  match ix, idx with
  | [], _ => true
  | _, [] => true
  | SliceAll :: ix', _ :: idx' => selected ix' idx' t
  | Range _ :: ix', i :: idx' =>
      match t with
      | None => selected ix' idx' (Some i)
      | Some j => Nat.eqb i j && selected ix' idx' t
      end
  end.

(** [a[tuple(ix)] = True]; numpy raises [IndexError] when the index
    arrays cannot be broadcast together. *)
Definition set_true (a : ndarray) (ix : list slicer) : result ndarray :=
  if broadcastable (range_lengths ix)
  then Ok (mk_ndarray (shape a)
             (map (fun p : bool * list nat => p.1 || selected ix p.2 None)
                  (combine (data a) (indices (shape a)))))
  else Raise IndexError.

Definition logical_and (a b : ndarray) : ndarray :=
  mk_ndarray (shape a)
    (map (fun p : bool * bool => p.1 && p.2) (combine (data a) (data b))).

(** [np.logical_and.reduce(arrays)] along the first axis. Reducing an
    empty list gives the identity [True], a scalar. *)
Definition logical_and_reduce (arrays : list ndarray) : ndarray :=
  match arrays with
  | [] => mk_ndarray [] [true]
  | a :: r => fold_left logical_and r a
  end.

Definition flatten (a : ndarray) : list bool := data a.

(** [np.array(xs)[mask].tolist()] for a boolean [mask]: the lengths
    must agree. *)
Fixpoint mask_select {A} (xs : list A) (mask : list bool) : list A :=
  match xs, mask with
  | x :: xs', b :: mask' =>
      if b then x :: mask_select xs' mask' else mask_select xs' mask'
  | _, _ => []
  end.

Definition bool_index {A} (xs : list A) (mask : list bool)
  : result (list A) :=
  if Nat.eqb (length xs) (length mask)
  then Ok (mask_select xs mask)
  else Raise IndexError.

End Np.

(** ** Parameter combination *)

Definition mismatch_msg : string :=
  "Mismatch in zip_group length. Please ensure that zip groups have the same amount of values.".

Record ParameterCombination : Type := mk_pc {
  names : list string;
  values : list (list value);
  shape : list nat
}.

(** [v if isinstance(v, list) else [v]] *)
Definition as_list (v : value) : list value :=
  match v with
  | VList l => l
  | _ => [v]
  end.

(** [ParameterCombination.__init__] *)
Definition new_pc (parameters : dict) : ParameterCombination :=
  let parameters :=
    map (fun kv : string * value => (kv.1, as_list kv.2)) parameters in
  mk_pc (map fst parameters) (map snd parameters)
        (filter (fun n => 1 <? n) (map (@length value) (map snd parameters))).

(** [get_zip_group]: the zip-modifier name, or [None]. *)
Definition get_zip_group (name : string) : option string :=
  match Py.split "#zip_" name with
  | _ :: m1 :: _ => Some (hd "" (Py.split "#" m1))
  | _ => None
  end.

(** [zip_groups]: the zip-modifier names of the parameters with more than
    one value. *)
Definition zip_groups (pc : ParameterCombination) : list (option string) :=
  flat_map (fun nv : string * list value =>
              if 1 <? length nv.2 then [get_zip_group nv.1] else [])
           (combine (names pc) (values pc)).

(** [name and name == zip_group] *)
Definition in_zip_group (name zip_group : option string) : bool :=
  match name with
  | Some n =>
      negb (String.eqb n "") &&
      match zip_group with Some g => String.eqb n g | None => false end
  | None => false
  end.

Definition index_slicer (pc : ParameterCombination)
  (zip_group : option string) : list Np.slicer :=
  map (fun nd : option string * nat =>
         if in_zip_group nd.1 zip_group then Np.Range nd.2 else Np.SliceAll)
      (combine (zip_groups pc) (shape pc)).

(** [get_zip_index] *)
Definition get_zip_index (pc : ParameterCombination)
  (zip_group : option string) : result Np.ndarray :=
  match Np.set_true (Np.zeros (shape pc)) (index_slicer pc zip_group) with
  | Raise IndexError => Raise (ValueError mismatch_msg)
  | r => r
  end.

(** [combination_index] *)
Definition combination_index (pc : ParameterCombination)
  : result Np.ndarray :=
  indices ← mapM (get_zip_index pc) (zip_groups pc);
  Ok (Np.logical_and_reduce indices).

(** [combinations] *)
Definition pure_names (pc : ParameterCombination) : list string :=
  map (fun name => hd "" (Py.split "#" name)) (names pc).

Definition all_combinations (pc : ParameterCombination) : list dict :=
  map (Py.dict_zip (pure_names pc)) (Py.product (values pc)).

Definition combinations (pc : ParameterCombination) : result (list dict) :=
  i_valid ← Np.flatten <$> combination_index pc;
  Np.bool_index (all_combinations pc) i_valid.

(** [_get_indexed_combinations]: the level index is stored under
    [__index_<level>]; for the combinations of a leaf test ([i_inner]
    given) the composite index and the test index are stored too. *)
Definition index_key (level : nat) : string := "__index_" ++ Py.str_nat level.

Definition enumerate {A} (l : list A) : list (nat * A) :=
  combine (seq 0 (length l)) l.

Definition getitem (d : dict) (k : string) : result value :=
  match Py.get k d with
  | Some v => Ok v
  | None => Raise (KeyError k)
  end.

Definition _get_indexed_combinations (parameter_combination : ParameterCombination)
  (i_level : nat) (i_inner : option nat) : result (list dict) :=
  combinations ← combinations parameter_combination;
  mapM (fun ic : nat * dict =>
          let c := Py.set (index_key i_level) (VInt (Z.of_nat ic.1)) ic.2 in
          match i_inner with
          | None => Ok c
          | Some t =>
              index ← mapM (fun level => getitem c (index_key level))
                           (seq 0 (i_level + 1));
              Ok (Py.set "__index_test" (VInt (Z.of_nat t))
                    (Py.set "__index" (VList index) c))
          end)
       (enumerate combinations).

(** ** The store *)

(** Computations that read and change the store. The store is returned
    with every outcome: what a call changed before it raised stays
    changed. *)
Definition M (A : Type) : Type := heap → result A * heap.

#[global] Instance M_ret : MRet M := fun A a h => (Ok a, h).
#[global] Instance M_bind : MBind M := fun A B f m h =>
  match m h with
  | (Ok a, h') => f a h'
  | (Raise e, h') => (Raise e, h')
  | (NoFuel, h') => (NoFuel, h')
  end.

Module St.

Definition lift {A} (r : result A) : M A := fun h => (r, h).

Definition raise {A} (e : exn) : M A := fun h => (Raise e, h).

Definition get_heap : M heap := fun h => (Ok h, h).

(** The mapping a value stands for, if it is one. *)
Definition deref (h : heap) (v : value) : option dict :=
  match v with
  | VDict d => Some d
  | VRef a => h !! a
  | _ => None
  end.

(** [obj.items()]; other types have no such attribute. *)
Definition items (h : heap) (obj : value) : result dict :=
  match deref h obj with
  | Some d => Ok d
  | None => Raise AttributeError
  end.

(** [obj.pop(k, default)]. A mapping in the store is changed in place; a
    mapping held by value has no alias and is handed back changed. A
    list refuses the second argument, anything else has no [pop]. *)
Definition pop (obj : value) (k : string) (default : value)
  : M (value * value) := fun h =>
  match obj with
  | VRef a =>
      match h !! a with
      | Some d =>
          let '(v, d') := Py.pop k default d in
          (Ok (v, obj), <[a := d']> h)
      | None => (Raise AttributeError, h)
      end
  | VDict d =>
      let '(v, d') := Py.pop k default d in (Ok (v, VDict d'), h)
  | VList _ => (Raise TypeError, h)
  | _ => (Raise AttributeError, h)
  end.

(** [obj[k] = v] on a mapping. *)
Definition setitem (obj : value) (k : string) (v : value) : M value :=
  fun h =>
  match obj with
  | VRef a =>
      match h !! a with
      | Some d => (Ok obj, <[a := Py.set k v d]> h)
      | None => (Raise TypeError, h)
      end
  | VDict d => (Ok (VDict (Py.set k v d)), h)
  | _ => (Raise TypeError, h)
  end.

(** Run [body]; a [TypeError] or [KeyError] it raises is replaced by
    [e]. *)
Definition except_type_key {A} (body : M A) (e : exn) : M A := fun h =>
  match body h with
  | (Raise TypeError, h') => (Raise e, h')
  | (Raise (KeyError _), h') => (Raise e, h')
  | r => r
  end.

End St.

(** ** Validity check *)

Definition no_main_msg : string := "No main loop found.".
Definition parallel_msg : string :=
  "Outer loops must not consist of parallel loops.".
Definition no_inner_msg : string :=
  "No inner loops found, see manual for construction of main loop.".

(** The mappings among a mapping's values. *)
Definition dict_children (d : dict) : list value :=
  filter (fun v => Py.is_dict v) (Py.values d).

(** Truth value of a mapping: it is not empty. *)
Definition truthy (h : heap) (v : value) : bool :=
  match St.deref h v with
  | Some [] => false
  | _ => true
  end.

(** Whether some value of the mapping [v] is a mapping. *)
Definition has_dict_value (h : heap) (v : value) : bool :=
  match St.deref h v with
  | Some d => existsb Py.is_dict (Py.values d)
  | None => false
  end.

(** The [while] loop of [check_validity]; [fuel] bounds its iterations. *)
Fixpoint check_validity_loop (fuel : nat) (h : heap) (outer_loop : value)
  : result unit :=
  match fuel with
  | O => NoFuel
  | S fuel' =>
      d ← St.items h outer_loop;
      let next_loop := dict_children d in
      if existsb (truthy h) next_loop then
        if (1 <? length next_loop) && existsb (has_dict_value h) next_loop
        then Raise (ValueError parallel_msg)
        else
          match next_loop with
          | first :: _ => check_validity_loop fuel' h first
          | [] => Ok tt
          end
      else Ok tt
  end.

Definition check_validity (fuel : nat) (h : heap) (parameters : value)
  : result unit :=
  d ← St.items h parameters;
  match Py.get "main" d with
  | None => Raise (ValueError no_main_msg)
  | Some outer_loop => check_validity_loop fuel h outer_loop
  end.

(** ** Template resolution *)

(** [flatten_multidimensional_list] on the items of a list. *)
Fixpoint flatten_item (item : value) : list value :=
  match item with
  | VList l => flat_map flatten_item l
  | _ => [item]
  end.

(** [flatten_multidimensional_list(lst)]. The [for] loop accepts any
    iterable: a string yields its characters, a mapping its keys; [None]
    and integers are not iterable. *)
Definition flatten_multidimensional_list (h : heap) (lst : value)
  : result (list value) :=
  match lst with
  | VList l => Ok (flat_map flatten_item l)
  | VStr s => Ok (map VStr (Py.chars s))
  | VDict d => Ok (map VStr (Py.keys d))
  | VRef a =>
      match h !! a with
      | Some d => Ok (map VStr (Py.keys d))
      | None => Raise TypeError
      end
  | _ => Raise TypeError
  end.

Definition str_value (v : value) : string :=
  match v with
  | VStr s => s
  | VInt z => Py.str_int z
  | _ => ""
  end.

Definition template_msg (v : value) : string :=
  "Template " ++ str_value v ++ " not found in parameters.".

(** [parameters[value]] for the entries that reach the lookup. *)
Definition lookup_template (h : heap) (parameters v : value) : result value :=
  match St.deref h parameters with
  | None => Raise TypeError
  | Some d =>
      match v with
      | VStr s => getitem d s
      | VInt z => Raise (KeyError (Py.str_int z))
      | VNone => Raise (KeyError "None")
      | _ => Raise TypeError
      end
  end.

(** The body of the [for] loop of [fill_template] for one entry. *)
Definition fill_entry (parameters v : value) : M value :=
  match v with
  | VNone | VDict _ | VRef _ => mret v
  | _ =>
      St.except_type_key
        (h ← St.get_heap;
         p ← St.lift (lookup_template h parameters v);
         '(_, p) ← St.pop p "setup" VNone;
         '(_, p) ← St.pop p "teardown" VNone;
         h ← St.get_heap;
         p ← St.lift (St.items h p);
         c ← St.lift (combinations (new_pc p));
         mret (VList (map VDict c)))
        (ValueError (template_msg v))
  end.

Fixpoint fill_entries (parameters : value) (vs : list value) : M (list value) :=
  match vs with
  | [] => mret []
  | v :: r =>
      x ← fill_entry parameters v;
      xs ← fill_entries parameters r;
      mret (x :: xs)
  end.

(** [fill_template] *)
Definition fill_template (parameters vs : value) : M (list value) :=
  match vs with
  | VNone => mret []
  | _ =>
      h ← St.get_heap;
      flat ← St.lift (flatten_multidimensional_list h vs);
      fill_entries parameters flat
  end.

(** ** Skeleton extraction *)

Record LoopSkeleton : Type := mk_skeleton {
  setups : list value;
  teardowns : list value;
  yield_values : value;
  tests : list value;
  outer_combinations : list (list dict)
}.

(** [test.get(k, None)] *)
Definition get_or_none (h : heap) (obj : value) (k : string) : result value :=
  d ← St.items h obj;
  Ok (default VNone (Py.get k d)).

(** The body of [for test in tests] at the innermost level; the resolved
    lists are stored in the test's own mapping. *)
Definition resolve_test (parameters test : value) : M value :=
  h ← St.get_heap;
  s ← St.lift (get_or_none h test "setup");
  s ← fill_template parameters s;
  test ← St.setitem test "setup" (VList s);
  h ← St.get_heap;
  t ← St.lift (get_or_none h test "teardown");
  t ← fill_template parameters t;
  St.setitem test "teardown" (VList t).

Fixpoint resolve_tests (parameters : value) (ts : list value) : M (list value) :=
  match ts with
  | [] => mret []
  | t :: r =>
      x ← resolve_test parameters t;
      xs ← resolve_tests parameters r;
      mret (x :: xs)
  end.

(** The [while True] loop of [_extract_skeleton]; [fuel] bounds its
    iterations. The lists [setups], [teardowns] and [outer_combinations]
    grow by one entry per level. *)
Fixpoint extract_loop (fuel : nat) (parameters this_level : value)
  (setups teardowns : list value) (yield_values : value) (i_level : nat)
  (outer_combinations : list (list dict)) : M LoopSkeleton :=
  match fuel with
  | O => St.lift NoFuel
  | S fuel' =>
      '(setup, this_level) ← St.pop this_level "setup" VNone;
      let setups := setups ++ [setup] in
      '(teardown, this_level) ← St.pop this_level "teardown" VNone;
      let teardowns := teardowns ++ [teardown] in
      '(yield_values, this_level) ←
        St.pop this_level "yield_values" yield_values;
      h ← St.get_heap;
      items ← St.lift (St.items h this_level);
      let p := filter (fun kv : string * value => negb (Py.is_dict kv.2)) items in
      c ← St.lift (_get_indexed_combinations (new_pc p) i_level None);
      let outer_combinations := outer_combinations ++ [c] in
      let next_level := dict_children items in
      match next_level with
      | [] => St.raise (ValueError no_inner_msg)
      | first :: _ =>
          if negb (has_dict_value h first) then
            tests ← resolve_tests parameters next_level;
            new_setups ← fill_template parameters (VList setups);
            new_teardowns ← fill_template parameters (VList teardowns);
            mret (mk_skeleton new_setups new_teardowns yield_values tests
                    outer_combinations)
          else
            extract_loop fuel' parameters first setups teardowns yield_values
              (S i_level) outer_combinations
      end
  end.

(** [_extract_skeleton] *)
Definition _extract_skeleton (fuel : nat) (parameters : value) : M LoopSkeleton :=
  h ← St.get_heap;
  d ← St.lift (St.items h parameters);
  this_level ← St.lift (getitem d "main");
  extract_loop fuel parameters this_level [] [] VNone 0 [].

(** ** Sequence generation *)

Definition setup_event (v : value) : value := VDict [("setup", v)].
Definition teardown_event (v : value) : value := VDict [("teardown", v)].

(** [outer_index = lambda i: outer_parameters[f"__index_{i}"]] *)
Definition outer_index (outer_parameters : dict) (i : nat) : result value :=
  getitem outer_parameters (index_key i).

(** The body of the loop over [enumerate(zip(setups, teardowns))]: the
    events appended for position [i]. The second index is only read when
    the first test holds. *)
Definition boundary_events (outer_parameters : dict)
  (entry : nat * (value * value)) : result (list value) :=
  let '(i, (setup, teardown)) := entry in
  if i =? 0 then Ok []
  else
    a ← outer_index outer_parameters i;
    if Py.eq_zero a then
      b ← outer_index outer_parameters (i - 1);
      if negb (Py.eq_zero b)
      then Ok [teardown_event teardown; setup_event setup]
      else Ok []
    else Ok [].

(** The body of the loop over [enumerate(tests)]: the events appended
    for one leaf test under one tuple of outer combinations. *)
Definition test_events (h : heap) (sk : LoopSkeleton) (outer_parameters : dict)
  (entry : nat * value) : result (list value) :=
  let '(i_inner, p) := entry in
  inner_parameters ← St.items h p;
  let '(setup, inner_parameters) := Py.pop "setup" VNone inner_parameters in
  let '(teardown, inner_parameters) := Py.pop "teardown" VNone inner_parameters in
  let '(yield_test, inner_parameters) :=
    Py.pop "yield" (yield_values sk) inner_parameters in
  let all_parameters := Py.update outer_parameters inner_parameters in
  c ← _get_indexed_combinations (new_pc all_parameters)
        (length (setups sk)) (Some i_inner);
  let c := map (Py.set "yield" yield_test) c in
  Ok ([setup_event setup] ++ map VDict c ++ [teardown_event teardown]).

(** The body of the loop over the product of [outer_combinations], for
    one tuple of outer combinations. *)
Definition tuple_events (h : heap) (sk : LoopSkeleton)
  (outer_combination : list dict) : result (list value) :=
  let outer_parameters := fold_left Py.update outer_combination [] in
  b ← mapM (boundary_events outer_parameters)
        (enumerate (combine (setups sk) (teardowns sk)));
  t ← mapM (test_events h sk outer_parameters) (enumerate (tests sk));
  Ok (concat b ++ concat t).

Definition generate (h : heap) (sk : LoopSkeleton) : result (list value) :=
  body ← mapM (tuple_events h sk) (Py.product (outer_combinations sk));
  Ok ([setup_event (VList (setups sk))] ++ concat body ++
      [teardown_event (VList (rev (teardowns sk)))]).

(** [get_combinations] on the store; [fuel] bounds the two descents
    through the levels. [dataclasses.astuple] hands the generation copies
    of the skeleton's fields, made by following every list and mapping
    down to the scalars. The copies are equal to the originals, which no
    step of the generation changes, so the model reads the originals.
    The copy does not end on a skeleton that contains itself, which a
    leaf test brings about by naming the entry point [main] as the
    template of its setup or teardown (the combinations of [main] hold
    the levels above the test): there the code raises [RecursionError]
    before it generates anything, and the model generates from the
    originals. A call of the code that returns is a call of the model
    that returns the same list. *)
Definition get_combinations (fuel : nat) (parameters : value) : M (list value) :=
  h ← St.get_heap;
  St.lift (check_validity fuel h parameters);;
  sk ← _extract_skeleton fuel parameters;
  h ← St.get_heap;
  St.lift (generate h sk).

(** ** Specification literals *)

(** A specification as the caller writes it: a tree of mappings, lists
    and scalars, with no sharing. *)
Inductive pyobj : Type :=
| PNone
| PInt (z : Z)
| PStr (s : string)
| PList (l : list pyobj)
| PDict (d : list (string * pyobj)).

(** Building the objects of a literal: every mapping becomes an object of
    the store, the mappings inside it first. *)
Fixpoint load (o : pyobj) (h : heap) {struct o} : value * heap :=
  match o with
  | PNone => (VNone, h)
  | PInt z => (VInt z, h)
  | PStr s => (VStr s, h)
  | PList l =>
      let fix go (l : list pyobj) (h : heap) : list value * heap :=
        match l with
        | [] => ([], h)
        | x :: r =>
            let '(v, h1) := load x h in
            let '(vs, h2) := go r h1 in
            (v :: vs, h2)
        end in
      let '(vs, h') := go l h in (VList vs, h')
  | PDict d =>
      let fix go (d : list (string * pyobj)) (h : heap) : dict * heap :=
        match d with
        | [] => ([], h)
        | (k, x) :: r =>
            let '(v, h1) := load x h in
            let '(kvs, h2) := go r h1 in
            ((k, v) :: kvs, h2)
        end in
      let '(kvs, h') := go d h in (VRef (length h'), h' ++ [kvs])
  end.

(** Reading a value back as a literal, following references through the
    store; [None] when [fuel] nested levels do not reach the leaves (a
    cyclic structure has no literal). *)
Fixpoint reify (fuel : nat) (h : heap) (v : value) : option pyobj :=
  match fuel with
  | O => None
  | S fuel' =>
      let fields (d : dict) : option (list (string * pyobj)) :=
        mapM (fun kv : string * value => pair kv.1 <$> reify fuel' h kv.2) d in
      match v with
      | VNone => Some PNone
      | VInt z => Some (PInt z)
      | VStr s => Some (PStr s)
      | VList l => PList <$> mapM (reify fuel' h) l
      | VDict d => PDict <$> fields d
      | VRef a => d ← h !! a; PDict <$> fields d
      end
  end.

(** Nesting depth of mappings directly inside mappings. *)
Fixpoint dict_depth (o : pyobj) : nat :=
  match o with
  | PDict d =>
      S (list_max (map (fun kv : string * pyobj => dict_depth kv.2) d))
  | _ => 0
  end.

(** A call of [get_combinations] on a literal specification: the
    outcome, the caller's object and the store after the call. Each
    iteration of the two descents moves into a mapping nested in the
    current one, so the nesting depth of the literal bounds their
    number. *)
Record call_result : Type := mk_call {
  outcome : result (list value);
  caller_spec : value;
  final_heap : heap
}.

Definition call (spec : list (string * pyobj)) : call_result :=
  let '(root, h) := load (PDict spec) [] in
  let '(r, h') := get_combinations (dict_depth (PDict spec)) root h in
  mk_call r root h'.

Definition view_fuel : nat := 64.

(** The returned list as literals. *)
Definition returned (spec : list (string * pyobj)) : result (option (list pyobj)) :=
  let c := call spec in
  out ← outcome c;
  Ok (mapM (reify view_fuel (final_heap c)) out).

(** The skeleton extracted from a literal specification. *)
Definition skeleton_of (spec : list (string * pyobj)) : result LoopSkeleton :=
  let '(root, h) := load (PDict spec) [] in
  (_extract_skeleton (dict_depth (PDict spec)) root h).1.

(** The caller's specification as it stands after the call. *)
Definition spec_after (spec : list (string * pyobj)) : option pyobj :=
  let c := call spec in
  reify view_fuel (final_heap c) (caller_spec c).

(** ** Reading the returned sequence *)

(** The elements of the returned list: a setup event is a record with the
    single key [setup], a teardown event one with the single key
    [teardown]; a test combination carries [__index] and [__index_test]. *)
Inductive event : Type :=
| Setup (actions : pyobj)
| Teardown (actions : pyobj)
| Test (index index_test : pyobj)
| Unknown.

Fixpoint pget (k : string) (d : list (string * pyobj)) : option pyobj :=
  match d with
  | [] => None
  | (k', v) :: r => if String.eqb k k' then Some v else pget k r
  end.

Definition classify (o : pyobj) : event :=
  match o with
  | PDict [(k, v)] =>
      if String.eqb k "setup" then Setup v
      else if String.eqb k "teardown" then Teardown v
      else Unknown
  | PDict d =>
      match pget "__index" d, pget "__index_test" d with
      | Some i, Some t => Test i t
      | _, _ => Unknown
      end
  | _ => Unknown
  end.

Definition trace (spec : list (string * pyobj)) : result (option (list event)) :=
  match returned spec with
  | Ok (Some out) => Ok (Some (map classify out))
  | Ok None => Ok None
  | Raise e => Raise e
  | NoFuel => NoFuel
  end.

Definition is_setup (e : event) : bool :=
  match e with Setup _ => true | _ => false end.
Definition is_teardown (e : event) : bool :=
  match e with Teardown _ => true | _ => false end.
Definition is_test (e : event) : bool :=
  match e with Test _ _ => true | _ => false end.

(** The same recognisers on the values the engine returns. *)
Definition is_setup_event (v : value) : bool :=
  match v with
  | VDict [(k, _)] => String.eqb k "setup"
  | _ => false
  end.

Definition is_teardown_event (v : value) : bool :=
  match v with
  | VDict [(k, _)] => String.eqb k "teardown"
  | _ => false
  end.

Definition is_test_combination (v : value) : bool :=
  match v with
  | VDict d => bool_decide (is_Some (Py.get "__index_test" d))
  | _ => false
  end.

(** Bracket discipline of a sequence of events: a setup opens, a
    teardown closes the setup opened last; [open] setups are pending. *)
Fixpoint nested (open : nat) (out : list value) : bool :=
  match out with
  | [] => open =? 0
  | v :: r =>
      if is_setup_event v then nested (S open) r
      else if is_teardown_event v then
        match open with
        | O => false
        | S o => nested o r
        end
      else nested open r
  end.

(** The number of elements of a sequence recognised by [p]. *)
Definition count_events (p : value → bool) (out : list value) : nat :=
  length (List.filter p out).

(** A stretch of the sequence that leaves the pending setups as they
    are, given that one is pending, and holds as many setup as teardown
    events. *)
Definition balanced (s : list value) : Prop :=
  (∀ o r, nested (S o) (s ++ r) = nested (S o) r) ∧
  count_events is_setup_event s = count_events is_teardown_event s.

(** ** Example specifications *)

Module Examples.

Definition ints (l : list Z) : pyobj := PList (map PInt l).

(** One outer level, the entry point itself, sweeping [temperature], and
    one leaf test sweeping [param]. *)
Definition temperature_sweep : list (string * pyobj) :=
  [("main", PDict [("temperature", ints [25; 26; 27]%Z);
                   ("test", PDict [("param", ints [1; 2]%Z)])])].

(** Three outer levels of two combinations each, with their own setup
    and teardown actions, and one leaf test. *)
Definition three_levels : list (string * pyobj) :=
  [("main",
    PDict [("setup", PList [PDict [("open", PInt 0)]]);
           ("teardown", PList [PDict [("close", PInt 0)]]);
           ("a", ints [1; 2]%Z);
           ("L1",
            PDict [("setup", PList [PDict [("open", PInt 1)]]);
                   ("teardown", PList [PDict [("close", PInt 1)]]);
                   ("b", ints [1; 2]%Z);
                   ("L2",
                    PDict [("setup", PList [PDict [("open", PInt 2)]]);
                           ("teardown", PList [PDict [("close", PInt 2)]]);
                           ("c", ints [1; 2]%Z);
                           ("test", PDict [("p", PInt 1)])])])])].

(** The sequence returned for [three_levels], event by event; the
    comments give the tuple of outer indices being processed. *)
Definition three_levels_events : list event :=
  let test (i : list Z) := Test (ints i) (PInt 0) in
  let around (i : list Z) :=
    [Setup (PList []); test i; Teardown (PList [])] in
  let restart (level : Z) :=
    [Teardown (PDict [("close", PInt level)]);
     Setup (PDict [("open", PInt level)])] in
  [Setup (PList [PDict [("open", PInt 0)]; PDict [("open", PInt 1)];
                 PDict [("open", PInt 2)]])]
  ++ around [0; 0; 0; 0]%Z                   (* (0, 0, 0) *)
  ++ around [0; 0; 1; 0]%Z                   (* (0, 0, 1) *)
  ++ restart 2%Z ++ around [0; 1; 0; 0]%Z      (* (0, 1, 0) *)
  ++ around [0; 1; 1; 0]%Z                   (* (0, 1, 1) *)
  ++ restart 1%Z ++ around [1; 0; 0; 0]%Z      (* (1, 0, 0) *)
  ++ restart 1%Z ++ around [1; 0; 1; 0]%Z      (* (1, 0, 1) *)
  ++ restart 2%Z ++ around [1; 1; 0; 0]%Z      (* (1, 1, 0) *)
  ++ around [1; 1; 1; 0]%Z                   (* (1, 1, 1) *)
  ++ [Teardown (PList [PDict [("close", PInt 2)]; PDict [("close", PInt 1)];
                       PDict [("close", PInt 0)]])].

(** A setup entry naming a top-level entry that is a scalar. *)
Definition scalar_template : list (string * pyobj) :=
  [("main", PDict [("t", PDict [("setup", PList [PStr "x"]);
                                ("p", PInt 1)])]);
   ("x", PInt 5)].

(** The same with a top-level entry that is a list, and with no such
    entry. *)
Definition list_template : list (string * pyobj) :=
  [("main", PDict [("t", PDict [("setup", PList [PStr "x"]);
                                ("p", PInt 1)])]);
   ("x", PList [PInt 5])].

Definition missing_template : list (string * pyobj) :=
  [("main", PDict [("t", PDict [("setup", PList [PStr "x"]);
                                ("p", PInt 1)])])].

(** An entry point with an empty setup list. *)
Definition empty_setup : list (string * pyobj) :=
  [("main", PDict [("setup", PList []);
                   ("t", PDict [("param", ints [1; 2]%Z)])])].

(** An entry point with two setup entries. *)
Definition two_setups : list (string * pyobj) :=
  [("main", PDict [("setup", PList [PDict [("power", PStr "on")];
                                    PDict [("fan", PStr "on")]]);
                   ("t", PDict [("param", ints [1; 2]%Z)])])].

(** An entry point with setup and teardown actions and one test. *)
Definition with_actions : list (string * pyobj) :=
  [("main", PDict [("setup", PList [PDict [("hardware", PStr "initialize")]]);
                   ("teardown", PList [PDict [("hardware", PStr "reset")]]);
                   ("t", PDict [("p", PInt 1)])])].

(** The specification of the repository's test for zip groups of uneven
    length: the entry point and its only child. *)
Definition uneven_faulty : list (string * pyobj) :=
  [("param_1#zip_faulty", ints [1; 2; 3]%Z);
   ("param_2#zip_faulty", PList [PStr "a"; PStr "b"])].

Definition uneven_main : list (string * pyobj) := [("faulty", PDict uneven_faulty)].

Definition uneven_zip : list (string * pyobj) := [("main", PDict uneven_main)].

(** The same with zip modifiers of empty name. *)
Definition empty_modifier_zip : list (string * pyobj) :=
  [("main",
    PDict [("faulty",
            PDict [("param_1#zip_", ints [1; 2; 3]%Z);
                   ("param_2#zip_", PList [PStr "a"; PStr "b"])])])].

(** The specification of the repository's test for parallel outer
    loops. *)
Definition parallel_main : list (string * pyobj) :=
  let inner1 := PDict [("setup", PList [PStr "standard_test"]);
                       ("param_1", ints [1; 2; 3]%Z)] in
  let inner2 := PDict [("setup", PList [PStr "standard_test"]);
                       ("param_2", ints [4; 5; 6]%Z)] in
  [("setup", PList [PDict [("hardware", PStr "initialize")]]);
   ("teardown", PList [PDict [("hardware", PStr "reset")]]);
   ("outer", PDict [("inner", inner1); ("inner2", inner2)]);
   ("second_outer", PDict [("inner", inner1); ("inner2", inner2)])].

Definition parallel_loops : list (string * pyobj) :=
  [("main", PDict parallel_main)].

(** Flat parameter mappings: the corner levels of the repository's test
    fixtures, with and without zip modifiers. *)
Definition strs (l : list string) : value := VList (map VStr l).
Definition nums (l : list Z) : value := VList (map VInt l).

Definition corner : dict :=
  [("param_1", nums [1; 2; 3]%Z); ("param_2", strs ["a"; "b"])].

Definition zip_corner : dict :=
  [("param_1#zip_corner", nums [1; 2; 3]%Z);
   ("param_2#zip_corner", strs ["a"; "b"; "c"]);
   ("temperature", VInt 20)].

Definition zip_corner_free : dict :=
  [("param_1#zip_corner", nums [1; 2; 3]%Z);
   ("param_2#zip_corner", strs ["a"; "b"; "c"]);
   ("param_4", strs ["t"; "b"])].

Definition uneven_corner : dict :=
  [("param_1#zip_corner", nums [1; 2; 3]%Z);
   ("param_2#zip_corner", strs ["a"; "b"])].



Definition empty_modifier_uneven : dict :=
  [("param_1#zip_", nums [1; 2; 3]%Z); ("param_2#zip_", strs ["a"; "b"])].


(** Parameters whose names differ in a modifier only: swept, fixed, and
    members of one zip group. *)
Definition shared_name : dict :=
  [("a", nums [1; 2]%Z); ("a#x", nums [3; 4]%Z)].


Definition shared_zip : dict :=
  [("a#zip_g", nums [1; 2]%Z); ("a#zip_g#x", nums [3; 4]%Z)].

(** The merged parameters of a leaf test under one outer level, with and
    without the index of the outer level. *)
Definition indexed_test : dict :=
  [("temperature", VInt 25); ("__index_0", VInt 2);
   ("param", nums [1; 2]%Z)].

Definition unindexed_test : dict :=
  [("temperature", VInt 25); ("param", nums [1; 2]%Z)].

(** The specification of the repository's test without entry point, and
    one whose entry point is a number. *)
Definition no_main : list (string * pyobj) :=
  [("outer",
    PDict [("inner", PDict [("setup", PList [PStr "standard_test"]);
                            ("param_1", ints [1; 2; 3]%Z)])])].

Definition scalar_main : list (string * pyobj) := [("main", PInt 5)].

(** The specification of the repository's test for an entry point
    without inner loop. *)
Definition no_inner_main : list (string * pyobj) :=
  [("setup", PList [PStr "standard_test"]);
   ("param_1", ints [1; 2; 3]%Z)].

Definition no_inner : list (string * pyobj) := [("main", PDict no_inner_main)].

(** A store with a table of templates at address 1 and the template
    [standard_test] at address 0. *)
Definition template_store : heap :=
  [[("setup", VStr "other"); ("temperature", VInt 20);
    ("param_1", nums [1; 2]%Z)];
   [("standard_test", VRef 0)]].

End Examples.

(** ** Vocabulary of the properties *)


(** The tuple of values at a multi-index over the swept dimensions: a
    parameter with more than one value takes the value at its
    coordinate, any other parameter its only value. *)
Fixpoint pick_swept (vals : list (list value)) (idx : list nat) : list value :=
  match vals with
  | [] => []
  | v :: vs =>
      if 1 <? length v then
        match idx with
        | i :: idx' => nth i v VNone :: pick_swept vs idx'
        | [] => nth 0 v VNone :: pick_swept vs []
        end
      else nth 0 v VNone :: pick_swept vs idx
  end.

Definition combo_at (pc : ParameterCombination) (idx : list nat) : dict :=
  Py.dict_zip (pure_names pc) (pick_swept (values pc) idx).

(** A multi-index is on the diagonal of every zip group. *)
Definition valid_index (pc : ParameterCombination) (idx : list nat) : bool :=
  forallb (fun g => Np.selected (index_slicer pc g) idx None) (zip_groups pc).

(** The swept dimensions with their zip-modifier names. *)
Definition swept (pc : ParameterCombination) : list (option string * nat) :=
  combine (zip_groups pc) (shape pc).


(** The swept dimension an entry of a flat mapping contributes, if any:
    its zip-modifier name and its length. *)
Definition swept_entry (kv : string * value) : list (option string * nat) :=
  if 1 <? length (as_list kv.2)
  then [(get_zip_group kv.1, length (as_list kv.2))]
  else [].


Abbreviation pdict := (list (string * pyobj)).

(** The mappings among the values of a literal mapping. *)
Definition pdict_children (d : pdict) : list pdict :=
  flat_map (fun kv : string * pyobj =>
              match kv.2 with PDict c => [c] | _ => [] end) d.

(** The levels of a specification below a mapping: the mapping itself
    and, recursively, the mappings among its values. *)
Inductive below : pdict → pdict → Prop :=
| below_here d : below d d
| below_child d c l : c ∈ pdict_children d → below c l → below d l.

(** A level with more than one child mapping, one of which contains a
    nested mapping. *)
Definition parallel_level (l : pdict) : Prop :=
  1 < length (pdict_children l) ∧
  ∃ c, c ∈ pdict_children l ∧ pdict_children c ≠ [].

(** A store holds a literal at a value. The objects are laid out as
    [load] builds them: the mappings inside the mapping at address [a] sit
    at addresses below [a]. *)
Inductive rep (h : heap) : pyobj → value → Prop :=
| rep_none : rep h PNone VNone
| rep_int z : rep h (PInt z) (VInt z)
| rep_str s : rep h (PStr s) (VStr s)
| rep_list l vs : Forall2 (rep h) l vs → rep h (PList l) (VList vs)
| rep_dict (d : list (string * pyobj)) (a : nat) (kvs : dict) :
    h !! a = Some kvs →
    Forall2 (fun (x : string * pyobj) (y : string * value) =>
               x.1 = y.1 ∧ rep (take a h) x.2 y.2) d kvs →
    rep h (PDict d) (VRef a).

(** ** Levels of a specification and uneven zip groups *)

(** A literal mapping without (the first entry for) a key. *)
Fixpoint premove (k : string) (d : pdict) : pdict :=
  match d with
  | [] => []
  | (k', v) :: r => if String.eqb k k' then r else (k', v) :: premove k r
  end.

(** A level once its [setup], [teardown] and [yield_values] are taken
    out. *)
Definition level_body (d : pdict) : pdict :=
  premove "yield_values" (premove "teardown" (premove "setup" d)).

(** The levels the extraction reaches from a level: the level itself,
    the next level down (the first child mapping, when it nests further
    mappings), and the leaf tests (all child mappings, when the first
    one nests none). *)
Inductive reaches : pdict → pdict → Prop :=
| reaches_here d : reaches d d
| reaches_test d first rest t :
    pdict_children (level_body d) = first :: rest →
    pdict_children first = [] →
    t ∈ first :: rest →
    reaches d t
| reaches_next d first rest l :
    pdict_children (level_body d) = first :: rest →
    pdict_children first ≠ [] →
    reaches first l →
    reaches d l.

(** A level (with distinct keys) holding two members of one zip group,
    with a non-empty modifier, whose lists have more than one value and
    different lengths. *)
Definition uneven_zip_level (l : pdict) : Prop :=
  NoDup (map fst l) ∧
  ∃ g k1 k2 l1 l2,
    g ≠ "" ∧ (k1, PList l1) ∈ l ∧ (k2, PList l2) ∈ l ∧
    get_zip_group k1 = Some g ∧ get_zip_group k2 = Some g ∧
    1 < length l1 ∧ 1 < length l2 ∧ length l1 ≠ length l2.

(** The same for a mapping of the store. *)
Definition uneven_pair (d : dict) : Prop :=
  NoDup (Py.keys d) ∧
  ∃ g k1 k2 v1 v2,
    g ≠ "" ∧ (k1, v1) ∈ d ∧ (k2, v2) ∈ d ∧
    get_zip_group k1 = Some g ∧ get_zip_group k2 = Some g ∧
    1 < length (as_list v1) ∧ 1 < length (as_list v2) ∧
    length (as_list v1) ≠ length (as_list v2).

Definition holds_uneven_pair (a : nat) (h : heap) : Prop :=
  ∃ d, h !! a = Some d ∧ uneven_pair d.

(** A computation neither runs out of fuel nor breaks the invariant [I]
    of the store. *)
Definition keeps (I : heap → Prop) {A} (m : M A) : Prop :=
  ∀ h, I h → (m h).1 ≠ NoFuel ∧ I (m h).2.

(** What the extraction comes to on a specification with an uneven zip
    level: it raises, or it hands the level on as a leaf test. *)
Definition extraction_goal (X : result LoopSkeleton * heap) : Prop :=
  Res.is_raise X.1 = true ∨
  ∃ sk a, X.1 = Ok sk ∧ VRef a ∈ tests sk ∧ holds_uneven_pair a X.2 ∧
          Forall (fun c => c ≠ []) (outer_combinations sk).

(** ** Vocabulary of the further properties *)

(** A name without the modifier sign [#]. *)
Fixpoint no_hash (s : string) : bool :=
  match s with
  | EmptyString => true
  | String c s' => negb (String.eqb (String c "") "#") && no_hash s'
  end.

(** [name.split("#")[0]], the key a parameter has in the combinations. *)
Definition pure_name (name : string) : string := hd "" (Py.split "#" name).

(** Two swept members of one zip group, with a non-empty modifier, whose
    lists differ in length. *)
Definition uneven_group (ps : dict) : Prop :=
  ∃ g k1 k2 v1 v2,
    g ≠ "" ∧ (k1, v1) ∈ ps ∧ (k2, v2) ∈ ps ∧
    get_zip_group k1 = Some g ∧ get_zip_group k2 = Some g ∧
    1 < length (as_list v1) ∧ 1 < length (as_list v2) ∧
    length (as_list v1) ≠ length (as_list v2).

(** The members of every zip group with a non-empty modifier sit at one
    position. *)
Definition on_diagonals (pc : ParameterCombination) (idx : list nat) : Prop :=
  ∀ t t' g i j,
    g ≠ "" →
    zip_groups pc !! t = Some (Some g) → zip_groups pc !! t' = Some (Some g) →
    idx !! t = Some i → idx !! t' = Some j → i = j.



(** The number of values of a parameter written as a literal: the length
    of a list, one for anything else. *)
Definition plength (o : pyobj) : nat :=
  match o with
  | PList l => length l
  | _ => 1
  end.

(** The same as [uneven_group] for a literal mapping. *)
Definition uneven_literal (d : pdict) : Prop :=
  ∃ g k1 k2 o1 o2,
    g ≠ "" ∧ (k1, o1) ∈ d ∧ (k2, o2) ∈ d ∧
    get_zip_group k1 = Some g ∧ get_zip_group k2 = Some g ∧
    1 < plength o1 ∧ 1 < plength o2 ∧ plength o1 ≠ plength o2.

(** A resolved setup or teardown entry: [None], a literal mapping, or
    the list of combinations of a template; no name is left. *)
Definition resolved (v : value) : bool :=
  match v with
  | VNone | VDict _ | VRef _ | VList _ => true
  | VInt _ | VStr _ => false
  end.

(** The keys the engine takes out of, or stores into, the mappings of
    the caller. *)
Definition reserved (k : string) : bool :=
  String.eqb k "setup" || String.eqb k "teardown" || String.eqb k "yield_values".

(** The entries of a mapping under its other keys, in their order. *)
Definition parameters_of (d : dict) : dict :=
  List.filter (fun kv : string * value => negb (reserved kv.1)) d.

(** A computation leaves those entries of every mapping of the store as
    they are. *)
Definition preserves {A} (m : M A) : Prop :=
  ∀ h, map parameters_of (m h).2 = map parameters_of h.

(** A setup or teardown entry that [fill_template] hands on as it is. *)
Definition passes (v : value) : bool :=
  match v with
  | VNone | VDict _ | VRef _ => true
  | _ => false
  end.

(** * Properties *)

(** ** Parameter combination *)

Section ArrayFacts.

Lemma length_indices shp : length (Np.indices shp) = Np.size shp.
Proof.
  induction shp as [|n s IH]; simpl; [done|].
  change (fold_right Nat.mul 1 s) with (Np.size s).
  generalize 0 as k. induction n as [|n IHn]; intros k; simpl; [done|].
  rewrite length_app, length_map, IH, IHn. done.
Qed.

Lemma mask_select_map {A B} (f : A → B) (P : A → bool) (l : list A) :
  Np.mask_select (map f l) (map P l) = map f (filter (fun x => P x) l).
Proof.
  induction l as [|x l IH]; simpl; [done|].
  rewrite filter_cons. destruct (decide (P x)) as [H|H];
    destruct (P x); simpl in *; try done.
  by rewrite IH.
Qed.

Lemma flat_map_compose {A B C} (f : B → list C) (g : A → B) (l : list A) :
  flat_map f (map g l) = flat_map (fun x => f (g x)) l.
Proof. induction l as [|x l IH]; simpl; [done|]. by rewrite IH. Qed.

Lemma flat_map_nth_seq {A B} (d : A) (G : A → list B) (v : list A) :
  flat_map G v = flat_map (fun i => G (nth i v d)) (seq 0 (length v)).
Proof.
  induction v as [|x v IH]; [done|].
  cbn [length seq flat_map nth]. rewrite IH at 1. f_equal.
  rewrite <- seq_shift, flat_map_compose. done.
Qed.

Lemma product_pick (vals : list (list value)) :
  Forall (fun v => v ≠ []) vals →
  Py.product vals =
    map (pick_swept vals)
        (Np.indices (filter (fun n => 1 <? n) (map length vals))).
Proof.
  induction 1 as [|v vs Hv Hvs IH]; simpl; [done|].
  rewrite filter_cons.
  destruct (decide (1 <? length v)) as [H|H];
    destruct (1 <? length v) eqn:E; simpl in H; try done.
  - simpl.
    rewrite (flat_map_nth_seq VNone), !flat_map_concat_map.
    rewrite concat_map, map_map. f_equal. apply map_ext. intros i.
    rewrite IH, !map_map. apply map_ext. intros idx. by cbn [pick_swept]; rewrite ?E.
  - destruct v as [|x [|y v]]; [done| |simpl in E; done].
    cbn [flat_map]. rewrite app_nil_r, IH, map_map.
    apply map_ext. intros idx. done.
Qed.

End ArrayFacts.

Section IndexFacts.

Lemma result_bind_ok {A B} (a : A) (f : A → result B) : (Ok a ≫= f) = f a.
Proof. done. Qed.

Lemma result_bind_raise {A B} (e : exn) (f : A → result B) :
  (Raise e ≫= f) = Raise e.
Proof. done. Qed.

Lemma mapM_result_ok {A B} (f : A → result B) (F : A → B) (l : list A) :
  (∀ x, x ∈ l → f x = Ok (F x)) → mapM f l = Ok (map F l).
Proof.
  induction l as [|x l IH]; intros H; [done|].
  cbn. rewrite (H x) by left. cbn.
  rewrite IH by (intros y Hy; apply H; by right). done.
Qed.

Lemma mapM_result_raise {A B} (f : A → result B) (e : exn) (l : list A) :
  (∀ x, x ∈ l → Res.is_ok (f x) = true ∨ f x = Raise e) →
  (∃ x, x ∈ l ∧ f x = Raise e) →
  mapM f l = Raise e.
Proof.
  induction l as [|x l IH]; intros H [y [Hy Hf]].
  - by apply elem_of_nil in Hy.
  - cbn. destruct (H x) as [Hx|Hx]; [by left| |by rewrite Hx].
    destruct (f x) as [b| |] eqn:E; try done. cbn.
    apply elem_of_cons in Hy as [->|Hy]; [congruence|].
    rewrite IH; [done| |by exists y].
    intros z Hz. apply H. by right.
Qed.

Lemma combine_repeat_false (sel : list nat → bool) (I : list (list nat)) :
  map (fun p : bool * list nat => p.1 || sel p.2)
      (combine (repeat false (length I)) I) = map sel I.
Proof. induction I as [|i I IH]; simpl; [done|]. by rewrite IH. Qed.

Lemma get_zip_index_eq (pc : ParameterCombination) (g : option string) :
  get_zip_index pc g =
    if Np.broadcastable (Np.range_lengths (index_slicer pc g))
    then Ok (Np.mk_ndarray (shape pc)
               (map (fun idx => Np.selected (index_slicer pc g) idx None)
                    (Np.indices (shape pc))))
    else Raise (ValueError mismatch_msg).
Proof.
  unfold get_zip_index, Np.set_true, Np.zeros. cbn [Np.shape Np.data].
  destruct (Np.broadcastable _); [|done].
  rewrite <- length_indices.
  by rewrite (combine_repeat_false
                (fun idx => Np.selected (index_slicer pc g) idx None)).
Qed.

Lemma logical_and_data (pa pb : list nat → bool) shp shp' (I : list (list nat)) :
  Np.logical_and (Np.mk_ndarray shp (map pa I)) (Np.mk_ndarray shp' (map pb I)) =
  Np.mk_ndarray shp (map (fun idx => pa idx && pb idx) I).
Proof.
  unfold Np.logical_and. cbn [Np.shape Np.data]. f_equal.
  induction I as [|i I IH]; simpl; [done|]. by rewrite IH.
Qed.

Lemma fold_logical_and (p : option string → list nat → bool) shp
  (I : list (list nat)) (gs : list (option string)) (pa : list nat → bool) :
  fold_left Np.logical_and
    (map (fun g => Np.mk_ndarray shp (map (p g) I)) gs)
    (Np.mk_ndarray shp (map pa I)) =
  Np.mk_ndarray shp (map (fun idx => pa idx && forallb (fun g => p g idx) gs) I).
Proof.
  revert pa. induction gs as [|g gs IH]; intros pa; simpl.
  - f_equal. apply map_ext. intros. by rewrite andb_true_r.
  - rewrite logical_and_data, IH. f_equal. apply map_ext. intros.
    by rewrite andb_assoc.
Qed.

End IndexFacts.

Section Combinations.

Lemma swept_entry_cases (k : string) (v : value) :
  ((1 <? length (as_list v)) = true ∧
   swept_entry (k, v) = [(get_zip_group k, length (as_list v))]) ∨
  ((1 <? length (as_list v)) = false ∧ swept_entry (k, v) = []).
Proof.
  unfold swept_entry. cbn [fst snd].
  destruct (1 <? length (as_list v)); auto.
Qed.

Lemma zip_groups_new_pc (ps : dict) :
  zip_groups (new_pc ps) = map fst (flat_map swept_entry ps).
Proof.
  unfold zip_groups, new_pc. cbn [names values].
  induction ps as [|[k v] ps IH]; [done|].
  cbn [map combine flat_map fst snd]. rewrite IH.
  destruct (swept_entry_cases k v) as [[E ->]|[E ->]]; rewrite E; done.
Qed.

Lemma shape_new_pc (ps : dict) :
  shape (new_pc ps) = map snd (flat_map swept_entry ps).
Proof.
  unfold new_pc. cbn [shape].
  induction ps as [|[k v] ps IH]; [done|].
  cbn [map flat_map fst snd]. rewrite filter_cons, IH.
  destruct (swept_entry_cases k v) as [[E ->]|[E ->]];
    destruct (decide (1 <? length (as_list v))) as [H|H];
    rewrite E in H; simpl in H; done.
Qed.

Lemma swept_new_pc (ps : dict) :
  swept (new_pc ps) = flat_map swept_entry ps.
Proof.
  unfold swept. rewrite zip_groups_new_pc, shape_new_pc.
  induction (flat_map swept_entry ps) as [|[g n] l IH]; [done|].
  cbn. by rewrite IH.
Qed.

Lemma values_new_pc (ps : dict) :
  values (new_pc ps) = map (fun kv : string * value => as_list kv.2) ps.
Proof. unfold new_pc. cbn [values]. by rewrite map_map. Qed.

Lemma length_zip_groups_shape (ps : dict) :
  length (zip_groups (new_pc ps)) = length (shape (new_pc ps)).
Proof. by rewrite zip_groups_new_pc, shape_new_pc, !length_map. Qed.

Lemma combination_index_flat_gen (pc : ParameterCombination) :
  length (zip_groups pc) = length (shape pc) →
  (∀ g, g ∈ zip_groups pc →
        Np.broadcastable (Np.range_lengths (index_slicer pc g)) = true) →
  Np.flatten <$> combination_index pc =
    Ok (map (valid_index pc) (Np.indices (shape pc))).
Proof.
  intros Hlen Hb.
  unfold combination_index.
  rewrite (mapM_result_ok _
             (fun g => Np.mk_ndarray (shape pc)
                (map (fun idx => Np.selected (index_slicer pc g) idx None)
                     (Np.indices (shape pc))))).
  2:{ intros g Hg. rewrite get_zip_index_eq, Hb; done. }
  change (Ok (Np.flatten (Np.logical_and_reduce
           (map (fun g => Np.mk_ndarray (shape pc)
                (map (fun idx => Np.selected (index_slicer pc g) idx None)
                     (Np.indices (shape pc)))) (zip_groups pc)))) =
          Ok (map (valid_index pc) (Np.indices (shape pc)))).
  f_equal. unfold Np.flatten, valid_index.
  destruct (zip_groups pc) as [|g gs] eqn:E.
  - destruct (shape pc); [done|]. simpl in Hlen. discriminate Hlen.
  - cbn [map Np.logical_and_reduce].
    rewrite (fold_logical_and
               (fun g idx => Np.selected (index_slicer pc g) idx None)).
    done.
Qed.

Lemma combination_index_flat (ps : dict) :
  (∀ g, g ∈ zip_groups (new_pc ps) →
        Np.broadcastable (Np.range_lengths (index_slicer (new_pc ps) g)) = true) →
  Np.flatten <$> combination_index (new_pc ps) =
    Ok (map (valid_index (new_pc ps)) (Np.indices (shape (new_pc ps)))).
Proof.
  apply combination_index_flat_gen, length_zip_groups_shape.
Qed.

Lemma combination_index_raise (ps : dict) :
  (∃ g, g ∈ zip_groups (new_pc ps) ∧
        Np.broadcastable (Np.range_lengths (index_slicer (new_pc ps) g)) = false) →
  combination_index (new_pc ps) = Raise (ValueError mismatch_msg).
Proof.
  intros [g [Hg Hb]]. unfold combination_index.
  assert (mapM (get_zip_index (new_pc ps)) (zip_groups (new_pc ps)) =
          Raise (ValueError mismatch_msg)) as ->; [|done].
  apply mapM_result_raise.
  - intros x _. rewrite get_zip_index_eq.
    destruct (Np.broadcastable (Np.range_lengths (index_slicer _ x)));
      [by left | by right].
  - exists g. split; [done|]. by rewrite get_zip_index_eq, Hb.
Qed.

Lemma all_combinations_eq (ps : dict) :
  Forall (fun kv : string * value => as_list kv.2 ≠ []) ps →
  all_combinations (new_pc ps) =
    map (combo_at (new_pc ps)) (Np.indices (shape (new_pc ps))).
Proof.
  intros Hne. unfold all_combinations, combo_at.
  rewrite product_pick.
  - rewrite map_map. done.
  - rewrite values_new_pc. apply Forall_map. done.
Qed.

(** The combinations of a mapping without empty value lists whose zip
    groups have consistent lengths: the tuples at the multi-indices on
    the diagonal of every group, in row-major order. *)
Lemma combinations_valid (ps : dict) :
  Forall (fun kv : string * value => as_list kv.2 ≠ []) ps →
  (∀ g, g ∈ zip_groups (new_pc ps) →
        Np.broadcastable (Np.range_lengths (index_slicer (new_pc ps) g)) = true) →
  combinations (new_pc ps) =
    Ok (map (combo_at (new_pc ps))
          (filter (fun idx => valid_index (new_pc ps) idx)
             (Np.indices (shape (new_pc ps))))).
Proof.
  intros Hne Hb. unfold combinations.
  rewrite combination_index_flat by done. rewrite result_bind_ok.
  rewrite all_combinations_eq by done.
  unfold Np.bool_index. rewrite !length_map, Nat.eqb_refl.
  by rewrite mask_select_map.
Qed.

Lemma combinations_mismatch (ps : dict) :
  (∃ g, g ∈ zip_groups (new_pc ps) ∧
        Np.broadcastable (Np.range_lengths (index_slicer (new_pc ps) g)) = false) →
  combinations (new_pc ps) = Raise (ValueError mismatch_msg).
Proof.
  intros H. unfold combinations. by rewrite combination_index_raise.
Qed.

End Combinations.

Section Ungrouped.

Lemma selected_no_range (ix : list Np.slicer) (idx : list nat) (t : option nat) :
  Np.range_lengths ix = [] → Np.selected ix idx t = true.
Proof.
  revert idx t. induction ix as [|[|n] ix IH]; intros idx t H; simpl in *.
  - done.
  - destruct idx; [done|]. by apply IH.
  - done.
Qed.

Lemma range_lengths_slicer (pc : ParameterCombination) (g : option string) :
  Np.range_lengths (index_slicer pc g) =
    map snd (filter (fun nd : option string * nat => in_zip_group nd.1 g) (swept pc)).
Proof.
  unfold index_slicer. fold (swept pc).
  induction (swept pc) as [|[g' n] l IH]; [done|].
  cbn [map fst snd]. rewrite filter_cons. cbn [fst].
  destruct (decide (in_zip_group g' g)) as [H|H];
    destruct (in_zip_group g' g); simpl in H; try done; cbn; by rewrite IH.
Qed.

Lemma elem_of_swept (ps : dict) (g : option string) (n : nat) :
  (g, n) ∈ swept (new_pc ps) ↔
  ∃ k v, (k, v) ∈ ps ∧ 1 < length (as_list v) ∧
         g = get_zip_group k ∧ n = length (as_list v).
Proof.
  rewrite swept_new_pc, list_elem_of_In, in_flat_map. split.
  - intros [[k v] [Hin Hs]]. exists k, v.
    apply list_elem_of_In in Hin.
    destruct (swept_entry_cases k v) as [[E Hk]|[E Hk]]; rewrite Hk in Hs.
    + apply Nat.ltb_lt in E. destruct Hs as [Hs|[]]. by inversion Hs.
    + destruct Hs.
  - intros (k & v & Hin & Hlt & -> & ->). exists (k, v).
    split; [by apply list_elem_of_In|].
    destruct (swept_entry_cases k v) as [[E Hk]|[E Hk]]; rewrite Hk.
    + by left.
    + apply Nat.ltb_ge in E. lia.
Qed.

Lemma elem_of_zip_groups (ps : dict) (g : option string) :
  g ∈ zip_groups (new_pc ps) → ∃ n, (g, n) ∈ swept (new_pc ps).
Proof.
  rewrite zip_groups_new_pc, swept_new_pc, list_elem_of_fmap.
  intros [[g' n] [-> H]]. by exists n.
Qed.


End Ungrouped.

Section UngroupedProduct.

Lemma filter_all_true {A} (P : A → bool) (l : list A) :
  (∀ x, x ∈ l → P x = true) → filter (fun x => P x) l = l.
Proof.
  induction l as [|x l IH]; intros H; [done|].
  rewrite filter_cons, decide_True by (rewrite H; [done|by left]).
  rewrite IH; [done|]. intros y Hy. apply H. by right.
Qed.

Lemma filter_all_false {A} (P : A → bool) (l : list A) :
  (∀ x, x ∈ l → P x = false) → filter (fun x => P x) l = [].
Proof.
  induction l as [|x l IH]; intros H; [done|].
  rewrite filter_cons, decide_False by (rewrite H; [simpl; tauto|by left]).
  apply IH. intros y Hy. apply H. by right.
Qed.





End UngroupedProduct.

Section ZipGroups.

Lemma in_zip_group_same (g : string) :
  g ≠ "" → in_zip_group (Some g) (Some g) = true.
Proof.
  intros Hg. unfold in_zip_group. rewrite String.eqb_refl, andb_true_r.
  apply negb_true_iff, String.eqb_neq. done.
Qed.

Lemma broadcastable_eq (lens : list nat) (a b : nat) :
  Np.broadcastable lens = true → a ∈ lens → b ∈ lens → a = b.
Proof.
  destruct lens as [|n r]; [by intros _ ?%elem_of_nil|].
  cbn [Np.broadcastable]. intros H Ha Hb.
  assert (∀ x, x ∈ n :: r → x = n) as Hall.
  { intros x [->|Hx]%elem_of_cons; [done|].
    rewrite forallb_forall in H. apply list_elem_of_In in Hx.
    symmetry. by apply Nat.eqb_eq, H. }
  by rewrite (Hall a), (Hall b).
Qed.

Lemma elem_of_range_lengths (ps : dict) (g : string) (k : string) (v : value) :
  g ≠ "" → (k, v) ∈ ps → get_zip_group k = Some g → 1 < length (as_list v) →
  length (as_list v) ∈ Np.range_lengths (index_slicer (new_pc ps) (Some g)).
Proof.
  intros Hg Hin Hk Hlt. rewrite range_lengths_slicer.
  apply list_elem_of_fmap. exists (Some g, length (as_list v)). split; [done|].
  apply list_elem_of_filter. split.
  - cbn [fst]. by rewrite in_zip_group_same.
  - apply elem_of_swept. exists k, v. by rewrite Hk.
Qed.

(** Two swept members of one zip group with a non-empty modifier and
    value lists of different lengths make the computation fail. *)
Lemma combinations_uneven (ps : dict) (g k1 k2 : string) (v1 v2 : value) :
  g ≠ "" →
  (k1, v1) ∈ ps → (k2, v2) ∈ ps →
  get_zip_group k1 = Some g → get_zip_group k2 = Some g →
  1 < length (as_list v1) → 1 < length (as_list v2) →
  length (as_list v1) ≠ length (as_list v2) →
  combinations (new_pc ps) = Raise (ValueError mismatch_msg).
Proof.
  intros Hg H1 H2 G1 G2 L1 L2 Hne.
  apply combinations_mismatch. exists (Some g). split.
  - rewrite zip_groups_new_pc. apply list_elem_of_fmap.
    exists (Some g, length (as_list v1)). split; [done|].
    rewrite <- swept_new_pc. apply elem_of_swept. exists k1, v1. by rewrite G1.
  - apply not_true_iff_false. intros Hb. apply Hne.
    eapply broadcastable_eq; [exact Hb| |]; by eapply elem_of_range_lengths.
Qed.

End ZipGroups.

Section Diagonal.





End Diagonal.

Section DiagonalSelection.







End DiagonalSelection.

Section SingleGroup.





End SingleGroup.

Section FreeDimensions.

Lemma elem_of_indices (shp idx : list nat) :
  idx ∈ Np.indices shp ↔ Forall2 lt idx shp.
Proof.
  revert idx. induction shp as [|n s IH]; intros idx.
  - cbn [Np.indices]. rewrite list_elem_of_singleton. split.
    + intros ->. constructor.
    + by inversion 1.
  - cbn [Np.indices]. rewrite list_elem_of_In, in_flat_map. split.
    + intros (i & Hi & Hin). apply in_seq in Hi. apply in_map_iff in Hin
        as (idx' & <- & Hin). constructor; [lia|].
      by apply IH, list_elem_of_In.
    + inversion 1 as [|i ? idx' ? Hi Hrest]; subst. exists i. split.
      * apply in_seq. lia.
      * apply in_map_iff. exists idx'. split; [done|].
        by apply list_elem_of_In, IH.
Qed.

Lemma no_range_lengths (ix : list Np.slicer) :
  (∀ t m, ix !! t ≠ Some (Np.Range m)) → Np.range_lengths ix = [].
Proof.
  induction ix as [|[|m] ix IH]; intros H; [done| |].
  - cbn. apply IH. intros t m'. apply (H (S t) m').
  - by destruct (H 0 m).
Qed.



Lemma index_slicer_lookup (pc : ParameterCombination) (g : option string) (t : nat) :
  index_slicer pc g !! t =
    (fun nd : option string * nat =>
       if in_zip_group nd.1 g then Np.Range nd.2 else Np.SliceAll)
    <$> swept pc !! t.
Proof. unfold index_slicer. fold (swept pc). by rewrite list_lookup_fmap. Qed.

Lemma in_zip_group_eq (a b : option string) :
  in_zip_group a b = true → a = b ∧ a ≠ None ∧ a ≠ Some "".
Proof.
  destruct a as [a|], b as [b|]; cbn; try done.
  - intros [Hne Heq]%andb_true_iff. apply String.eqb_eq in Heq as ->.
    apply negb_true_iff, String.eqb_neq in Hne. repeat split; congruence.
  - by rewrite andb_false_r.
Qed.


Lemma combinations_ok_broadcastable (ps : dict) (cs : list dict) :
  combinations (new_pc ps) = Ok cs →
  ∀ g, g ∈ zip_groups (new_pc ps) →
       Np.broadcastable (Np.range_lengths (index_slicer (new_pc ps) g)) = true.
Proof.
  intros Hok g Hg.
  destruct (Np.broadcastable _) eqn:E; [done|].
  rewrite combinations_mismatch in Hok; [done|]. by exists g.
Qed.


End FreeDimensions.

(** ** Zip groups *)

Section CombinationExamples.

Local Open Scope Z_scope.

(** The six combinations of [corner], the first parameter varying
    slowest. *)
Example combinations_corner :
  combinations (new_pc Examples.corner) =
    Ok (map (fun p : Z * string => [("param_1", VInt p.1); ("param_2", VStr p.2)])
          [(1, "a"); (1, "b"); (2, "a"); (2, "b"); (3, "a"); (3, "b")]).
Proof. vm_compute. reflexivity. Qed.

(** The three combinations of [zip_corner] and the six of
    [zip_corner_free]. *)
Example combinations_zip_corner :
  combinations (new_pc Examples.zip_corner) =
    Ok (map (fun p : Z * string =>
               [("param_1", VInt p.1); ("param_2", VStr p.2);
                ("temperature", VInt 20)])
          [(1, "a"); (2, "b"); (3, "c")]) ∧
  combinations (new_pc Examples.zip_corner_free) =
    Ok (map (fun p : Z * string * string =>
               [("param_1", VInt p.1.1); ("param_2", VStr p.1.2);
                ("param_4", VStr p.2)])
          [(1, "a", "t"); (1, "a", "b"); (2, "b", "t"); (2, "b", "b");
           (3, "c", "t"); (3, "c", "b")]).
Proof. split; vm_compute; reflexivity. Qed.

End CombinationExamples.

(** ** The store and specification literals *)

Section Representation.

(** Induction on literals, with the hypothesis for the components of
    lists and mappings. *)
Lemma pyobj_nested_ind (P : pyobj → Prop) :
  P PNone → (∀ z, P (PInt z)) → (∀ s, P (PStr s)) →
  (∀ l, Forall P l → P (PList l)) →
  (∀ d, Forall (fun kv : string * pyobj => P kv.2) d → P (PDict d)) →
  ∀ o, P o.
Proof.
  intros HN HI HS HL HD.
  fix IH 1. intros [| z | s | l | d].
  - exact HN.
  - apply HI.
  - apply HS.
  - apply HL. induction l as [|x l IHl]; constructor; [apply IH | exact IHl].
  - apply HD. induction d as [|[k x] d IHd]; constructor; [apply IH | exact IHd].
Qed.

Lemma take_prefix {A} (n : nat) (h h' : list A) :
  h `prefix_of` h' → n ≤ length h → take n h' = take n h.
Proof.
  intros [t ->] Hn. by rewrite take_app_le.
Qed.

Lemma rep_mono (o : pyobj) :
  ∀ h h' v, rep h o v → h `prefix_of` h' → rep h' o v.
Proof.
  induction o as [| z | s | l IH | d IH] using pyobj_nested_ind;
    intros h h' v Hrep Hpre; inversion Hrep; subst; try constructor.
  - match goal with H : Forall2 _ _ _ |- _ => rename H into HF end.
    clear Hrep. revert IH. induction HF as [|x y l' vs' Hxy Hrest IHrest];
      intros IH; constructor; inversion IH; subst; eauto.
  - econstructor.
    + by eapply prefix_lookup_Some.
    + rewrite (take_prefix a h h') by
        (try done; apply Nat.lt_le_incl; by eapply lookup_lt_Some).
      done.
Qed.

Lemma load_rep (o : pyobj) :
  ∀ h v h', load o h = (v, h') → h `prefix_of` h' ∧ rep h' o v.
Proof.
  induction o as [| z | s | l IH | d IH] using pyobj_nested_ind;
    intros h v h' Hload; cbn [load] in Hload.
  - inversion Hload; subst. split; [done|constructor].
  - inversion Hload; subst. split; [done|constructor].
  - inversion Hload; subst. split; [done|constructor].
  - match type of Hload with
    | (let '(_, _) := ?go l h in _) = _ => set (GO := go) in *
    end.
    assert (Hgo : ∀ h vs h', GO l h = (vs, h') →
                    h `prefix_of` h' ∧ Forall2 (rep h') l vs).
    { clear Hload. induction IH as [|x l Hx _ IHl]; intros h0 vs h0' Hgo.
      - cbn in Hgo. inversion Hgo; subst. split; [done|constructor].
      - cbn in Hgo. destruct (load x h0) as [v1 h1] eqn:E1.
        fold GO in Hgo.
        destruct (GO l h1) as [vs2 h2] eqn:E2.
        inversion Hgo; subst.
        destruct (Hx _ _ _ E1) as [P1 R1].
        destruct (IHl _ _ _ E2) as [P2 R2].
        split; [by etrans|]. constructor; [|done].
        by eapply rep_mono. }
    destruct (GO l h) as [vs h1] eqn:E. inversion Hload; subst.
    destruct (Hgo _ _ _ E) as [P R]. split; [done|by constructor].
  - match type of Hload with
    | (let '(_, _) := ?go d h in _) = _ => set (GO := go) in *
    end.
    assert (Hgo : ∀ h kvs h', GO d h = (kvs, h') →
                    h `prefix_of` h' ∧
                    Forall2 (fun (x : string * pyobj) (y : string * value) =>
                               x.1 = y.1 ∧ rep h' x.2 y.2) d kvs).
    { clear Hload. induction IH as [|[k x] d Hx _ IHd]; intros h0 kvs h0' Hgo.
      - cbn in Hgo. inversion Hgo; subst. split; [done|constructor].
      - cbn in Hgo. destruct (load x h0) as [v1 h1] eqn:E1.
        fold GO in Hgo.
        destruct (GO d h1) as [kvs2 h2] eqn:E2.
        inversion Hgo; subst.
        destruct (Hx _ _ _ E1) as [P1 R1].
        destruct (IHd _ _ _ E2) as [P2 R2].
        split; [by etrans|]. constructor; [|done].
        split; [done|]. by eapply rep_mono. }
    destruct (GO d h) as [kvs h1] eqn:E. inversion Hload; subst.
    destruct (Hgo _ _ _ E) as [P R]. split.
    + etrans; [exact P|]. by apply prefix_app_r.
    + apply (rep_dict _ d (length h1) kvs).
      * by apply list_lookup_middle.
      * by rewrite take_app_length.
Qed.

End Representation.

Section Validity.

Lemma rep_is_dict h o v :
  rep h o v →
  Py.is_dict v = match o with PDict _ => true | _ => false end.
Proof. by inversion 1. Qed.

Lemma children_rep h (d : pdict) (kvs : dict) :
  Forall2 (fun (x : string * pyobj) (y : string * value) =>
             x.1 = y.1 ∧ rep h x.2 y.2) d kvs →
  Forall2 (fun c v => rep h (PDict c) v) (pdict_children d) (dict_children kvs).
Proof.
  unfold dict_children, Py.values.
  induction 1 as [|[k o] [k' v] d kvs [_ Hr] _ IH]; [constructor|].
  cbn [pdict_children flat_map map fst snd] in *. rewrite filter_cons.
  pose proof (rep_is_dict _ _ _ Hr) as Hd.
  destruct o; rewrite Hd; cbn; try done.
  by constructor.
Qed.

Lemma elem_of_pdict_children (d c : pdict) :
  c ∈ pdict_children d ↔ ∃ k, (k, PDict c) ∈ d.
Proof.
  unfold pdict_children. rewrite list_elem_of_In, in_flat_map. split.
  - intros ([k o] & Hin & Hc). exists k. cbn in Hc.
    destruct o; try done. destruct Hc as [->|[]].
    by apply list_elem_of_In.
  - intros [k Hin]. exists (k, PDict c). split; [by apply list_elem_of_In|].
    by left.
Qed.

Lemma dict_depth_child (d c : pdict) :
  c ∈ pdict_children d → S (dict_depth (PDict c)) ≤ dict_depth (PDict d).
Proof.
  intros [k Hin]%elem_of_pdict_children.
  cbn [dict_depth]. apply le_n_S.
  assert (Forall (fun n => n ≤ list_max (map (fun kv : string * pyobj =>
            dict_depth kv.2) d))
          (map (fun kv : string * pyobj => dict_depth kv.2) d)) as HF
    by (by apply list_max_le).
  rewrite Forall_forall in HF. apply HF.
  apply list_elem_of_fmap. by exists (k, PDict c).
Qed.

Lemma rep_items h (d : pdict) v :
  rep h (PDict d) v →
  ∃ kvs, St.items h v = Ok kvs ∧
         Forall2 (fun (x : string * pyobj) (y : string * value) =>
                    x.1 = y.1 ∧ rep h x.2 y.2) d kvs.
Proof.
  inversion 1 as [| | | |? a kvs Hl HF]; subst. exists kvs. split.
  - unfold St.items. cbn [St.deref]. by rewrite Hl.
  - eapply Forall2_impl; [exact HF|]. intros x y [? Hr]. split; [done|].
    eapply rep_mono; [exact Hr|]. apply prefix_take.
Qed.

Lemma truthy_rep h (c : pdict) v :
  rep h (PDict c) v → c ≠ [] → truthy h v = true.
Proof.
  intros (kvs & Hi & HF)%rep_items Hc. unfold truthy.
  unfold St.items in Hi. destruct (St.deref h v) as [kvs'|]; [|done].
  inversion Hi; subst. destruct HF; done.
Qed.

Lemma has_dict_value_rep h (c : pdict) v :
  rep h (PDict c) v →
  has_dict_value h v = negb (bool_decide (pdict_children c = [])).
Proof.
  intros (kvs & Hi & HF)%rep_items. unfold has_dict_value.
  unfold St.items in Hi. destruct (St.deref h v) as [kvs'|]; [|done].
  inversion Hi; subst. clear Hi.
  induction HF as [|[k o] [k' x] d kvs [_ Hr] _ IH]; [done|].
  cbn [Py.values map existsb snd pdict_children flat_map] in *.
  rewrite (rep_is_dict _ _ _ Hr). destruct o; cbn; try done.
Qed.

Lemma below_parallel_nests (c l : pdict) :
  below c l → parallel_level l → pdict_children c ≠ [].
Proof.
  destruct 1 as [d|d c0 l0 Hin _]; intros Hp.
  - destruct Hp as [Hlen _]. destruct (pdict_children d); [simpl in Hlen; lia|done].
  - intros E. rewrite E in Hin. by apply elem_of_nil in Hin.
Qed.

Lemma nesting_child_detected h (cs : list pdict) (vs : list value) (c : pdict) :
  Forall2 (fun c v => rep h (PDict c) v) cs vs →
  c ∈ cs → pdict_children c ≠ [] →
  existsb (truthy h) vs = true ∧ existsb (has_dict_value h) vs = true.
Proof.
  induction 1 as [|c' v cs vs Hr _ IH]; intros Hin Hc;
    [by apply elem_of_nil in Hin|].
  cbn [existsb]. apply elem_of_cons in Hin as [->|Hin].
  - rewrite (truthy_rep _ _ _ Hr), (has_dict_value_rep _ _ _ Hr).
    + rewrite bool_decide_eq_false_2 by done. done.
    + intros ->. done.
  - destruct (IH Hin Hc) as [-> ->]. by rewrite !orb_true_r.
Qed.

Lemma check_validity_loop_S fuel h outer_loop :
  check_validity_loop (S fuel) h outer_loop =
    (d ← St.items h outer_loop;
     let next_loop := dict_children d in
     if existsb (truthy h) next_loop then
       if (1 <? length next_loop) && existsb (has_dict_value h) next_loop
       then Raise (ValueError parallel_msg)
       else
         match next_loop with
         | first :: _ => check_validity_loop fuel h first
         | [] => Ok tt
         end
     else Ok tt).
Proof. done. Qed.

(** The validity loop started at a level with a parallel level below it
    raises. *)
Lemma check_validity_loop_parallel (d l : pdict) :
  below d l → parallel_level l →
  ∀ fuel h v,
    rep h (PDict d) v → dict_depth (PDict d) ≤ fuel →
    check_validity_loop fuel h v = Raise (ValueError parallel_msg).
Proof.
  induction 1 as [d|d c l Hin Hbelow IH]; intros Hpar fuel h v Hrep Hfuel.
  - destruct fuel as [|fuel]; [cbn in Hfuel; lia|].
    destruct (rep_items _ _ _ Hrep) as (kvs & Hi & HF).
    apply children_rep in HF.
    destruct Hpar as [Hlen (c & Hc & Hnest)].
    destruct (nesting_child_detected _ _ _ _ HF Hc Hnest) as [Ht Hd].
    rewrite check_validity_loop_S, Hi, result_bind_ok. cbv zeta.
    rewrite Ht, Hd, <- (Forall2_length _ _ _ HF).
    apply Nat.ltb_lt in Hlen. by rewrite Hlen.
  - destruct fuel as [|fuel]; [cbn in Hfuel; lia|].
    destruct (rep_items _ _ _ Hrep) as (kvs & Hi & HF).
    apply children_rep in HF.
    pose proof (below_parallel_nests _ _ Hbelow Hpar) as Hnest.
    destruct (nesting_child_detected _ _ _ _ HF Hin Hnest) as [Ht Hd].
    pose proof (dict_depth_child _ _ Hin) as Hdepth.
    rewrite check_validity_loop_S, Hi, result_bind_ok. cbv zeta.
    rewrite Ht, Hd, <- (Forall2_length _ _ _ HF).
    destruct (1 <? length (pdict_children d)) eqn:Hlen; [done|].
    apply Nat.ltb_ge in Hlen. cbn [andb].
    destruct HF as [|c' v' cs vs Hr HF']; [by apply elem_of_nil in Hin|].
    assert (cs = []) as -> by (destruct cs; [done|cbn in Hlen; lia]).
    apply list_elem_of_singleton in Hin as <-.
    apply IH; [done|done|lia].
Qed.

End Validity.

Section ParallelLoops.

Lemma get_rep h (d : pdict) (kvs : dict) (k : string) :
  Forall2 (fun (x : string * pyobj) (y : string * value) =>
             x.1 = y.1 ∧ rep h x.2 y.2) d kvs →
  match pget k d with
  | Some o => ∃ v, Py.get k kvs = Some v ∧ rep h o v
  | None => Py.get k kvs = None
  end.
Proof.
  induction 1 as [|[k1 o] [k2 v] d kvs [Hk Hr] _ IH]; [done|].
  cbn [pget Py.get fst snd] in *. subst k2.
  destruct (String.eqb k k1); [by exists v|done].
Qed.

Lemma pget_elem (d : pdict) (k : string) (o : pyobj) :
  pget k d = Some o → (k, o) ∈ d.
Proof.
  induction d as [|[k' o'] d IH]; [done|]. cbn [pget].
  destruct (String.eqb k k') eqn:E.
  - apply String.eqb_eq in E as ->. intros [= ->]. by left.
  - intros H. right. by apply IH.
Qed.

Lemma get_combinations_invalid fuel root h e :
  check_validity fuel h root = Raise e →
  get_combinations fuel root h = (Raise e, h).
Proof.
  intros H. unfold get_combinations.
  unfold mbind, M_bind, St.get_heap, St.lift. cbn. by rewrite H.
Qed.

Lemma check_validity_parallel (spec m l : pdict) root h :
  load (PDict spec) [] = (root, h) →
  pget "main" spec = Some (PDict m) → below m l → parallel_level l →
  check_validity (dict_depth (PDict spec)) h root =
    Raise (ValueError parallel_msg).
Proof.
  intros Hload Hmain Hbelow Hpar.
  destruct (load_rep _ _ _ _ Hload) as [_ Hrep].
  destruct (rep_items _ _ _ Hrep) as (kvs & Hi & HF).
  unfold check_validity. rewrite Hi, result_bind_ok.
  pose proof (get_rep _ _ _ "main" HF) as Hget. rewrite Hmain in Hget.
  destruct Hget as (v & -> & Hv).
  eapply check_validity_loop_parallel; [done..|].
  apply pget_elem in Hmain.
  assert (m ∈ pdict_children spec)
    by (apply elem_of_pdict_children; by exists "main").
  pose proof (dict_depth_child _ _ H). lia.
Qed.

End ParallelLoops.

(** ** Generation on an uneven zip level *)

Section Dicts.

Lemma set_elem_ne (k k1 : string) (v v1 : value) (d : dict) :
  (k1, v1) ∈ d → k ≠ k1 → (k1, v1) ∈ Py.set k v d.
Proof.
  intros Hin Hne. induction d as [|[k' v'] d IH]; [by apply elem_of_nil in Hin|].
  cbn [Py.set]. destruct (String.eqb k k') eqn:E.
  - apply String.eqb_eq in E as <-.
    apply elem_of_cons in Hin as [[= ? ?]|Hin]; [done|]. by right.
  - apply elem_of_cons in Hin as [[= <- <-]|Hin]; [by left|].
    right. by apply IH.
Qed.

Lemma set_elem (k : string) (v : value) (d : dict) : (k, v) ∈ Py.set k v d.
Proof.
  induction d as [|[k' v'] d IH]; cbn [Py.set]; [by left|].
  destruct (String.eqb k k') eqn:E.
  - apply String.eqb_eq in E as <-. by left.
  - by right.
Qed.

Lemma keys_set (k : string) (v : value) (d : dict) :
  Py.keys (Py.set k v d) =
    if bool_decide (k ∈ Py.keys d) then Py.keys d else Py.keys d ++ [k].
Proof.
  unfold Py.keys. induction d as [|[k' v'] d IH]; [done|].
  cbn [Py.set map fst]. destruct (String.eqb k k') eqn:E.
  - apply String.eqb_eq in E as <-.
    rewrite bool_decide_eq_true_2 by left. done.
  - apply String.eqb_neq in E. cbn [map fst]. rewrite IH.
    destruct (bool_decide (k ∈ map fst d)) eqn:B.
    + apply bool_decide_eq_true in B.
      rewrite bool_decide_eq_true_2 by (by right). done.
    + apply bool_decide_eq_false in B.
      rewrite bool_decide_eq_false_2; [done|].
      by intros [?|?]%elem_of_cons.
Qed.

Lemma NoDup_keys_set (k : string) (v : value) (d : dict) :
  NoDup (Py.keys d) → NoDup (Py.keys (Py.set k v d)).
Proof.
  intros H. rewrite keys_set. destruct (bool_decide _) eqn:B; [done|].
  apply bool_decide_eq_false in B. apply NoDup_app. split; [done|].
  split; [|apply NoDup_singleton].
  intros x Hx ->%list_elem_of_singleton. done.
Qed.

Lemma remove_elem_ne (k k1 : string) (v1 : value) (d : dict) :
  (k1, v1) ∈ d → k ≠ k1 → (k1, v1) ∈ Py.remove k d.
Proof.
  intros Hin Hne. induction d as [|[k' v'] d IH]; [done|].
  cbn [Py.remove]. destruct (String.eqb k k') eqn:E.
  - apply String.eqb_eq in E as <-.
    apply elem_of_cons in Hin as [[= ? ?]|Hin]; done.
  - apply elem_of_cons in Hin as [[= <- <-]|Hin]; [by left|].
    right. by apply IH.
Qed.

Lemma remove_subseteq (k : string) (d : dict) : Py.remove k d ⊆ d.
Proof.
  induction d as [|[k' v'] d IH]; [done|]. cbn [Py.remove].
  destruct (String.eqb k k').
  - by apply list_subseteq_cons.
  - intros x [->|Hx]%elem_of_cons; [by left|]. right. by apply IH.
Qed.

Lemma NoDup_keys_remove (k : string) (d : dict) :
  NoDup (Py.keys d) → NoDup (Py.keys (Py.remove k d)).
Proof.
  unfold Py.keys. induction d as [|[k' v'] d IH]; [done|].
  cbn [Py.remove map fst]. intros [Hnin Hnd]%NoDup_cons.
  destruct (String.eqb k k'); [done|].
  cbn [map fst]. apply NoDup_cons. split; [|by apply IH].
  intros Hin. apply Hnin.
  apply list_elem_of_fmap in Hin as ([k2 v2] & -> & Hin).
  apply list_elem_of_fmap. exists (k2, v2). split; [done|].
  by apply (remove_subseteq k).
Qed.

Lemma pop_snd (k : string) (default : value) (d : dict) :
  (Py.pop k default d).2 = Py.remove k d.
Proof.
  unfold Py.pop. destruct (Py.get k d) eqn:E; [done|]. cbn.
  induction d as [|[k' v'] d IH]; [done|].
  cbn [Py.get Py.remove] in *. destruct (String.eqb k k'); [done|].
  by rewrite <- IH.
Qed.

Lemma update_preserve (d e : dict) (k : string) (v : value) :
  (k, v) ∈ d → k ∉ Py.keys e → (k, v) ∈ Py.update d e.
Proof.
  unfold Py.update, Py.keys. revert d.
  induction e as [|[k' v'] e IH]; intros d Hin Hk; [done|].
  cbn [fold_left fst snd map] in *. apply IH.
  - apply set_elem_ne; [done|]. intros ->. apply Hk. by left.
  - intros H. apply Hk. by right.
Qed.

Lemma update_elem (d e : dict) (k : string) (v : value) :
  NoDup (Py.keys e) → (k, v) ∈ e → (k, v) ∈ Py.update d e.
Proof.
  unfold Py.keys. revert d.
  induction e as [|[k' v'] e IH]; intros d Hnd Hin;
    [by apply elem_of_nil in Hin|].
  cbn [map fst] in Hnd. apply NoDup_cons in Hnd as [Hnin Hnd].
  apply elem_of_cons in Hin as [[= <- <-]|Hin].
  - change (Py.update d ((k, v) :: e)) with (Py.update (Py.set k v d) e).
    apply update_preserve; [apply set_elem|done].
  - change (Py.update d ((k', v') :: e)) with (Py.update (Py.set k' v' d) e).
    by apply IH.
Qed.

End Dicts.

Section Outcomes.

Lemma bind_fuel {A B} (r : result A) (f : A → result B) :
  r ≠ NoFuel → (∀ a, f a ≠ NoFuel) → (r ≫= f) ≠ NoFuel.
Proof. destruct r; cbn; auto. Qed.

Lemma fmap_fuel {A B} (r : result A) (f : A → B) :
  r ≠ NoFuel → (f <$> r) ≠ NoFuel.
Proof. destruct r; cbn; auto. Qed.

Lemma mapM_fuel {A B} (f : A → result B) (l : list A) :
  (∀ x, f x ≠ NoFuel) → mapM f l ≠ NoFuel.
Proof.
  intros H. induction l as [|x l IH]; [done|].
  cbn. apply bind_fuel; [done|]. intros y.
  apply bind_fuel; [done|]. done.
Qed.

Lemma mapM_raises {A B} (f : A → result B) (l : list A) (x : A) :
  (∀ y, f y ≠ NoFuel) → x ∈ l → Res.is_raise (f x) = true →
  Res.is_raise (mapM f l) = true.
Proof.
  intros Hf Hin Hx. induction l as [|y l IH]; [by apply elem_of_nil in Hin|].
  cbn. apply elem_of_cons in Hin as [<-|Hin].
  - destruct (f x); done.
  - specialize (IH Hin). pose proof (Hf y).
    destruct (f y); [|done|done]. cbn. destruct (mapM f l); done.
Qed.

Lemma get_zip_index_fuel pc g : get_zip_index pc g ≠ NoFuel.
Proof. rewrite get_zip_index_eq. by destruct (Np.broadcastable _). Qed.

Lemma combinations_fuel pc : combinations pc ≠ NoFuel.
Proof.
  unfold combinations. apply bind_fuel.
  - apply fmap_fuel. unfold combination_index. apply bind_fuel; [|done].
    apply mapM_fuel, get_zip_index_fuel.
  - intros m. unfold Np.bool_index. by destruct (_ =? _).
Qed.

Lemma getitem_fuel d k : getitem d k ≠ NoFuel.
Proof. unfold getitem. by destruct (Py.get k d). Qed.

Lemma _get_indexed_combinations_fuel pc i t :
  _get_indexed_combinations pc i t ≠ NoFuel.
Proof.
  unfold _get_indexed_combinations. apply bind_fuel; [apply combinations_fuel|].
  intros cs. apply mapM_fuel. intros [n c]. destruct t; [|done].
  apply bind_fuel; [|done]. apply mapM_fuel. intros. apply getitem_fuel.
Qed.

Lemma boundary_events_fuel outer entry : boundary_events outer entry ≠ NoFuel.
Proof.
  destruct entry as [i [s t]]. unfold boundary_events.
  destruct (i =? 0); [done|].
  apply bind_fuel; [apply getitem_fuel|]. intros a.
  destruct (Py.eq_zero a); [|done].
  apply bind_fuel; [apply getitem_fuel|]. intros b.
  by destruct (negb _).
Qed.

Lemma items_fuel h v : St.items h v ≠ NoFuel.
Proof. unfold St.items. by destruct (St.deref h v). Qed.

Lemma test_events_fuel h sk outer entry : test_events h sk outer entry ≠ NoFuel.
Proof.
  destruct entry as [i p]. unfold test_events.
  apply bind_fuel; [apply items_fuel|]. intros d.
  destruct (Py.pop "setup" VNone d) as [s d1].
  destruct (Py.pop "teardown" VNone d1) as [t d2].
  destruct (Py.pop "yield" (yield_values sk) d2) as [y d3].
  apply bind_fuel; [apply _get_indexed_combinations_fuel|]. done.
Qed.

End Outcomes.

Section NonEmpty.

Lemma product_nonempty {A} (vals : list (list A)) :
  Py.product vals ≠ [] ↔ Forall (fun v => v ≠ []) vals.
Proof.
  induction vals as [|v vs IH]; cbn [Py.product].
  - split; [constructor|done].
  - split.
    + intros H. constructor.
      * intros ->. done.
      * apply IH. intros E. rewrite E in H. apply H.
        clear. induction v; done.
    + intros HF. inversion HF as [|? ? Hv Hvs]; subst.
      apply IH in Hvs. destruct v as [|x v]; [done|].
      destruct (Py.product vs) as [|p ps]; [done|]. done.
Qed.

Lemma selected_zeros (ix : list Np.slicer) (n : nat) (t : option nat) :
  (t = None ∨ t = Some 0) → Np.selected ix (repeat 0 n) t = true.
Proof.
  revert n t. induction ix as [|[|m] ix IH]; intros n t Ht; [done| |].
  - destruct n; [done|]. cbn. by apply IH.
  - destruct n; [done|]. cbn. destruct Ht as [->| ->].
    + apply IH. by right.
    + cbn. apply IH. by right.
Qed.

Lemma zeros_in_indices (shp : list nat) :
  Forall (fun n => 0 < n) shp → repeat 0 (length shp) ∈ Np.indices shp.
Proof.
  intros H. apply elem_of_indices. induction H; constructor; done.
Qed.

Lemma shape_positive (ps : dict) : Forall (fun n => 0 < n) (shape (new_pc ps)).
Proof.
  unfold new_pc. cbn [shape]. apply Forall_forall. intros n Hn.
  apply list_elem_of_filter in Hn as [Hn _].
  apply Is_true_true, Nat.ltb_lt in Hn. lia.
Qed.

Lemma combinations_nonempty (ps : dict) (cs : list dict) :
  combinations (new_pc ps) = Ok cs → cs ≠ [].
Proof.
  intros Hok.
  pose proof (combinations_ok_broadcastable ps cs Hok) as Hb.
  assert (Hne : Forall (fun kv : string * value => as_list kv.2 ≠ []) ps).
  { unfold combinations in Hok.
    rewrite combination_index_flat in Hok by done.
    rewrite result_bind_ok in Hok. unfold Np.bool_index in Hok.
    destruct (_ =? _) eqn:E; [|done]. apply Nat.eqb_eq in E.
    rewrite length_map, length_indices in E.
    unfold all_combinations in E. rewrite length_map in E.
    assert (Py.product (values (new_pc ps)) ≠ []) as Hp.
    { intros Hp. rewrite Hp in E.
      pose proof (zeros_in_indices _ (shape_positive ps)) as Hz.
      rewrite <- length_indices in E.
      destruct (Np.indices (shape (new_pc ps)));
        [by apply elem_of_nil in Hz|]. discriminate E. }
    apply product_nonempty in Hp. rewrite values_new_pc in Hp.
    apply Forall_forall. intros kv Hkv. rewrite Forall_forall in Hp.
    apply Hp, list_elem_of_fmap. by exists kv. }
  rewrite combinations_valid in Hok by done. inversion Hok as [Hcs].
  intros E. apply (f_equal length) in E. rewrite length_map in E.
  assert (repeat 0 (length (shape (new_pc ps))) ∈
          filter (fun idx => valid_index (new_pc ps) idx)
            (Np.indices (shape (new_pc ps)))) as Hin.
  { apply list_elem_of_filter. split.
    - apply Is_true_true. unfold valid_index. apply forallb_forall.
      intros g _. apply selected_zeros. by left.
    - apply zeros_in_indices, shape_positive. }
  destruct (filter _ _); [by apply elem_of_nil in Hin|done].
Qed.

Lemma mapM_length {A B} (f : A → result B) (l : list A) (r : list B) :
  mapM f l = Ok r → length r = length l.
Proof.
  revert r. induction l as [|x l IH]; intros r; cbn.
  - by intros [= <-].
  - destruct (f x); cbn; [|done|done].
    destruct (mapM f l) eqn:E; cbn; [|done|done].
    intros [= <-]. cbn. by rewrite (IH _ eq_refl).
Qed.

Lemma _get_indexed_combinations_nonempty (ps : dict) i t (c : list dict) :
  _get_indexed_combinations (new_pc ps) i t = Ok c → c ≠ [].
Proof.
  unfold _get_indexed_combinations.
  destruct (combinations (new_pc ps)) as [cs| |] eqn:E; [|done|done].
  rewrite result_bind_ok. intros H%mapM_length.
  apply combinations_nonempty in E.
  unfold enumerate in H. rewrite length_combine, length_seq in H.
  destruct c; [|done]. destruct cs; [done|]. cbn in H. lia.
Qed.

End NonEmpty.

Section Generation.

Lemma uneven_pair_set (k : string) (v : value) (d : dict) :
  get_zip_group k = None → uneven_pair d → uneven_pair (Py.set k v d).
Proof.
  intros Hk [Hnd (g & k1 & k2 & v1 & v2 & Hg & H1 & H2 & G1 & G2 & Hrest)].
  split; [by apply NoDup_keys_set|].
  exists g, k1, k2, v1, v2. repeat split; try tauto.
  - apply set_elem_ne; [done|congruence].
  - apply set_elem_ne; [done|congruence].
Qed.

Lemma uneven_pair_remove (k : string) (d : dict) :
  get_zip_group k = None → uneven_pair d → uneven_pair (Py.remove k d).
Proof.
  intros Hk [Hnd (g & k1 & k2 & v1 & v2 & Hg & H1 & H2 & G1 & G2 & Hrest)].
  split; [by apply NoDup_keys_remove|].
  exists g, k1, k2, v1, v2. repeat split; try tauto.
  - apply remove_elem_ne; [done|congruence].
  - apply remove_elem_ne; [done|congruence].
Qed.

Lemma uneven_pair_pop (k : string) (default : value) (d : dict) :
  get_zip_group k = None → uneven_pair d →
  uneven_pair (Py.pop k default d).2.
Proof. rewrite pop_snd. apply uneven_pair_remove. Qed.

Lemma combinations_uneven_pair (outer d : dict) :
  uneven_pair d →
  combinations (new_pc (Py.update outer d)) = Raise (ValueError mismatch_msg).
Proof.
  intros [Hnd (g & k1 & k2 & v1 & v2 & Hg & H1 & H2 & G1 & G2 & L1 & L2 & Hne)].
  eapply (combinations_uneven _ g k1 k2 v1 v2); try done;
    by apply update_elem.
Qed.

Lemma test_events_uneven h sk outer i p d :
  St.items h p = Ok d → uneven_pair d →
  test_events h sk outer (i, p) = Raise (ValueError mismatch_msg).
Proof.
  intros Hi Hp. unfold test_events. rewrite Hi, result_bind_ok.
  pose proof (uneven_pair_pop "setup" VNone d eq_refl Hp) as H1.
  destruct (Py.pop "setup" VNone d) as [s d1]. cbn [snd] in H1.
  pose proof (uneven_pair_pop "teardown" VNone d1 eq_refl H1) as H2.
  destruct (Py.pop "teardown" VNone d1) as [t d2]. cbn [snd] in H2.
  pose proof (uneven_pair_pop "yield" (yield_values sk) d2 eq_refl H2) as H3.
  destruct (Py.pop "yield" (yield_values sk) d2) as [y d3]. cbn [snd] in H3.
  unfold _get_indexed_combinations.
  by rewrite (combinations_uneven_pair outer d3 H3).
Qed.

Lemma enumerate_elem {A} (l : list A) (x : A) :
  x ∈ l → ∃ i, (i, x) ∈ enumerate l.
Proof.
  unfold enumerate. generalize 0 as s.
  induction l as [|y l IH]; intros s Hin; [by apply elem_of_nil in Hin|].
  cbn [length seq combine]. apply elem_of_cons in Hin as [->|Hin].
  - exists s. by left.
  - destruct (IH (S s) Hin) as [i Hi]. exists i. by right.
Qed.

Lemma generate_uneven h sk a :
  VRef a ∈ tests sk → holds_uneven_pair a h →
  Forall (fun c => c ≠ []) (outer_combinations sk) →
  Res.is_raise (generate h sk) = true.
Proof.
  intros Hin (d & Hd & Hpair) Hne. unfold generate.
  apply product_nonempty in Hne.
  destruct (Py.product (outer_combinations sk)) as [|tuple tuples]; [done|].
  assert (Res.is_raise (tuple_events h sk tuple) = true) as Ht.
  { unfold tuple_events.
    destruct (mapM (boundary_events _) _) as [b| |] eqn:Eb; [|done|].
    - rewrite result_bind_ok.
      destruct (enumerate_elem _ _ Hin) as [i Hi].
      assert (Res.is_raise
                (mapM (test_events h sk (fold_left Py.update tuple []))
                      (enumerate (tests sk))) = true) as Hm.
      { eapply mapM_raises; [intros; apply test_events_fuel|exact Hi|].
        erewrite test_events_uneven; [done| |exact Hpair].
        unfold St.items. cbn [St.deref]. by rewrite Hd. }
      destruct (mapM (test_events _ _ _) _); done.
    - exfalso. revert Eb. apply mapM_fuel. intros. apply boundary_events_fuel. }
  cbn. destruct (tuple_events h sk tuple); done.
Qed.

End Generation.

(** ** Computations on the store *)

Lemma M_bind_eq {A B} (m : M A) (f : A → M B) (h : heap) :
  (m ≫= f) h =
    match m h with
    | (Ok a, h') => f a h'
    | (Raise e, h') => (Raise e, h')
    | (NoFuel, h') => (NoFuel, h')
    end.
Proof. done. Qed.

Lemma pop_ref (a : nat) (k : string) (default : value) (d : dict) (h : heap) :
  h !! a = Some d →
  St.pop (VRef a) k default h =
    (Ok ((Py.pop k default d).1, VRef a), <[a := Py.remove k d]> h).
Proof.
  intros H. unfold St.pop. rewrite H, <- (pop_snd k default d).
  by destruct (Py.pop k default d).
Qed.

Section Frame.

(** An invariant of the store that survives assigning to and removing
    keys without zip modifier, the only changes the engine makes. *)
Variable I : heap → Prop.

Hypothesis I_set : ∀ h a d k v,
  I h → h !! a = Some d → get_zip_group k = None →
  I (<[a := Py.set k v d]> h).

Hypothesis I_remove : ∀ h a d k,
  I h → h !! a = Some d → get_zip_group k = None →
  I (<[a := Py.remove k d]> h).

Local Abbreviation keeps := (keeps I).

Lemma keeps_ret {A} (x : A) : keeps (mret x).
Proof. intros h H. done. Qed.

Lemma keeps_bind {A B} (m : M A) (f : A → M B) :
  keeps m → (∀ x, keeps (f x)) → keeps (m ≫= f).
Proof.
  intros Hm Hf h H. rewrite M_bind_eq.
  destruct (Hm h H) as [Hfuel Hh]. destruct (m h) as [[x|e|] h']; cbn in *.
  - by apply Hf.
  - done.
  - done.
Qed.

Lemma keeps_lift {A} (r : result A) : r ≠ NoFuel → keeps (St.lift r).
Proof. intros Hr h H. done. Qed.

Lemma keeps_raise {A} (e : exn) : keeps (@St.raise A e).
Proof. intros h H. done. Qed.

Lemma keeps_get_heap : keeps St.get_heap.
Proof. intros h H. done. Qed.

Lemma keeps_pop (obj : value) (k : string) (default : value) :
  get_zip_group k = None → keeps (St.pop obj k default).
Proof.
  intros Hk h H. unfold St.pop.
  destruct obj as [| | | |d|a']; try done.
  - by destruct (Py.pop k default d).
  - destruct (h !! a') as [d|] eqn:E; [|done].
    pose proof (pop_snd k default d) as Hs.
    destruct (Py.pop k default d) as [v d']. cbn in *. subst d'.
    split; [done|]. by apply I_remove.
Qed.

Lemma keeps_setitem (obj : value) (k : string) (v : value) :
  get_zip_group k = None → keeps (St.setitem obj k v).
Proof.
  intros Hk h H. unfold St.setitem.
  destruct obj as [| | | |d|a']; try done.
  destruct (h !! a') as [d|] eqn:E; [|done].
  split; [done|]. by apply I_set.
Qed.

Lemma keeps_except {A} (body : M A) (e : exn) :
  keeps body → keeps (St.except_type_key body e).
Proof.
  intros Hb h H. unfold St.except_type_key.
  destruct (Hb h H) as [Hfuel Hh].
  destruct (body h) as [[x|[]|] h']; done.
Qed.

Lemma lookup_template_fuel h ps v : lookup_template h ps v ≠ NoFuel.
Proof.
  unfold lookup_template. destruct (St.deref h ps); [|done].
  destruct v; try done. apply getitem_fuel.
Qed.

Lemma keeps_fill_entry (ps v : value) : keeps (fill_entry ps v).
Proof.
  unfold fill_entry. destruct v; try apply keeps_ret;
    (apply keeps_except;
     apply keeps_bind; [apply keeps_get_heap|]; intros h0;
     apply keeps_bind; [apply keeps_lift, lookup_template_fuel|]; intros p;
     apply keeps_bind; [by apply keeps_pop|]; intros [? p1];
     apply keeps_bind; [by apply keeps_pop|]; intros [? p2];
     apply keeps_bind; [apply keeps_get_heap|]; intros h1;
     apply keeps_bind; [apply keeps_lift, items_fuel|]; intros items;
     apply keeps_bind; [apply keeps_lift, combinations_fuel|]; intros c;
     apply keeps_ret).
Qed.

Lemma keeps_fill_entries (ps : value) (vs : list value) :
  keeps (fill_entries ps vs).
Proof.
  induction vs as [|v vs IH]; cbn [fill_entries]; [apply keeps_ret|].
  apply keeps_bind; [apply keeps_fill_entry|]. intros x.
  apply keeps_bind; [apply IH|]. intros xs. apply keeps_ret.
Qed.

Lemma flatten_fuel h v : flatten_multidimensional_list h v ≠ NoFuel.
Proof.
  unfold flatten_multidimensional_list. destruct v as [| | | | |a']; try done.
  by destruct (h !! a').
Qed.

Lemma keeps_fill_template (ps vs : value) : keeps (fill_template ps vs).
Proof.
  unfold fill_template. destruct vs; try apply keeps_ret;
    (apply keeps_bind; [apply keeps_get_heap|]; intros h0;
     apply keeps_bind; [apply keeps_lift, flatten_fuel|]; intros flat;
     apply keeps_fill_entries).
Qed.

Lemma get_or_none_fuel h obj k : get_or_none h obj k ≠ NoFuel.
Proof. unfold get_or_none. apply bind_fuel; [apply items_fuel|done]. Qed.

Lemma keeps_resolve_test (ps test : value) : keeps (resolve_test ps test).
Proof.
  unfold resolve_test.
  apply keeps_bind; [apply keeps_get_heap|]; intros h0.
  apply keeps_bind; [apply keeps_lift, get_or_none_fuel|]; intros s.
  apply keeps_bind; [apply keeps_fill_template|]; intros s'.
  apply keeps_bind; [by apply keeps_setitem|]; intros test'.
  apply keeps_bind; [apply keeps_get_heap|]; intros h1.
  apply keeps_bind; [apply keeps_lift, get_or_none_fuel|]; intros t.
  apply keeps_bind; [apply keeps_fill_template|]; intros t'.
  by apply keeps_setitem.
Qed.

Lemma keeps_resolve_tests (ps : value) (ts : list value) :
  keeps (resolve_tests ps ts).
Proof.
  induction ts as [|t ts IH]; cbn [resolve_tests]; [apply keeps_ret|].
  apply keeps_bind; [apply keeps_resolve_test|]. intros x.
  apply keeps_bind; [apply IH|]. intros xs. apply keeps_ret.
Qed.

End Frame.

Lemma holds_insert (a : nat) (h : heap) (a' : nat) (d0 d' : dict) :
  holds_uneven_pair a h → h !! a' = Some d0 →
  (uneven_pair d0 → uneven_pair d') →
  holds_uneven_pair a (<[a' := d']> h).
Proof.
  intros (d & Hd & Hp) Ha' Himp. destruct (decide (a' = a)) as [->|Hne].
  - exists d'. split.
    + apply list_lookup_insert_eq. by eapply lookup_lt_Some.
    + apply Himp. congruence.
  - exists d. split; [|done]. by rewrite list_lookup_insert_ne.
Qed.

Lemma holds_uneven_pair_set (a : nat) h a' d k v :
  holds_uneven_pair a h → h !! a' = Some d → get_zip_group k = None →
  holds_uneven_pair a (<[a' := Py.set k v d]> h).
Proof.
  intros H Hl Hk. eapply holds_insert; [done..|]. by apply uneven_pair_set.
Qed.

Lemma holds_uneven_pair_remove (a : nat) h a' d k :
  holds_uneven_pair a h → h !! a' = Some d → get_zip_group k = None →
  holds_uneven_pair a (<[a' := Py.remove k d]> h).
Proof.
  intros H Hl Hk. eapply holds_insert; [done..|]. by apply uneven_pair_remove.
Qed.

(** ** Extraction on an uneven zip level *)

Section Levels.

Lemma premove_rep {R : pyobj → value → Prop} (k : string) (d : pdict) (kvs : dict) :
  Forall2 (fun (x : string * pyobj) (y : string * value) =>
             x.1 = y.1 ∧ R x.2 y.2) d kvs →
  Forall2 (fun (x : string * pyobj) (y : string * value) =>
             x.1 = y.1 ∧ R x.2 y.2) (premove k d) (Py.remove k kvs).
Proof.
  induction 1 as [|[k1 o] [k2 v] d kvs [Hk Hr] HF IH]; [constructor|].
  cbn [premove Py.remove fst snd] in *. subst k2.
  destruct (String.eqb k k1); [done|]. by constructor.
Qed.

Lemma premove_subseteq (k : string) (d : pdict) : premove k d ⊆ d.
Proof.
  induction d as [|[k' v'] d IH]; [done|]. cbn [premove].
  destruct (String.eqb k k').
  - by apply list_subseteq_cons.
  - intros x [->|Hx]%elem_of_cons; [by left|]. right. by apply IH.
Qed.

Lemma premove_elem_ne (k k1 : string) (o : pyobj) (d : pdict) :
  (k1, o) ∈ d → k ≠ k1 → (k1, o) ∈ premove k d.
Proof.
  intros Hin Hne. induction d as [|[k' v'] d IH]; [done|].
  cbn [premove]. destruct (String.eqb k k') eqn:E.
  - apply String.eqb_eq in E as <-.
    apply elem_of_cons in Hin as [[= ? ?]|Hin]; done.
  - apply elem_of_cons in Hin as [[= <- <-]|Hin]; [by left|].
    right. by apply IH.
Qed.

Lemma level_body_subseteq (d : pdict) : level_body d ⊆ d.
Proof.
  unfold level_body. etrans; [apply premove_subseteq|].
  etrans; apply premove_subseteq.
Qed.

Lemma level_body_elem (d : pdict) (k : string) (o : pyobj) :
  (k, o) ∈ d → is_Some (get_zip_group k) → (k, o) ∈ level_body d.
Proof.
  intros Hin [g Hg]. unfold level_body.
  repeat apply premove_elem_ne; try done; intros <-; done.
Qed.

Lemma pdict_children_subseteq (d d' : pdict) :
  d ⊆ d' → pdict_children d ⊆ pdict_children d'.
Proof.
  intros Hsub c [k Hc]%elem_of_pdict_children.
  apply elem_of_pdict_children. exists k. by apply Hsub.
Qed.

Lemma elem_rep {R : pyobj → value → Prop} (d : pdict) (kvs : dict)
  (k : string) (o : pyobj) :
  Forall2 (fun (x : string * pyobj) (y : string * value) =>
             x.1 = y.1 ∧ R x.2 y.2) d kvs →
  (k, o) ∈ d → ∃ v, (k, v) ∈ kvs ∧ R o v.
Proof.
  induction 1 as [|[k1 o1] [k2 v] d kvs [Hk Hr] HF IH];
    intros Hin; [by apply elem_of_nil in Hin|].
  cbn [fst snd] in *. subst k2.
  apply elem_of_cons in Hin as [[= -> ->]|Hin].
  - exists v. split; [by left|done].
  - destruct (IH Hin) as (v' & Hv' & Hr'). exists v'. split; [by right|done].
Qed.

Lemma keys_rep {R : pyobj → value → Prop} (d : pdict) (kvs : dict) :
  Forall2 (fun (x : string * pyobj) (y : string * value) =>
             x.1 = y.1 ∧ R x.2 y.2) d kvs →
  Py.keys kvs = map fst d.
Proof.
  unfold Py.keys. induction 1 as [|[k1 o1] [k2 v] d kvs [Hk Hr] HF IH];
    [done|]. cbn [map fst snd] in *. by rewrite IH, Hk.
Qed.

Lemma rep_list_length h (l : list pyobj) (v : value) :
  rep h (PList l) v → length (as_list v) = length l ∧ Py.is_dict v = false.
Proof.
  inversion 1 as [| | |? vs HF|]; subst. cbn. split; [|done].
  symmetry. by eapply Forall2_length.
Qed.

(** The uneven pair of a level of the literal is found among the entries
    of its object. *)
Lemma uneven_entries h (l : pdict) (kvs : dict) :
  Forall2 (fun (x : string * pyobj) (y : string * value) =>
             x.1 = y.1 ∧ rep h x.2 y.2) (level_body l) kvs →
  uneven_zip_level l →
  ∃ g k1 k2 v1 v2,
    g ≠ "" ∧ (k1, v1) ∈ kvs ∧ (k2, v2) ∈ kvs ∧
    Py.is_dict v1 = false ∧ Py.is_dict v2 = false ∧
    get_zip_group k1 = Some g ∧ get_zip_group k2 = Some g ∧
    1 < length (as_list v1) ∧ 1 < length (as_list v2) ∧
    length (as_list v1) ≠ length (as_list v2).
Proof.
  intros HF [_ (g & k1 & k2 & l1 & l2 & Hg & H1 & H2 & G1 & G2 & L1 & L2 & Hne)].
  apply level_body_elem in H1; [|by eexists].
  apply level_body_elem in H2; [|by eexists].
  destruct (elem_rep _ _ _ _ HF H1) as (v1 & Hv1 & [R1 D1]%rep_list_length).
  destruct (elem_rep _ _ _ _ HF H2) as (v2 & Hv2 & [R2 D2]%rep_list_length).
  exists g, k1, k2, v1, v2. rewrite R1, R2. done.
Qed.

Lemma rep_uneven h (t : pdict) (v : value) :
  rep h (PDict t) v → uneven_zip_level t →
  ∃ a, v = VRef a ∧ holds_uneven_pair a h.
Proof.
  intros Hrep Hun. pose proof Hrep as Hrep'.
  inversion Hrep as [| | | |? a kvs Hl HF0]; subst. exists a. split; [done|].
  exists kvs. split; [done|].
  destruct Hun as [Hnd (g & k1 & k2 & l1 & l2 & Hg & H1 & H2 & G1 & G2 & L1 & L2 & Hne)].
  split; [by rewrite (keys_rep _ _ HF0)|].
  destruct (elem_rep _ _ _ _ HF0 H1) as (v1 & Hv1 & [R1 D1]%rep_list_length).
  destruct (elem_rep _ _ _ _ HF0 H2) as (v2 & Hv2 & [R2 D2]%rep_list_length).
  exists g, k1, k2, v1, v2. rewrite R1, R2. done.
Qed.

End Levels.

Section Extraction.

Lemma lift_bind_eq {A B} (r : result A) (f : A → M B) (h : heap) :
  (St.lift r ≫= f) h =
    match r with
    | Ok a => f a h
    | Raise e => (Raise e, h)
    | NoFuel => (NoFuel, h)
    end.
Proof. by destruct r. Qed.

Lemma get_heap_bind_eq {B} (f : heap → M B) (h : heap) :
  (St.get_heap ≫= f) h = f h h.
Proof. done. Qed.

Lemma resolve_test_handle (ps : value) (a : nat) (h : heap) t' h' :
  resolve_test ps (VRef a) h = (Ok t', h') → t' = VRef a.
Proof.
  unfold resolve_test. rewrite get_heap_bind_eq, lift_bind_eq.
  destruct (get_or_none h (VRef a) "setup") as [s| |]; [|done|done].
  rewrite M_bind_eq.
  destruct (fill_template ps s h) as [[s'|e|] h1]; [|done|done].
  rewrite M_bind_eq. unfold St.setitem at 1.
  destruct (h1 !! a) as [d|]; [|done].
  rewrite get_heap_bind_eq, lift_bind_eq.
  destruct (get_or_none _ (VRef a) "teardown") as [t| |]; [|done|done].
  rewrite M_bind_eq.
  destruct (fill_template ps t _) as [[t''|e|] h2]; [|done|done].
  unfold St.setitem. destruct (h2 !! a); [|done]. by intros [= <- _].
Qed.

Lemma resolve_tests_handles (ps : value) (ts : list value) :
  Forall (fun t => ∃ a, t = VRef a) ts →
  ∀ h ts' h', resolve_tests ps ts h = (Ok ts', h') → ts' = ts.
Proof.
  induction 1 as [|t ts [a ->] _ IH]; intros h ts' h'; cbn [resolve_tests].
  - by intros [= <- _].
  - rewrite M_bind_eq.
    destruct (resolve_test ps (VRef a) h) as [[t'|e|] h1] eqn:E1; [|done|done].
    apply resolve_test_handle in E1 as ->.
    rewrite M_bind_eq.
    destruct (resolve_tests ps ts h1) as [[ts1|e|] h2] eqn:E2; [|done|done].
    apply IH in E2 as ->. by intros [= <- _].
Qed.

(** The first steps of an iteration of [extract_loop] on a level held
    by the store: the three keys are popped from the level's own object,
    whose remaining entries still stand for the literal's. *)
Ltac enter_level :=
  match goal with
  | Hrep : rep ?h (PDict ?d) ?v |- _ =>
    inversion Hrep as [| | | |? a kvs Hl HF0]; subst;
    assert (Ha : a < length h) by (by eapply lookup_lt_Some);
    cbn [extract_loop];
    rewrite M_bind_eq, (pop_ref _ _ _ _ _ Hl);
    rewrite M_bind_eq, (pop_ref _ _ _ (Py.remove "setup" kvs));
      try (by rewrite list_lookup_insert_eq);
    rewrite list_insert_insert_eq;
    rewrite M_bind_eq, (pop_ref _ _ _ (Py.remove "teardown" (Py.remove "setup" kvs)));
      try (by rewrite list_lookup_insert_eq);
    rewrite list_insert_insert_eq;
    set (body := Py.remove "yield_values"
                   (Py.remove "teardown" (Py.remove "setup" kvs)));
    set (h3 := <[a:=body]> h);
    rewrite M_bind_eq; cbn [St.get_heap];
    rewrite M_bind_eq; unfold St.lift at 1; unfold St.items at 1;
    cbn [St.deref];
    assert (Hl3 : h3 !! a = Some body) by (by apply list_lookup_insert_eq);
    rewrite Hl3;
    assert (HF : Forall2 (fun (x : string * pyobj) (y : string * value) =>
                            x.1 = y.1 ∧ rep h3 x.2 y.2) (level_body d) body)
      by (unfold level_body, body; do 3 apply premove_rep;
          eapply Forall2_impl; [exact HF0|];
          intros x y [? Hr]; split; [done|];
          eapply rep_mono; [exact Hr|];
          unfold h3; rewrite <- (take_insert_ge h a a body) by done;
          apply prefix_take);
    rewrite M_bind_eq; unfold St.lift at 1
  end.

Lemma extract_loop_uneven (d l : pdict) :
  reaches d l → uneven_zip_level l →
  ∀ fuel ps v setups teardowns yv i ocs h,
    rep h (PDict d) v → dict_depth (PDict d) ≤ fuel →
    Forall (fun c : list dict => c ≠ []) ocs →
    extraction_goal (extract_loop fuel ps v setups teardowns yv i ocs h).
Proof.
  intros Hreach Hun.
  induction Hreach as [d|d first rest t Hch Hleaf Ht|d first rest l Hch Hnest Hreach IH];
    intros fuel ps v setups teardowns yv i ocs h Hrep Hfuel Hocs;
    (destruct fuel as [|fuel]; [cbn in Hfuel; lia|]);
    enter_level.
  - (* the level itself holds the uneven pair *)
    left.
    destruct (uneven_entries _ _ _ HF Hun)
      as (g & k1 & k2 & v1 & v2 & Hg & H1 & H2 & D1 & D2 & G1 & G2 & L1 & L2 & Hne).
    unfold _get_indexed_combinations.
    rewrite (combinations_uneven _ g k1 k2 v1 v2); try done;
      apply list_elem_of_filter; (split; [|done]); cbn [snd];
      by rewrite ?D1, ?D2.
  - (* a leaf test holds the uneven pair *)
    destruct (_get_indexed_combinations _ i None) as [c|e|] eqn:Ec;
      [|by left|by destruct (_get_indexed_combinations_fuel _ _ _ Ec)].
    pose proof (_get_indexed_combinations_nonempty _ _ _ _ Ec) as Hc.
    pose proof (children_rep _ _ _ HF) as Hchildren. rewrite Hch in Hchildren.
    inversion Hchildren as [|? vfirst ? vrest Hrfirst Hrrest Heq1 Heq2]; subst.
    rewrite <- Heq2 in Hchildren.
    rewrite (has_dict_value_rep _ _ _ Hrfirst), bool_decide_eq_true_2 by done.
    cbn [negb].
    assert (Hrefs : Forall (fun t => ∃ a, t = VRef a) (vfirst :: vrest)).
    { clear -Hchildren. apply Forall2_Forall_r with (l := first :: rest)
        (P := fun c v => rep h3 (PDict c) v); [done|].
      apply Forall_forall. intros c _ v Hr. inversion Hr; subst. by eexists. }
    assert (∃ at_, VRef at_ ∈ vfirst :: vrest ∧ holds_uneven_pair at_ h3)
      as (at_ & Hat & Hholds).
    { apply list_elem_of_lookup in Ht as [j Hj].
      destruct (Forall2_lookup_l _ _ _ _ _ Hchildren Hj) as (vt & Hvt & Hrt).
      destruct (rep_uneven _ _ _ Hrt Hun) as (at_ & -> & Hh).
      exists at_. split; [|done]. apply list_elem_of_lookup. by exists j. }
    rewrite M_bind_eq.
    pose proof (holds_uneven_pair_set at_) as Kset.
    pose proof (holds_uneven_pair_remove at_) as Krem.
    destruct (keeps_resolve_tests (holds_uneven_pair at_) Kset Krem ps (vfirst :: vrest) h3 Hholds)
      as [Hf1 Hh1].
    destruct (resolve_tests ps (vfirst :: vrest) h3) as [[ts|e|] h4] eqn:E4;
      [|by left|done].
    apply (resolve_tests_handles _ _ Hrefs) in E4 as ->. cbn [snd] in Hh1.
    rewrite M_bind_eq.
    destruct (keeps_fill_template (holds_uneven_pair at_) Krem ps
                (VList (setups ++ [(Py.pop "setup" VNone kvs).1])) h4 Hh1)
      as [Hf2 Hh2].
    destruct (fill_template ps (VList (setups ++ _)) h4) as [[ns|e|] h5];
      [|by left|done].
    cbn [snd] in Hh2. rewrite M_bind_eq.
    match goal with |- context [fill_template ps ?x h5] =>
      destruct (keeps_fill_template (holds_uneven_pair at_) Krem ps x h5 Hh2) as [Hf3 Hh3];
      destruct (fill_template ps x h5) as [[nt|e|] h6]; [|by left|done]
    end.
    cbn [snd] in Hh3. right. eexists _, at_. cbn.
    split; [done|]. split; [done|]. split; [done|].
    apply Forall_app. split; [done|]. by constructor.
  - (* the level is further down *)
    destruct (_get_indexed_combinations _ i None) as [c|e|] eqn:Ec;
      [|by left|by destruct (_get_indexed_combinations_fuel _ _ _ Ec)].
    pose proof (_get_indexed_combinations_nonempty _ _ _ _ Ec) as Hc.
    pose proof (children_rep _ _ _ HF) as Hchildren. rewrite Hch in Hchildren.
    inversion Hchildren as [|? vfirst ? vrest Hrfirst Hrrest Heq1 Heq2]; subst.
    rewrite (has_dict_value_rep _ _ _ Hrfirst), bool_decide_eq_false_2 by done.
    cbn [negb].
    apply IH; [done|done| |].
    + assert (first ∈ pdict_children d) as Hin.
      { apply (pdict_children_subseteq _ _ (level_body_subseteq d)).
        rewrite Hch. by left. }
      pose proof (dict_depth_child _ _ Hin). lia.
    + apply Forall_app. split; [done|]. by constructor.
Qed.

(** The nesting depth of the level bounds the iterations of
    [extract_loop]. *)
Lemma extract_loop_fuel (fuel : nat) :
  ∀ (d : pdict) ps v setups teardowns yv i ocs h,
    rep h (PDict d) v → dict_depth (PDict d) ≤ fuel →
    (extract_loop fuel ps v setups teardowns yv i ocs h).1 ≠ NoFuel.
Proof.
  induction fuel as [|fuel IH];
    intros d ps v setups teardowns yv i ocs h Hrep Hfuel;
    [cbn in Hfuel; lia|].
  enter_level.
  destruct (_get_indexed_combinations _ i None) as [c|e|] eqn:Ec;
    [|done|by destruct (_get_indexed_combinations_fuel _ _ _ Ec)].
  pose proof (children_rep _ _ _ HF) as Hchildren.
  inversion Hchildren as [|first vfirst rest vrest Hrfirst Hrrest Heq1 Heq2];
    [done|].
  rewrite (has_dict_value_rep _ _ _ Hrfirst).
  assert (first ∈ pdict_children d) as Hin.
  { apply (pdict_children_subseteq _ _ (level_body_subseteq d)).
    rewrite <- Heq1. by left. }
  pose proof (dict_depth_child _ _ Hin).
  destruct (bool_decide (pdict_children first = [])); cbn [negb];
    [|apply (IH first); [done|lia]].
  assert (Kset : ∀ (h : heap) (a : nat) (d : dict) (k : string) (v : value),
            True → h !! a = Some d → get_zip_group k = None → True) by done.
  assert (Krem : ∀ (h : heap) (a : nat) (d : dict) (k : string),
            True → h !! a = Some d → get_zip_group k = None → True) by done.
  rewrite M_bind_eq.
  destruct (keeps_resolve_tests (fun _ => True) Kset Krem ps (vfirst :: vrest) h3 I)
    as [Hf1 _].
  destruct (resolve_tests ps (vfirst :: vrest) h3) as [[ts|e|] h4]; [|done|done].
  rewrite M_bind_eq.
  match goal with |- context [fill_template ps ?x h4] =>
    destruct (keeps_fill_template (fun _ => True) Krem ps x h4 I) as [Hf2 _];
    destruct (fill_template ps x h4) as [[ns|e|] h5]; [|done|done]
  end.
  rewrite M_bind_eq.
  match goal with |- context [fill_template ps ?x h5] =>
    destruct (keeps_fill_template (fun _ => True) Krem ps x h5 I) as [Hf3 _];
    destruct (fill_template ps x h5) as [[nt|e|] h6]; [|done|done]
  end.
  done.
Qed.

End Extraction.

Section FailedCalls.

Lemma check_validity_loop_fuel (fuel : nat) :
  ∀ (d : pdict) h v,
    rep h (PDict d) v → dict_depth (PDict d) ≤ fuel →
    check_validity_loop fuel h v ≠ NoFuel.
Proof.
  induction fuel as [|fuel IH]; intros d h v Hrep Hfuel; [cbn in Hfuel; lia|].
  destruct (rep_items _ _ _ Hrep) as (kvs & Hi & HF).
  apply children_rep in HF.
  rewrite check_validity_loop_S, Hi, result_bind_ok. cbv zeta.
  destruct (existsb (truthy h) (dict_children kvs)); [|done].
  destruct (_ && _); [done|].
  inversion HF as [|c vc cs vs Hr HF' Heq1 Heq2]; [done|].
  assert (c ∈ pdict_children d) as Hin by (rewrite <- Heq1; by left).
  pose proof (dict_depth_child _ _ Hin).
  apply (IH c); [done|lia].
Qed.

Lemma main_rep (spec m : pdict) root h :
  load (PDict spec) [] = (root, h) → pget "main" spec = Some (PDict m) →
  ∃ kvs v, St.items h root = Ok kvs ∧ Py.get "main" kvs = Some v ∧
           rep h (PDict m) v ∧ dict_depth (PDict m) ≤ dict_depth (PDict spec).
Proof.
  intros Hload Hmain.
  destruct (load_rep _ _ _ _ Hload) as [_ Hrep].
  destruct (rep_items _ _ _ Hrep) as (kvs & Hi & HF).
  pose proof (get_rep _ _ _ "main" HF) as Hget. rewrite Hmain in Hget.
  destruct Hget as (v & Hv & Hr). exists kvs, v. repeat split; try done.
  apply pget_elem in Hmain.
  assert (m ∈ pdict_children spec)
    by (apply elem_of_pdict_children; by exists "main").
  pose proof (dict_depth_child _ _ H). lia.
Qed.

(** A specification with a level holding an uneven zip pair makes the
    call raise. *)
Lemma call_uneven_raises (spec m l : pdict) :
  pget "main" spec = Some (PDict m) → reaches m l → uneven_zip_level l →
  Res.is_raise (outcome (call spec)) = true.
Proof.
  intros Hmain Hreach Hun. unfold call.
  destruct (load (PDict spec) []) as [root h] eqn:Hload.
  destruct (main_rep _ _ _ _ Hload Hmain) as (kvs & v & Hi & Hget & Hrep & Hdepth).
  unfold get_combinations. rewrite get_heap_bind_eq, lift_bind_eq.
  destruct (check_validity _ h root) as [[]|e|] eqn:Ecv.
  - unfold _extract_skeleton.
    rewrite M_bind_eq, get_heap_bind_eq, lift_bind_eq, Hi, lift_bind_eq.
    unfold getitem. rewrite Hget.
    pose proof (extract_loop_uneven m l Hreach Hun (dict_depth (PDict spec))
                  root v [] [] VNone 0 [] h Hrep Hdepth (List.Forall_nil _)) as Hgoal.
    destruct (extract_loop _ root v [] [] VNone 0 [] h) as [r h'].
    unfold extraction_goal in Hgoal. cbn [fst snd] in Hgoal.
    destruct Hgoal as [Hraise|(sk & a & -> & Hin & Hholds & Hne)].
    + destruct r; done.
    + rewrite get_heap_bind_eq. unfold St.lift.
      pose proof (generate_uneven h' sk a Hin Hholds Hne) as Hg.
      by destruct (generate h' sk).
  - done.
  - exfalso. revert Ecv. unfold check_validity. rewrite Hi, result_bind_ok, Hget.
    by eapply check_validity_loop_fuel.
Qed.

End FailedCalls.

(** ** Termination *)

Section Termination.

Lemma tuple_events_fuel h sk oc : tuple_events h sk oc ≠ NoFuel.
Proof.
  unfold tuple_events.
  apply bind_fuel; [apply mapM_fuel, boundary_events_fuel|]. intros b.
  apply bind_fuel; [apply mapM_fuel, test_events_fuel|]. done.
Qed.

Lemma generate_fuel h sk : generate h sk ≠ NoFuel.
Proof.
  unfold generate. apply bind_fuel; [apply mapM_fuel, tuple_events_fuel|done].
Qed.

(** On a value of the store that is no mapping both descents stop at
    once. *)
Lemma check_validity_loop_scalar fuel h v :
  Py.is_dict v = false → check_validity_loop (S fuel) h v ≠ NoFuel.
Proof. by destruct v. Qed.

Lemma extract_loop_scalar fuel ps v setups teardowns yv i ocs h :
  Py.is_dict v = false →
  (extract_loop (S fuel) ps v setups teardowns yv i ocs h).1 ≠ NoFuel.
Proof. by destruct v. Qed.

(** A call of [get_combinations] on a literal specification returns or
    raises: the nesting depth of the literal is fuel enough for both
    descents. *)
Lemma call_terminates (spec : pdict) : outcome (call spec) ≠ NoFuel.
Proof.
  unfold call. destruct (load (PDict spec) []) as [root h] eqn:Hload.
  destruct (load_rep _ _ _ _ Hload) as [_ Hroot].
  destruct (rep_items _ _ _ Hroot) as (kvs & Hi & HF).
  pose proof (get_rep _ _ _ "main" HF) as Hget.
  assert (Hfuel : ∃ fuel, dict_depth (PDict spec) = S fuel) by (by eexists).
  destruct Hfuel as [fuel Hfuel].
  assert (Hmain : ∀ m, pget "main" spec = Some (PDict m) →
                       dict_depth (PDict m) ≤ dict_depth (PDict spec)).
  { intros m Hm. apply pget_elem in Hm.
    assert (m ∈ pdict_children spec) as Hin
      by (apply elem_of_pdict_children; by exists "main").
    pose proof (dict_depth_child _ _ Hin). lia. }
  unfold get_combinations. rewrite get_heap_bind_eq, lift_bind_eq.
  unfold check_validity. rewrite Hi, result_bind_ok.
  destruct (pget "main" spec) as [o|]; [|by rewrite Hget].
  destruct Hget as (v & Hv & Hr). rewrite Hv.
  assert (Hcv : check_validity_loop (dict_depth (PDict spec)) h v ≠ NoFuel).
  { destruct o as [| | | |m];
      try (rewrite Hfuel; apply check_validity_loop_scalar; by inversion Hr).
    eapply check_validity_loop_fuel; [exact Hr|by apply Hmain]. }
  destruct (check_validity_loop _ h v) as [[]|e|]; [|done|done].
  unfold _extract_skeleton.
  rewrite M_bind_eq, get_heap_bind_eq, lift_bind_eq, Hi, lift_bind_eq.
  unfold getitem. rewrite Hv.
  assert (Hex : (extract_loop (dict_depth (PDict spec)) root v [] [] VNone 0 [] h).1
                ≠ NoFuel).
  { destruct o as [| | | |m];
      try (rewrite Hfuel; apply extract_loop_scalar; by inversion Hr).
    eapply extract_loop_fuel; [exact Hr|by apply Hmain]. }
  destruct (extract_loop _ root v [] [] VNone 0 [] h) as [[sk|e|] h']; [|done|done].
  rewrite get_heap_bind_eq. unfold St.lift.
  pose proof (generate_fuel h' sk) as Hg.
  by destruct (generate h' sk).
Qed.

End Termination.

(** ** Setup and teardown events of the returned sequence *)

Section Balance.

Lemma count_events_app (p : value → bool) (s t : list value) :
  count_events p (s ++ t) = count_events p s + count_events p t.
Proof. unfold count_events. by rewrite List.filter_app, length_app. Qed.

Lemma count_events_cons (p : value → bool) (v : value) (s : list value) :
  count_events p (v :: s) = (if p v then 1 else 0) + count_events p s.
Proof. unfold count_events. cbn [List.filter]. by destruct (p v). Qed.

Lemma balanced_nil : balanced [].
Proof. split; done. Qed.

Lemma balanced_app (s t : list value) : balanced s → balanced t → balanced (s ++ t).
Proof.
  intros [Hs Cs] [Ht Ct]. split.
  - intros o r. by rewrite <- app_assoc, Hs, Ht.
  - rewrite !count_events_app. lia.
Qed.

Lemma balanced_concat (ss : list (list value)) :
  Forall balanced ss → balanced (concat ss).
Proof.
  induction 1 as [|s ss Hs _ IH]; cbn [concat]; [apply balanced_nil|].
  by apply balanced_app.
Qed.

Lemma mapM_result_Forall2 {A B} (f : A → result B) (l : list A) (r : list B) :
  mapM f l = Ok r → Forall2 (fun x y => f x = Ok y) l r.
Proof.
  revert r. induction l as [|x l IH]; intros r; cbn.
  - intros [= <-]. constructor.
  - destruct (f x) as [y| |] eqn:E; cbn; [|done|done].
    destruct (mapM f l) as [ys| |]; cbn; [|done|done].
    intros [= <-]. constructor; [done|]. by apply IH.
Qed.

Lemma mapM_result_Forall {A B} (f : A → result B) (P : B → Prop)
    (l : list A) (r : list B) :
  (∀ x y, f x = Ok y → P y) → mapM f l = Ok r → Forall P r.
Proof.
  intros H Hm. apply mapM_result_Forall2 in Hm.
  induction Hm; constructor; eauto.
Qed.

Lemma get_set (k : string) (v : value) (d : dict) :
  Py.get k (Py.set k v d) = Some v.
Proof.
  induction d as [|[k' v'] d IH]; cbn [Py.set Py.get].
  - by rewrite String.eqb_refl.
  - destruct (String.eqb k k') eqn:E; cbn [Py.get]; rewrite E; done.
Qed.

Lemma get_set_ne (k k1 : string) (v : value) (d : dict) :
  k ≠ k1 → Py.get k1 (Py.set k v d) = Py.get k1 d.
Proof.
  intros Hne. induction d as [|[k' v'] d IH]; cbn [Py.set Py.get].
  - apply String.eqb_neq in Hne. rewrite String.eqb_sym in Hne. by rewrite Hne.
  - destruct (String.eqb k k') eqn:E; cbn [Py.get]; [|by rewrite IH].
    apply String.eqb_eq in E as <-.
    apply String.eqb_neq in Hne. rewrite String.eqb_sym in Hne. by rewrite Hne.
Qed.

(** A record with the keys of a test combination is no event. *)
Lemma combination_no_event (d : dict) :
  is_Some (Py.get "__index_test" d) →
  is_setup_event (VDict d) = false ∧ is_teardown_event (VDict d) = false.
Proof.
  intros [v Hv]. destruct d as [|[k x] [|]]; [done| |by split].
  cbn [Py.get] in Hv. destruct (String.eqb "__index_test" k) eqn:E; [|done].
  apply String.eqb_eq in E as <-. by split.
Qed.

Lemma _get_indexed_combinations_test (pc : ParameterCombination)
    (i_level t : nat) (cs : list dict) :
  _get_indexed_combinations pc i_level (Some t) = Ok cs →
  Forall (fun c => is_Some (Py.get "__index_test" c)) cs.
Proof.
  unfold _get_indexed_combinations.
  destruct (combinations pc) as [l| |]; cbn; [|done|done].
  apply mapM_result_Forall. intros [i c] y. cbn [fst snd].
  destruct (mapM _ _) as [ix| |]; cbn; [|done|done].
  intros [= <-]. rewrite get_set. by eexists.
Qed.

Lemma balanced_combinations (cs : list dict) (y : value) :
  Forall (fun c => is_Some (Py.get "__index_test" c)) cs →
  ∀ o r, nested o (map VDict (map (Py.set "yield" y) cs) ++ r) = nested o r.
Proof.
  induction 1 as [|c cs Hc _ IH]; intros o r; [done|].
  cbn [map app nested].
  assert (Hy : is_Some (Py.get "__index_test" (Py.set "yield" y c)))
    by (by rewrite get_set_ne).
  destruct (combination_no_event _ Hy) as [-> ->]. apply IH.
Qed.

Lemma count_combinations (p : value → bool) (cs : list dict) (y : value) :
  (∀ d, is_Some (Py.get "__index_test" d) → p (VDict d) = false) →
  Forall (fun c => is_Some (Py.get "__index_test" c)) cs →
  count_events p (map VDict (map (Py.set "yield" y) cs)) = 0.
Proof.
  intros Hp. induction 1 as [|c cs Hc _ IH]; [done|].
  unfold count_events in *. cbn [map List.filter].
  rewrite Hp by (by rewrite get_set_ne). done.
Qed.

Lemma test_events_balanced h sk op e s :
  test_events h sk op e = Ok s → balanced s.
Proof.
  unfold test_events. destruct e as [i p].
  destruct (St.items h p) as [d| |]; cbn [mbind result_bind Res.bind]; [|done|done].
  destruct (Py.pop "setup" VNone d) as [su d1].
  destruct (Py.pop "teardown" VNone d1) as [td d2].
  destruct (Py.pop "yield" (yield_values sk) d2) as [y d3].
  destruct (_get_indexed_combinations _ _ _) as [cs| |] eqn:E;
    cbn [mbind result_bind Res.bind]; [|done|done].
  intros [= <-]. apply _get_indexed_combinations_test in E.
  split.
  - intros o r. cbn [app]. rewrite <- app_assoc.
    cbn [nested setup_event is_setup_event String.eqb Ascii.eqb Bool.eqb].
    rewrite balanced_combinations by done. done.
  - rewrite !count_events_cons, !count_events_app.
    rewrite !count_combinations; try done;
      intros d0 Hd; by destruct (combination_no_event d0 Hd).
Qed.

Lemma boundary_events_balanced op e s :
  boundary_events op e = Ok s → balanced s.
Proof.
  unfold boundary_events. destruct e as [i [su td]].
  destruct (i =? 0)%nat; [intros [= <-]; apply balanced_nil|].
  destruct (outer_index op i) as [a| |]; cbn [mbind result_bind Res.bind]; [|done|done].
  destruct (Py.eq_zero a); [|intros [= <-]; apply balanced_nil].
  destruct (outer_index op (i - 1)) as [b| |]; cbn [mbind result_bind Res.bind]; [|done|done].
  destruct (negb (Py.eq_zero b)); intros [= <-]; [|apply balanced_nil].
  split; done.
Qed.

Lemma tuple_events_balanced h sk oc s :
  tuple_events h sk oc = Ok s → balanced s.
Proof.
  unfold tuple_events.
  destruct (mapM (boundary_events _) _) as [b| |] eqn:Eb;
    cbn [mbind result_bind Res.bind]; [|done|done].
  destruct (mapM (test_events _ _ _) _) as [t| |] eqn:Et;
    cbn [mbind result_bind Res.bind]; [|done|done].
  intros [= <-]. apply balanced_app; apply balanced_concat.
  - eapply mapM_result_Forall; [|exact Eb]. apply boundary_events_balanced.
  - eapply mapM_result_Forall; [|exact Et]. apply test_events_balanced.
Qed.

Lemma generate_balanced h sk out :
  generate h sk = Ok out →
  nested 0 out = true ∧
  count_events is_setup_event out = count_events is_teardown_event out.
Proof.
  unfold generate.
  destruct (mapM (tuple_events _ _) _) as [body| |] eqn:E;
    cbn [mbind result_bind Res.bind]; [|done|done].
  intros [= <-].
  assert (Hb : balanced (concat body)).
  { apply balanced_concat. eapply mapM_result_Forall; [|exact E].
    apply tuple_events_balanced. }
  destruct Hb as [Hn Hc]. split.
  - cbn [app nested setup_event is_setup_event]. cbn. by rewrite Hn.
  - cbn [app]. rewrite !count_events_cons, !count_events_app, Hc. done.
Qed.

(** Every sequence [get_combinations] returns is balanced. *)
Lemma get_combinations_balanced fuel root h out h' :
  get_combinations fuel root h = (Ok out, h') →
  nested 0 out = true ∧
  count_events is_setup_event out = count_events is_teardown_event out.
Proof.
  unfold get_combinations. rewrite get_heap_bind_eq, lift_bind_eq.
  destruct (check_validity fuel h root) as [[]| |]; [|done|done].
  rewrite M_bind_eq.
  destruct (_extract_skeleton fuel root h) as [[sk| |] h1]; [|done|done].
  rewrite get_heap_bind_eq. unfold St.lift.
  destruct (generate h1 sk) as [o| |] eqn:E; [|done|done].
  intros [= <- <-]. by apply generate_balanced in E.
Qed.

(** Every sequence returned for a literal specification is balanced. *)
Lemma call_balanced (spec : pdict) (out : list value) :
  outcome (call spec) = Ok out →
  nested 0 out = true ∧
  count_events is_setup_event out = count_events is_teardown_event out.
Proof.
  unfold call. destruct (load (PDict spec) []) as [root h].
  destruct (get_combinations _ root h) as [r h'] eqn:E. cbn [outcome].
  intros ->. by eapply get_combinations_balanced.
Qed.

End Balance.

(** ** Indices of the test combinations *)

Section Indices.

Lemma index_key_other (level : nat) :
  index_key level ≠ "__index" ∧ index_key level ≠ "__index_test" ∧
  index_key level ≠ "yield".
Proof.
  unfold index_key, Py.str_nat. repeat split; try discriminate.
  cbn. intros [= H]. by destruct (Nat.to_uint level).
Qed.

(** The composite index of a test combination lists the values stored
    under [__index_0] up to [__index_n], where [n] is the length of the
    list of setups of the skeleton; [__index_test] is the position of the
    test. *)
Lemma test_events_index h sk op i p s :
  test_events h sk op (i, p) = Ok s →
  Forall (fun v =>
            is_test_combination v = true →
            ∃ c ix, v = VDict c ∧
              Py.get "__index" c = Some (VList ix) ∧
              Forall2 (fun level x => Py.get (index_key level) c = Some x)
                      (seq 0 (length (setups sk) + 1)) ix ∧
              Py.get "__index_test" c = Some (VInt (Z.of_nat i))) s.
Proof.
  unfold test_events.
  destruct (St.items h p) as [d| |]; cbn [mbind result_bind Res.bind]; [|done|done].
  destruct (Py.pop "setup" VNone d) as [su d1].
  destruct (Py.pop "teardown" VNone d1) as [td d2].
  destruct (Py.pop "yield" (yield_values sk) d2) as [y d3].
  destruct (_get_indexed_combinations _ _ _) as [cs| |] eqn:E;
    cbn [mbind result_bind Res.bind]; [|done|done].
  intros [= <-]. constructor; [done|]. apply Forall_app. split.
  - unfold _get_indexed_combinations in E.
    destruct (combinations _) as [l| |]; cbn [mbind result_bind Res.bind] in E;
      [|done|done].
    apply mapM_result_Forall2 in E. rewrite <- map_map, !Forall_map.
    eapply Forall2_Forall_r; [exact E|]. apply Forall_forall.
    intros [j c0] _ c. cbn [fst snd].
    destruct (mapM _ (seq 0 _)) as [ix| |] eqn:Eix;
      cbn [mbind result_bind Res.bind]; [|done|done].
    intros [= <-] _. eexists _, ix. split; [done|].
    split; [|split].
    + rewrite !get_set_ne by done. apply get_set.
    + apply mapM_result_Forall2 in Eix.
      eapply Forall2_impl; [exact Eix|]. intros level x. cbn beta.
      destruct (index_key_other level) as (N1 & N2 & N3).
      rewrite !get_set_ne by done. unfold getitem.
      destruct (Py.get _ _); by intros [= ->].
    + rewrite get_set_ne by done. apply get_set.
  - by constructor.
Qed.

End Indices.

(** ** Structural and shape errors *)

Section ErrorClaims.

(** C9. When some level below the entry point (the entry point's own
    mapping included) has more than one child mapping, one of which
    itself contains a nested mapping, the validity check raises the
    parallel-outer-loops error; [get_combinations] raises it before
    anything is extracted: the store is as the caller built it, and no
    output exists. *)
Theorem parallel_outer_loops_rejected (spec m l : pdict) :
  pget "main" spec = Some (PDict m) → below m l → parallel_level l →
  check_validity (dict_depth (PDict spec))
    (load (PDict spec) []).2 (load (PDict spec) []).1
    = Raise (ValueError parallel_msg) ∧
  outcome (call spec) = Raise (ValueError parallel_msg) ∧
  final_heap (call spec) = (load (PDict spec) []).2.
Proof.
  intros Hmain Hbelow Hpar. unfold call.
  destruct (load (PDict spec) []) as [root h] eqn:Hload. cbn [fst snd].
  pose proof (check_validity_parallel _ _ _ _ _ Hload Hmain Hbelow Hpar) as Hcv.
  rewrite (get_combinations_invalid _ _ _ _ Hcv). done.
Qed.

Lemma parallel_outer_loops_rejected_witness :
  pget "main" Examples.parallel_loops = Some (PDict Examples.parallel_main) ∧
  below Examples.parallel_main Examples.parallel_main ∧
  parallel_level Examples.parallel_main ∧
  outcome (call Examples.parallel_loops) = Raise (ValueError parallel_msg) ∧
  final_heap (call Examples.parallel_loops) =
    (load (PDict Examples.parallel_loops) []).2.
Proof.
  assert (H1 : pget "main" Examples.parallel_loops =
               Some (PDict Examples.parallel_main)) by reflexivity.
  assert (H2 : below Examples.parallel_main Examples.parallel_main)
    by constructor.
  assert (H3 : parallel_level Examples.parallel_main).
  { split; [cbn; lia|]. eexists. split; [left|discriminate]. }
  repeat (split; [assumption|]).
  exact (proj2 (parallel_outer_loops_rejected _ _ _ H1 H2 H3)).
Defined.

(** C8 (amended). (1) A flat mapping with two members of one zip group
    of non-empty modifier whose lists have more than one value and
    different lengths makes the computation of combinations raise the
    mismatch error. (2) A call of [get_combinations] on a specification
    with such a level, an outer level of the chain or a leaf test with
    distinct keys, raises: no output is returned. *)
Theorem uneven_zip_groups_rejected :
  (∀ (ps : dict) (g k1 k2 : string) (v1 v2 : value),
     g ≠ "" → (k1, v1) ∈ ps → (k2, v2) ∈ ps →
     get_zip_group k1 = Some g → get_zip_group k2 = Some g →
     1 < length (as_list v1) → 1 < length (as_list v2) →
     length (as_list v1) ≠ length (as_list v2) →
     combinations (new_pc ps) = Raise (ValueError mismatch_msg)) ∧
  (∀ spec m l : pdict,
     pget "main" spec = Some (PDict m) → reaches m l → uneven_zip_level l →
     Res.is_raise (outcome (call spec)) = true).
Proof.
  split.
  - intros ps g k1 k2 v1 v2 Hg H1 H2 G1 G2 L1 L2 Hne.
    exact (combinations_uneven ps g k1 k2 v1 v2 Hg H1 H2 G1 G2 L1 L2 Hne).
  - intros spec m l Hmain Hreach Hun.
    exact (call_uneven_raises spec m l Hmain Hreach Hun).
Qed.

Lemma uneven_zip_groups_rejected_witness :
  ("corner" ≠ "" ∧
   ("param_1#zip_corner", Examples.nums [1; 2; 3]%Z) ∈ Examples.uneven_corner ∧
   ("param_2#zip_corner", Examples.strs ["a"; "b"]) ∈ Examples.uneven_corner ∧
   get_zip_group "param_1#zip_corner" = Some "corner" ∧
   get_zip_group "param_2#zip_corner" = Some "corner" ∧
   1 < length (as_list (Examples.nums [1; 2; 3]%Z)) ∧
   1 < length (as_list (Examples.strs ["a"; "b"])) ∧
   length (as_list (Examples.nums [1; 2; 3]%Z)) ≠
     length (as_list (Examples.strs ["a"; "b"])) ∧
   combinations (new_pc Examples.uneven_corner) =
     Raise (ValueError mismatch_msg)) ∧
  (pget "main" Examples.uneven_zip = Some (PDict Examples.uneven_main) ∧
   reaches Examples.uneven_main Examples.uneven_faulty ∧
   uneven_zip_level Examples.uneven_faulty ∧
   Res.is_raise (outcome (call Examples.uneven_zip)) = true).
Proof.
  destruct uneven_zip_groups_rejected as [flat whole].
  split.
  - assert (Hg : "corner" ≠ "") by discriminate.
    assert (H1 : ("param_1#zip_corner", Examples.nums [1; 2; 3]%Z)
                 ∈ Examples.uneven_corner) by left.
    assert (H2 : ("param_2#zip_corner", Examples.strs ["a"; "b"])
                 ∈ Examples.uneven_corner) by (right; left).
    assert (G1 : get_zip_group "param_1#zip_corner" = Some "corner")
      by reflexivity.
    assert (G2 : get_zip_group "param_2#zip_corner" = Some "corner")
      by reflexivity.
    assert (L1 : 1 < length (as_list (Examples.nums [1; 2; 3]%Z)))
      by (cbn; lia).
    assert (L2 : 1 < length (as_list (Examples.strs ["a"; "b"])))
      by (cbn; lia).
    assert (Hne : length (as_list (Examples.nums [1; 2; 3]%Z)) ≠
                  length (as_list (Examples.strs ["a"; "b"])))
      by (cbn; lia).
    repeat (split; [assumption|]).
    exact (flat _ _ _ _ _ _ Hg H1 H2 G1 G2 L1 L2 Hne).
  - assert (H1 : pget "main" Examples.uneven_zip =
                 Some (PDict Examples.uneven_main)) by reflexivity.
    assert (H2 : reaches Examples.uneven_main Examples.uneven_faulty).
    { eapply reaches_test; [reflexivity|reflexivity|left]. }
    assert (H3 : uneven_zip_level Examples.uneven_faulty).
    { split.
      - cbn. apply NoDup_cons. split.
        + intros H. apply list_elem_of_singleton in H. discriminate H.
        + apply NoDup_singleton.
      - exists "faulty", "param_1#zip_faulty", "param_2#zip_faulty",
          [PInt 1; PInt 2; PInt 3]%Z, [PStr "a"; PStr "b"].
        split; [discriminate|]. split; [left|]. split; [right; left|].
        split; [reflexivity|]. split; [reflexivity|]. cbn. lia. }
    repeat (split; [assumption|]).
    exact (whole _ _ _ H1 H2 H3).
Defined.

(** The repository's test specification raises the mismatch error. *)
Example uneven_zip_mismatch :
  outcome (call Examples.uneven_zip) = Raise (ValueError mismatch_msg).
Proof. vm_compute. reflexivity. Qed.

(** The claim C8 as stated fails for a zip group whose modifier has an
    empty name: its two members have three and two values, and both the
    computation of combinations and [get_combinations] succeed. *)
Lemma empty_modifier_accepted :
  get_zip_group "param_1#zip_" = Some "" ∧
  get_zip_group "param_2#zip_" = Some "" ∧
  length <$> combinations (new_pc Examples.empty_modifier_uneven) = Ok 6 ∧
  Res.is_ok (outcome (call Examples.empty_modifier_zip)) = true.
Proof. repeat split; vm_compute; reflexivity. Qed.

End ErrorClaims.

(** ** Worked examples *)

Section WorkedExamples.

Import Examples.

Local Open Scope Z_scope.

(** C6. With the entry point as the one outer level sweeping
    [temperature] over [25, 26, 27] and a single leaf test sweeping
    [param] over [1, 2], [get_combinations] returns six test
    combinations with composite indices [[t, p]], [t] in 0..2 and [p] in
    0..1, four setup events and four teardown events. *)
Theorem temperature_sweep_example :
  ∃ out,
    trace temperature_sweep = Ok (Some out) ∧
    out =
      [Setup (PList [PNone]);
       Setup (PList []); Test (ints [0; 0]) (PInt 0);
       Test (ints [0; 1]) (PInt 0); Teardown (PList []);
       Setup (PList []); Test (ints [1; 0]) (PInt 0);
       Test (ints [1; 1]) (PInt 0); Teardown (PList []);
       Setup (PList []); Test (ints [2; 0]) (PInt 0);
       Test (ints [2; 1]) (PInt 0); Teardown (PList []);
       Teardown (PList [PNone])] ∧
    length (filter is_test out) = 6%nat ∧
    length (filter is_setup out) = 4%nat ∧
    length (filter is_teardown out) = 4%nat.
Proof.
  eexists. split; [vm_compute; reflexivity |].
  repeat split; reflexivity.
Qed.

(** The six combinations of that example in full. *)
Lemma temperature_sweep_combinations :
  ∃ out,
    returned temperature_sweep = Ok (Some out) ∧
    filter (fun o => is_test (classify o)) out =
      map (fun tp : (Z * Z) * (Z * Z) =>
             PDict [("temperature", PInt tp.1.1); ("__index_0", PInt tp.1.2);
                    ("param", PInt tp.2.1); ("__index_1", PInt tp.2.2);
                    ("__index", ints [tp.1.2; tp.2.2]);
                    ("__index_test", PInt 0); ("yield", PNone)])
          [((25, 0), (1, 0)); ((25, 0), (2, 1));
           ((26, 1), (1, 0)); ((26, 1), (2, 1));
           ((27, 2), (1, 0)); ((27, 2), (2, 1))].
Proof. eexists. split; vm_compute; reflexivity. Qed.

(** C4. [get_combinations] changes the caller's specification: after
    the call on [with_actions] the entry point has lost its [setup] and
    [teardown] keys and the leaf test has gained both; a call that
    raises ([two_setups]) leaves its changes behind as well. *)
Theorem get_combinations_changes_caller_spec :
  Res.is_ok (outcome (call with_actions)) = true ∧
  spec_after with_actions =
    Some (PDict [("main",
                  PDict [("t", PDict [("p", PInt 1);
                                      ("setup", PList []);
                                      ("teardown", PList [])])])]) ∧
  spec_after with_actions ≠ Some (PDict with_actions) ∧
  outcome (call two_setups) = Raise (KeyError "__index_1") ∧
  spec_after two_setups =
    Some (PDict [("main",
                  PDict [("t", PDict [("param", ints [1; 2]);
                                      ("setup", PList []);
                                      ("teardown", PList [])])])]) ∧
  spec_after two_setups ≠ Some (PDict two_setups).
Proof.
  repeat split; try (vm_compute; reflexivity);
    vm_compute; intros H; discriminate H.
Qed.

(** C5. On [three_levels] (levels 0, 1 and 2 with two combinations
    each) the outer loop enters one new iteration of level 0, yet the
    teardown and setup of level 1 are emitted twice in it: before the
    tests of the tuple with indices (1, 0, 0) and again before those of
    (1, 0, 1), where the index of level 1 has not changed; and no pair
    for level 2 is emitted at (1, 0, 0), where level 1 starts anew. *)
Theorem boundary_events_three_levels :
  trace three_levels = Ok (Some three_levels_events) ∧
  three_levels_events =
    [Setup (PList [PDict [("open", PInt 0)]; PDict [("open", PInt 1)];
                   PDict [("open", PInt 2)]]);
     Setup (PList []); Test (ints [0; 0; 0; 0]) (PInt 0); Teardown (PList []);
     Setup (PList []); Test (ints [0; 0; 1; 0]) (PInt 0); Teardown (PList []);
     Teardown (PDict [("close", PInt 2)]); Setup (PDict [("open", PInt 2)]);
     Setup (PList []); Test (ints [0; 1; 0; 0]) (PInt 0); Teardown (PList []);
     Setup (PList []); Test (ints [0; 1; 1; 0]) (PInt 0); Teardown (PList []);
     Teardown (PDict [("close", PInt 1)]); Setup (PDict [("open", PInt 1)]);
     Setup (PList []); Test (ints [1; 0; 0; 0]) (PInt 0); Teardown (PList []);
     Teardown (PDict [("close", PInt 1)]); Setup (PDict [("open", PInt 1)]);
     Setup (PList []); Test (ints [1; 0; 1; 0]) (PInt 0); Teardown (PList []);
     Teardown (PDict [("close", PInt 2)]); Setup (PDict [("open", PInt 2)]);
     Setup (PList []); Test (ints [1; 1; 0; 0]) (PInt 0); Teardown (PList []);
     Setup (PList []); Test (ints [1; 1; 1; 0]) (PInt 0); Teardown (PList []);
     Teardown (PList [PDict [("close", PInt 2)]; PDict [("close", PInt 1)];
                      PDict [("close", PInt 0)]])].
Proof. split; vm_compute; reflexivity. Qed.

(** C1. On [three_levels] the teardown of level 1 is emitted between
    two test combinations of one and the same iteration of level 1:
    after the combination with indices (1, 0, 0) and before the one with
    indices (1, 0, 1). *)
Theorem teardown_inside_iteration :
  ∃ before after,
    trace three_levels =
      Ok (Some (before ++ [Teardown (PDict [("close", PInt 1)])] ++ after)) ∧
    Test (ints [1; 0; 0; 0]) (PInt 0) ∈ before ∧
    Test (ints [1; 0; 1; 0]) (PInt 0) ∈ after ∧
    Test (ints [1; 0; 1; 0]) (PInt 0) ∉ before.
Proof.
  exists (firstn 20 three_levels_events), (skipn 21 three_levels_events).
  split; [vm_compute; reflexivity |].
  repeat split.
  - vm_compute. apply list_elem_of_In. simpl. tauto.
  - vm_compute. apply list_elem_of_In. simpl. tauto.
  - vm_compute. intros H. apply list_elem_of_In in H. simpl in H.
    intuition discriminate.
Qed.

(** C7. A setup entry naming a top-level entry that is a scalar does
    not fail with the "Template not found" error: the attribute error of
    the scalar escapes. A top-level list and a missing entry are
    reported as the claim says. *)
Theorem scalar_template_attribute_error :
  outcome (call scalar_template) = Raise AttributeError ∧
  (fill_template (VRef 0) (VList [VStr "x"]) [[("x", VInt 5)]]).1
    = Raise AttributeError ∧
  outcome (call list_template) = Raise (ValueError (template_msg (VStr "x"))) ∧
  outcome (call missing_template) = Raise (ValueError (template_msg (VStr "x"))).
Proof. repeat split; vm_compute; reflexivity. Qed.

(** C10. On [empty_setup] one outer level is extracted, but the
    composite index of the test combinations has a single entry, the
    position among the test's own combinations, stored under
    [__index_0] in place of the index of the outer level; there is no
    [__index_1]. *)
Theorem composite_index_empty_setup :
  (length ∘ outer_combinations) <$> skeleton_of empty_setup = Ok 1%nat ∧
  returned empty_setup =
    Ok (Some
      [PDict [("setup", PList [])];
       PDict [("setup", PList [])];
       PDict [("__index_0", PInt 0); ("param", PInt 1);
              ("__index", ints [0]); ("__index_test", PInt 0);
              ("yield", PNone)];
       PDict [("__index_0", PInt 1); ("param", PInt 2);
              ("__index", ints [1]); ("__index_test", PInt 0);
              ("yield", PNone)];
       PDict [("teardown", PList [])];
       PDict [("teardown", PList [PNone])]]).
Proof. split; vm_compute; reflexivity. Qed.

End WorkedExamples.

(** * Further properties of the engine *)

Section Flatten.

Lemma value_nested_ind (P : value → Prop) :
  P VNone → (∀ z, P (VInt z)) → (∀ s, P (VStr s)) →
  (∀ l, Forall P l → P (VList l)) →
  (∀ d, P (VDict d)) → (∀ a, P (VRef a)) →
  ∀ v, P v.
Proof.
  intros HN HI HS HL HD HR.
  fix IH 1. intros [| z | s | l | d | a];
    [exact HN | apply HI | apply HS | | apply HD | apply HR].
  apply HL. induction l as [|x l IHl]; constructor; [apply IH | exact IHl].
Qed.

Lemma flatten_item_no_list (v : value) :
  Forall (fun x => Py.is_list x = false) (flatten_item v).
Proof.
  induction v as [| z | s | l IH | d | a] using value_nested_ind;
    try (by repeat constructor).
  cbn [flatten_item]. induction IH as [|x l Hx _ IHl]; [constructor|].
  cbn [flat_map]. by apply Forall_app.
Qed.

Lemma flatten_items_no_list (l : list value) :
  Forall (fun x => Py.is_list x = false) (flat_map flatten_item l).
Proof.
  induction l as [|x l IH]; [constructor|]. cbn [flat_map].
  apply Forall_app. split; [apply flatten_item_no_list|done].
Qed.

Lemma flatten_items_flat (l : list value) :
  Forall (fun x => Py.is_list x = false) l → flat_map flatten_item l = l.
Proof.
  induction 1 as [|x l Hx _ IH]; [done|]. cbn [flat_map]. rewrite IH.
  by destruct x.
Qed.

Lemma flat_map_flatten_app (l1 l2 : list value) :
  flat_map flatten_item (l1 ++ l2) =
  flat_map flatten_item l1 ++ flat_map flatten_item l2.
Proof. apply flat_map_app. Qed.

End Flatten.

Section FlattenProperties.

(** X1. The list [flatten_multidimensional_list] returns for a list holds
    no list, and flattening it again returns it unchanged. *)
Theorem flatten_is_flat (h : heap) (l : list value) :
  ∃ out,
    flatten_multidimensional_list h (VList l) = Ok out ∧
    Forall (fun x => Py.is_list x = false) out ∧
    flatten_multidimensional_list h (VList out) = Ok out.
Proof.
  exists (flat_map flatten_item l). split; [done|].
  split; [apply flatten_items_no_list|].
  cbn [flatten_multidimensional_list]. f_equal.
  apply flatten_items_flat, flatten_items_no_list.
Qed.

(** X2. Brackets do not matter to [flatten_multidimensional_list]: a
    stretch of the list wrapped in a list of its own flattens to the same
    result, and the result of a concatenation is the concatenation of
    the results. *)
Theorem flatten_ignores_brackets (h : heap) (l1 l l2 : list value) :
  flatten_multidimensional_list h (VList (l1 ++ [VList l] ++ l2)) =
    flatten_multidimensional_list h (VList (l1 ++ l ++ l2)) ∧
  (∃ o1 o o2,
     flatten_multidimensional_list h (VList l1) = Ok o1 ∧
     flatten_multidimensional_list h (VList l) = Ok o ∧
     flatten_multidimensional_list h (VList l2) = Ok o2 ∧
     flatten_multidimensional_list h (VList (l1 ++ l ++ l2)) = Ok (o1 ++ o ++ o2)).
Proof.
  split.
  - cbn [flatten_multidimensional_list]. f_equal.
    rewrite !flat_map_app. cbn [flat_map flatten_item]. by rewrite app_nil_r.
  - eexists _, _, _. repeat split.
    cbn [flatten_multidimensional_list]. by rewrite !flat_map_app.
Qed.

End FlattenProperties.

Section Names.

Local Open Scope string_scope.

Lemma string_app_cons (c : Ascii.ascii) (s t : string) :
  String c s ++ t = String c (s ++ t).
Proof. reflexivity. Qed.

Lemma string_app_nil_r (s : string) : s ++ "" = s.
Proof.
  induction s as [|c s IH]; [done|]. by rewrite string_app_cons, IH.
Qed.

Lemma string_app_assoc (a b c : string) : (a ++ b) ++ c = a ++ b ++ c.
Proof.
  induction a as [|x a IH]; [done|]. by rewrite !string_app_cons, IH.
Qed.

Lemma prefix_app (sep rest : string) : String.prefix sep (sep ++ rest) = true.
Proof.
  induction sep as [|c sep IH]; [by destruct rest|].
  rewrite string_app_cons. cbn [String.prefix].
  by destruct (Ascii.ascii_dec c c).
Qed.

Lemma prefix_hash (sep' : string) (c : Ascii.ascii) (s : string) :
  String.eqb (String c "") "#" = false →
  String.prefix (String "#"%char sep') (String c s) = false.
Proof.
  intros H. cbn [String.prefix].
  destruct (Ascii.ascii_dec "#" c) as [<-|]; [|reflexivity].
  by rewrite String.eqb_refl in H.
Qed.

(** A string without [#] has no separator that starts with [#]. *)
Lemma split_go_no_hash (sep' s cur : string) :
  no_hash s = true →
  Py.split_go (String "#"%char sep') 0 cur s = [cur ++ s].
Proof.
  revert cur. induction s as [|c s IH]; intros cur H; cbn [Py.split_go].
  - by rewrite string_app_nil_r.
  - cbn [no_hash] in H. apply andb_true_iff in H as [Hc Hs].
    apply negb_true_iff in Hc. rewrite (prefix_hash _ _ _ Hc).
    rewrite IH by done. by rewrite string_app_assoc.
Qed.

Lemma split_go_skip (sep x rest cur : string) :
  Py.split_go sep (String.length x) cur (x ++ rest) = Py.split_go sep 0 cur rest.
Proof.
  induction x as [|c x IH]; [done|].
  rewrite string_app_cons. cbn [String.length Py.split_go]. apply IH.
Qed.

(** The piece before the first separator. *)
Lemma split_go_first (sep' base rest cur : string) :
  no_hash base = true →
  Py.split_go (String "#"%char sep') 0 cur (base ++ String "#"%char sep' ++ rest) =
    (cur ++ base) :: Py.split_go (String "#"%char sep') 0 "" rest.
Proof.
  revert cur. induction base as [|c base IH]; intros cur H.
  - change ("" ++ String "#"%char sep' ++ rest) with (String "#"%char (sep' ++ rest)).
    cbn [Py.split_go].
    change (String "#"%char (sep' ++ rest)) with (String "#"%char sep' ++ rest).
    rewrite prefix_app, string_app_nil_r. f_equal.
    cbn [String.length Nat.sub]. rewrite Nat.sub_0_r. apply split_go_skip.
  - cbn [no_hash] in H. apply andb_true_iff in H as [Hc Hs].
    apply negb_true_iff in Hc.
    rewrite string_app_cons. cbn [Py.split_go]. rewrite (prefix_hash _ _ _ Hc).
    rewrite IH by done. by rewrite string_app_assoc.
Qed.

End Names.

Section NameProperties.

Local Open Scope string_scope.

(** The keys of the combinations are the pure names of the parameters. *)
Lemma pure_names_new_pc (ps : dict) :
  pure_names (new_pc ps) = map (fun kv : string * value => pure_name kv.1) ps.
Proof.
  unfold pure_names, new_pc, pure_name. cbn [names].
  rewrite !map_map. done.
Qed.

(** X3. Decoding a parameter name. For a base name and a group name
    without [#], the name [base#zip_group] has the zip group [group] and
    the key [base] in the combinations; the bare base name has no zip
    group and is its own key. *)
Theorem zip_name_decoding (base g : string) :
  no_hash base = true → no_hash g = true →
  get_zip_group (base ++ "#zip_" ++ g) = Some g ∧
  pure_name (base ++ "#zip_" ++ g) = base ∧
  get_zip_group base = None ∧
  pure_name base = base ∧
  ∀ v, pure_names (new_pc [(base ++ "#zip_" ++ g, v)]) = [base].
Proof.
  intros Hb Hg.
  enough (get_zip_group (base ++ "#zip_" ++ g) = Some g ∧
          pure_name (base ++ "#zip_" ++ g) = base ∧
          get_zip_group base = None ∧
          pure_name base = base) as (H1 & H2 & H3 & H4).
  { repeat split; try done. intros v. rewrite pure_names_new_pc.
    cbn [map fst]. by rewrite H2. }
  unfold get_zip_group, pure_name, Py.split.
  repeat split.
  - rewrite (split_go_first "zip_" base g "" Hb).
    rewrite (split_go_no_hash "zip_" g "" Hg).
    change ("" ++ g) with g. cbv beta iota.
    by rewrite (split_go_no_hash "" g "" Hg).
  - change (base ++ "#zip_" ++ g) with (base ++ String "#"%char "" ++ ("zip_" ++ g)).
    by rewrite (split_go_first "" base _ "" Hb).
  - by rewrite (split_go_no_hash "zip_" base "" Hb).
  - by rewrite (split_go_no_hash "" base "" Hb).
Qed.

Lemma zip_name_decoding_witness :
  no_hash "param_1" = true ∧ no_hash "corner" = true ∧
  get_zip_group "param_1#zip_corner" = Some "corner" ∧
  pure_name "param_1#zip_corner" = "param_1" ∧
  get_zip_group "param_1" = None ∧
  pure_name "param_1" = "param_1" ∧
  ∀ v, pure_names (new_pc [("param_1#zip_corner", v)]) = ["param_1"].
Proof.
  assert (Hb : no_hash "param_1" = true) by reflexivity.
  assert (Hg : no_hash "corner" = true) by reflexivity.
  split; [exact Hb|]. split; [exact Hg|].
  exact (zip_name_decoding "param_1" "corner" Hb Hg).
Defined.

End NameProperties.

Section Selection.

Lemma mask_select_sublist {A} (xs : list A) (mask : list bool) :
  Np.mask_select xs mask `sublist_of` xs.
Proof.
  revert mask. induction xs as [|x xs IH]; intros [|b mask]; cbn;
    try apply sublist_nil_l.
  destruct b; [apply sublist_skip | apply sublist_cons]; apply IH.
Qed.

Lemma bool_index_sublist {A} (xs : list A) (mask : list bool) (r : list A) :
  Np.bool_index xs mask = Ok r → r `sublist_of` xs.
Proof.
  unfold Np.bool_index. destruct (Nat.eqb _ _); [|done].
  intros [= <-]. apply mask_select_sublist.
Qed.

Lemma combinations_sublist (pc : ParameterCombination) (cs : list dict) :
  combinations pc = Ok cs → cs `sublist_of` all_combinations pc.
Proof.
  unfold combinations.
  destruct (Np.flatten <$> combination_index pc) as [m| |]; cbn; [|done|done].
  apply bool_index_sublist.
Qed.

Lemma mapM_result_raise_inv {A B} (f : A → result B) (l : list A) (e : exn) :
  mapM f l = Raise e → ∃ x, x ∈ l ∧ f x = Raise e.
Proof.
  induction l as [|x l IH]; cbn; [done|].
  destruct (f x) as [y|e'|] eqn:E; cbn.
  - destruct (mapM f l) as [ys|e'|]; cbn; [done| |done].
    intros [= ->]. destruct (IH eq_refl) as (z & Hz & Hfz).
    exists z. split; [by right|done].
  - intros [= ->]. exists x. split; [by left|done].
  - done.
Qed.

Lemma not_broadcastable (lens : list nat) :
  Np.broadcastable lens = false → ∃ a b, a ∈ lens ∧ b ∈ lens ∧ a ≠ b.
Proof.
  destruct lens as [|n r]; [done|]. cbn [Np.broadcastable].
  induction r as [|m r IH]; [done|]. cbn [forallb].
  destruct (Nat.eqb n m) eqn:E; cbn [andb].
  - intros H. destruct (IH H) as (a & b & Ha & Hb & Hne).
    exists a, b. repeat split; [| |done].
    + apply elem_of_cons in Ha as [->|Ha]; [by left|by do 2 right].
    + apply elem_of_cons in Hb as [->|Hb]; [by left|by do 2 right].
  - intros _. apply Nat.eqb_neq in E. exists n, m.
    repeat split; [by left|by right; left|done].
Qed.

End Selection.

Section Outcome.

Lemma not_broadcastable_uneven (ps : dict) (g : option string) :
  Np.broadcastable (Np.range_lengths (index_slicer (new_pc ps) g)) = false →
  uneven_group ps.
Proof.
  intros (a & b & Ha & Hb & Hne)%not_broadcastable.
  rewrite range_lengths_slicer in Ha, Hb.
  apply list_elem_of_fmap in Ha as ([ga na] & -> & Ha).
  apply list_elem_of_fmap in Hb as ([gb nb] & -> & Hb).
  apply list_elem_of_filter in Ha as [Ia Ha], Hb as [Ib Hb].
  cbn [fst snd] in *.
  apply Is_true_true in Ia, Ib.
  apply in_zip_group_eq in Ia as (-> & Hn & He).
  apply in_zip_group_eq in Ib as (-> & _ & _).
  destruct g as [g|]; [|done].
  apply elem_of_swept in Ha as (k1 & v1 & H1 & L1 & G1 & ->).
  apply elem_of_swept in Hb as (k2 & v2 & H2 & L2 & G2 & ->).
  exists g, k1, k2, v1, v2. repeat split; try done.
  intros ->. done.
Qed.

Lemma product_empty {A} (vals : list (list A)) :
  Exists (fun v => v = []) vals → Py.product vals = [].
Proof.
  intros H. destruct (Py.product vals) as [|x r] eqn:E; [done|].
  assert (Hne : Py.product vals ≠ []) by (by rewrite E).
  apply product_nonempty in Hne. apply Exists_exists in H as (v & Hv & ->).
  rewrite Forall_forall in Hne. by destruct (Hne [] Hv).
Qed.

Lemma forallb_false_elem {A} (f : A → bool) (l : list A) :
  forallb f l = false → ∃ x, x ∈ l ∧ f x = false.
Proof.
  induction l as [|x l IH]; [done|]. cbn [forallb].
  destruct (f x) eqn:E; cbn [andb].
  - intros (y & Hy & Hf)%IH. exists y. split; [by right|done].
  - intros _. exists x. split; [by left|done].
Qed.

Lemma size_positive (shp : list nat) :
  Forall (fun n => 0 < n) shp → 0 < Np.size shp.
Proof.
  unfold Np.size. induction 1 as [|n s Hn _ IH]; cbn [fold_right]; [lia|].
  by apply Nat.mul_pos_pos.
Qed.

(** The three outcomes of the computation, by the shape of the mapping. *)
Lemma combinations_cases (ps : dict) :
  (uneven_group ps ∧ combinations (new_pc ps) = Raise (ValueError mismatch_msg)) ∨
  (¬ uneven_group ps ∧ Exists (fun kv : string * value => as_list kv.2 = []) ps ∧
   combinations (new_pc ps) = Raise IndexError) ∨
  (¬ uneven_group ps ∧ Forall (fun kv : string * value => as_list kv.2 ≠ []) ps ∧
   combinations (new_pc ps) =
     Ok (map (combo_at (new_pc ps))
           (filter (fun idx => valid_index (new_pc ps) idx)
              (Np.indices (shape (new_pc ps)))))).
Proof.
  destruct (forallb (fun g => Np.broadcastable
              (Np.range_lengths (index_slicer (new_pc ps) g)))
              (zip_groups (new_pc ps))) eqn:B.
  - right.
    assert (HB : ∀ g, g ∈ zip_groups (new_pc ps) →
              Np.broadcastable (Np.range_lengths (index_slicer (new_pc ps) g)) = true).
    { intros g Hg. rewrite forallb_forall in B. apply B. by apply list_elem_of_In. }
    assert (Hflat := combination_index_flat ps HB).
    assert (Hnot : ¬ uneven_group ps).
    { intros (g & k1 & k2 & v1 & v2 & Hg & H1 & H2 & G1 & G2 & L1 & L2 & Hne).
      pose proof (combinations_uneven ps g k1 k2 v1 v2 Hg H1 H2 G1 G2 L1 L2 Hne) as E.
      unfold combinations in E. rewrite Hflat in E. cbn in E.
      unfold Np.bool_index in E. by destruct (Nat.eqb _ _). }
    destruct (decide (Forall (fun kv : string * value => as_list kv.2 ≠ []) ps))
      as [Hall|Hex].
    + right. split; [done|]. split; [done|]. by apply combinations_valid.
    + left. split; [done|]. apply not_Forall_Exists in Hex; [|solve_decision].
      assert (Hex' : Exists (fun kv : string * value => as_list kv.2 = []) ps).
      { eapply Exists_impl; [exact Hex|]. intros kv H. cbn in H.
        destruct (as_list kv.2); [done|]. by destruct H. }
      split; [done|].
      unfold combinations. rewrite Hflat. cbn [mbind result_bind Res.bind].
      unfold Np.bool_index, all_combinations.
      rewrite product_empty.
      * cbn [map length]. rewrite length_map, length_indices.
        assert (0 < Np.size (shape (new_pc ps))) as Hpos.
        { apply size_positive, shape_positive. }
        destruct (Np.size (shape (new_pc ps))); [lia|done].
      * rewrite values_new_pc. apply Exists_fmap.
        eapply Exists_impl; [exact Hex'|]. done.
  - left. apply forallb_false_elem in B as (g & Hg & Hb).
    assert (uneven_group ps) as Hun by (by eapply not_broadcastable_uneven).
    split; [done|].
    apply combinations_mismatch. by exists g.
Qed.

End Outcome.

Section Diagonals.

Lemma selected_some (ix : list Np.slicer) :
  ∀ (idx : list nat) (c : nat),
    Np.selected ix idx (Some c) = true ↔
    ∀ p n i, ix !! p = Some (Np.Range n) → idx !! p = Some i → i = c.
Proof.
  induction ix as [|s ix IH]; intros idx c.
  - split; [|done]. intros _ p n i H. by rewrite lookup_nil in H.
  - destruct idx as [|i0 idx].
    + destruct s as [|m]; (split; [|done]); intros _ p n i _ H;
        by rewrite lookup_nil in H.
    + destruct s as [|m]; cbn [Np.selected].
      * rewrite IH. split.
        -- intros H [|p] n i Hp Hi; [done|]. by eapply (H p).
        -- intros H p n i Hp Hi. by eapply (H (S p)).
      * rewrite andb_true_iff, Nat.eqb_eq, IH. split.
        -- intros [-> H] [|p] n i Hp Hi; [by injection Hi|]. by eapply (H p).
        -- intros H. split; [by eapply (H 0)|].
           intros p n i Hp Hi. by eapply (H (S p)).
Qed.

Lemma selected_none (ix : list Np.slicer) :
  ∀ idx : list nat,
    Np.selected ix idx None = true ↔
    ∀ p q np nq i j,
      ix !! p = Some (Np.Range np) → ix !! q = Some (Np.Range nq) →
      idx !! p = Some i → idx !! q = Some j → i = j.
Proof.
  induction ix as [|s ix IH]; intros idx.
  - split; [|done]. intros _ p q np nq i j H. by rewrite lookup_nil in H.
  - destruct idx as [|i0 idx].
    + destruct s as [|m]; (split; [|done]); intros _ p q np nq i j _ _ H;
        by rewrite lookup_nil in H.
    + destruct s as [|m]; cbn [Np.selected].
      * rewrite IH. split.
        -- intros H [|p] [|q] np nq i j Hp Hq Hi Hj; try done.
           by eapply (H p q).
        -- intros H p q np nq i j Hp Hq Hi Hj. by eapply (H (S p) (S q)).
      * rewrite selected_some. split.
        -- intros H [|p] [|q] np nq i j Hp Hq Hi Hj.
           ++ injection Hi as <-. by injection Hj as <-.
           ++ injection Hi as <-. symmetry. by eapply (H q).
           ++ injection Hj as <-. by eapply (H p).
           ++ rewrite (H p np i Hp Hi). symmetry. by eapply (H q).
        -- intros H p n i Hp Hi. by eapply (H (S p) 0).
Qed.

Lemma lookup_combine {A B} (l : list A) (k : list B) (i : nat) (a : A) (b : B) :
  combine l k !! i = Some (a, b) ↔ l !! i = Some a ∧ k !! i = Some b.
Proof.
  revert k i. induction l as [|x l IH]; intros [|y k] [|i]; cbn;
    try (split; [done|by intros []]).
  - split; [by intros [= -> ->]|by intros [[= ->] [= ->]]].
  - apply IH.
Qed.

Lemma valid_index_diagonals (ps : dict) (idx : list nat) :
  valid_index (new_pc ps) idx = true ↔ on_diagonals (new_pc ps) idx.
Proof.
  unfold valid_index, on_diagonals.
  assert (Hsw : ∀ t g, zip_groups (new_pc ps) !! t = Some g →
                  ∃ n, swept (new_pc ps) !! t = Some (g, n)).
  { intros t g Hg. unfold swept.
    assert (t < length (shape (new_pc ps))) as Hlt
      by (rewrite <- length_zip_groups_shape; by eapply lookup_lt_Some).
    apply lookup_lt_is_Some in Hlt as [n Hn]. exists n.
    by apply lookup_combine. }
  assert (Hfst : ∀ t g n, swept (new_pc ps) !! t = Some (g, n) →
                   zip_groups (new_pc ps) !! t = Some g).
  { intros t g n. unfold swept. by intros [? _]%lookup_combine. }
  rewrite forallb_forall. split.
  - intros H t t' g i j Hg Ht Ht' Hi Hj.
    assert (Hsel : Np.selected (index_slicer (new_pc ps) (Some g)) idx None = true).
    { apply H. apply list_elem_of_In. by eapply list_elem_of_lookup_2. }
    rewrite selected_none in Hsel.
    destruct (Hsw _ _ Ht) as [n Hn]. destruct (Hsw _ _ Ht') as [n' Hn'].
    eapply (Hsel t t' n n'); try done;
      rewrite index_slicer_lookup, ?Hn, ?Hn'; cbn [fmap option_fmap option_map fst snd];
      by rewrite in_zip_group_same.
  - intros H g' _. apply selected_none.
    intros p q np nq i j Hp Hq Hi Hj.
    rewrite index_slicer_lookup in Hp, Hq.
    destruct (swept (new_pc ps) !! p) as [[gp mp]|] eqn:Ep; [|done].
    destruct (swept (new_pc ps) !! q) as [[gq mq]|] eqn:Eq; [|done].
    cbn [fmap option_fmap option_map fst snd] in Hp, Hq.
    destruct (in_zip_group gp g') eqn:Ip; [|done].
    destruct (in_zip_group gq g') eqn:Iq; [|done].
    apply in_zip_group_eq in Ip as (-> & Hn & He).
    apply in_zip_group_eq in Iq as (-> & _ & _).
    destruct g' as [g|]; [|done].
    apply (H p q g i j); try done; [by intros ->| |]; by eapply Hfst.
Qed.

End Diagonals.

Section Assignment.

Lemma set_new (k : string) (v : value) (d : dict) :
  k ∉ Py.keys d → Py.set k v d = d ++ [(k, v)].
Proof.
  unfold Py.keys. induction d as [|[k' v'] d IH]; intros H; [done|].
  cbn [Py.set map fst] in *. apply not_elem_of_cons in H as [Hne H].
  apply String.eqb_neq in Hne. rewrite Hne. cbn [app]. by rewrite IH.
Qed.

Lemma update_nodup (l acc : dict) :
  NoDup (Py.keys acc ++ Py.keys l) → Py.update acc l = acc ++ l.
Proof.
  unfold Py.update. revert acc. induction l as [|[k v] l IH]; intros acc H.
  - by rewrite app_nil_r.
  - cbn [fold_left fst snd].
    assert (k ∉ Py.keys acc) as Hk.
    { apply NoDup_app in H as (_ & Hd & _). intros Hin.
      apply (Hd k Hin). by left. }
    rewrite (set_new _ _ _ Hk), IH.
    + by rewrite <- app_assoc.
    + unfold Py.keys in *. rewrite map_app. cbn [map fst app] in *.
      by rewrite <- app_assoc.
Qed.

Lemma keys_combine (names : list string) (t : list value) :
  length t = length names → Py.keys (combine names t) = names.
Proof.
  unfold Py.keys. revert t. induction names as [|n names IH]; intros [|x t] H;
    try done. cbn [combine map fst]. rewrite IH; [done|]. by injection H.
Qed.

Lemma dict_zip_nodup (names : list string) (t : list value) :
  NoDup names → length t = length names →
  Py.dict_zip names t = combine names t.
Proof.
  intros Hn Hl. unfold Py.dict_zip. rewrite update_nodup; [done|].
  cbn [Py.keys map app]. by rewrite keys_combine.
Qed.

Lemma get_nodup (d : dict) (k : string) (x : value) :
  NoDup (Py.keys d) → (k, x) ∈ d → Py.get k d = Some x.
Proof.
  unfold Py.keys. induction d as [|[k' v'] d IH]; intros Hn Hin.
  - by apply elem_of_nil in Hin.
  - cbn [map fst] in Hn. apply NoDup_cons in Hn as [Hk Hn]. cbn [Py.get].
    apply elem_of_cons in Hin as [[= -> ->]|Hin].
    + by rewrite String.eqb_refl.
    + destruct (String.eqb k k') eqn:E; [|by apply IH].
      apply String.eqb_eq in E as ->. destruct Hk.
      apply list_elem_of_fmap. by exists (k', x).
Qed.

Lemma product_elem {A} (vals : list (list A)) (t : list A) :
  t ∈ Py.product vals → Forall2 (fun x v => x ∈ v) t vals.
Proof.
  revert t. induction vals as [|v vals IH]; intros t; cbn [Py.product].
  - intros ->%list_elem_of_singleton. constructor.
  - intros H. apply list_elem_of_In, in_flat_map in H as (x & Hx & H).
    apply in_map_iff in H as (t' & <- & Ht').
    constructor; [by apply list_elem_of_In|]. apply IH. by apply list_elem_of_In.
Qed.

End Assignment.

Section CombinationProperties.

(** X4. The outcome of the computation of combinations is decided by the
    mapping: it raises the mismatch error exactly when two swept members
    of one zip group (with a non-empty modifier) differ in length; failing
    that, it raises the index error exactly when some parameter has an
    empty list of values; and it returns combinations exactly when
    neither is the case. *)
Theorem combinations_outcome (ps : dict) :
  (combinations (new_pc ps) = Raise (ValueError mismatch_msg) ↔ uneven_group ps) ∧
  (combinations (new_pc ps) = Raise IndexError ↔
     ¬ uneven_group ps ∧
     Exists (fun kv : string * value => as_list kv.2 = []) ps) ∧
  (Res.is_ok (combinations (new_pc ps)) = true ↔
     ¬ uneven_group ps ∧
     Forall (fun kv : string * value => as_list kv.2 ≠ []) ps).
Proof.
  assert (Hex : Exists (fun kv : string * value => as_list kv.2 = []) ps →
                Forall (fun kv : string * value => as_list kv.2 ≠ []) ps → False).
  { intros (kv & Hin & He)%Exists_exists Hall.
    rewrite Forall_forall in Hall. by apply (Hall kv). }
  destruct (combinations_cases ps) as [[Hu ->]|[(Hn & He & ->)|(Hn & Ha & ->)]].
  - repeat split; try done; by intros [].
  - repeat split; try done. by intros [_ ?%Hex].
  - repeat split; try done. by intros [_ ?%Hex].
Qed.

(** X5. Whenever the computation of combinations succeeds, it returns the
    combinations of the multi-indices over the swept parameters, in
    row-major order, at which the members of every zip group with a
    non-empty modifier sit at one and the same position. *)
Theorem zip_groups_share_position (ps : dict) (cs : list dict) :
  combinations (new_pc ps) = Ok cs →
  cs = map (combo_at (new_pc ps))
         (filter (fun idx => valid_index (new_pc ps) idx)
            (Np.indices (shape (new_pc ps)))) ∧
  ∀ idx, valid_index (new_pc ps) idx = true ↔ on_diagonals (new_pc ps) idx.
Proof.
  intros H. split; [|apply valid_index_diagonals].
  destruct (combinations_cases ps) as [[_ E]|[(_ & _ & E)|(_ & _ & E)]];
    rewrite E in H; by inversion H.
Qed.

Lemma zip_groups_share_position_witness :
  ∃ cs,
    combinations (new_pc Examples.zip_corner_free) = Ok cs ∧
    cs = map (combo_at (new_pc Examples.zip_corner_free))
           (filter (fun idx => valid_index (new_pc Examples.zip_corner_free) idx)
              (Np.indices (shape (new_pc Examples.zip_corner_free)))) ∧
    ∀ idx, valid_index (new_pc Examples.zip_corner_free) idx = true ↔
           on_diagonals (new_pc Examples.zip_corner_free) idx.
Proof.
  eexists. split; [vm_compute; reflexivity|].
  apply zip_groups_share_position. vm_compute. reflexivity.
Defined.

(** X6. A successful computation returns at least one combination, and
    its result is a sub-sequence of the cartesian product of the value
    lists, each tuple of the product made a mapping under the pure
    names: nothing is invented, repeated or reordered. *)
Theorem combinations_from_product (ps : dict) (cs : list dict) :
  combinations (new_pc ps) = Ok cs →
  cs ≠ [] ∧
  cs `sublist_of`
    map (Py.dict_zip (map pure_name (Py.keys ps)))
        (Py.product (map as_list (Py.values ps))).
Proof.
  intros H. split; [by eapply combinations_nonempty|].
  apply combinations_sublist in H. unfold all_combinations in H.
  rewrite pure_names_new_pc, values_new_pc in H.
  unfold Py.keys, Py.values. by rewrite !map_map.
Qed.

Lemma combinations_from_product_witness :
  ∃ cs,
    combinations (new_pc Examples.zip_corner) = Ok cs ∧
    cs ≠ [] ∧
    cs `sublist_of`
      map (Py.dict_zip (map pure_name (Py.keys Examples.zip_corner)))
          (Py.product (map as_list (Py.values Examples.zip_corner))).
Proof.
  eexists. split; [vm_compute; reflexivity|].
  apply combinations_from_product. vm_compute. reflexivity.
Defined.

(** X7. When the pure names of the parameters are distinct, every
    returned combination has exactly these names as its keys, in the
    order of the parameters, and gives every parameter one of the values
    of its list. *)
Theorem combinations_assign_values (ps : dict) (cs : list dict) (c : dict) :
  NoDup (map (fun kv : string * value => pure_name kv.1) ps) →
  combinations (new_pc ps) = Ok cs → c ∈ cs →
  Py.keys c = map (fun kv : string * value => pure_name kv.1) ps ∧
  ∀ k v, (k, v) ∈ ps →
    ∃ x, x ∈ as_list v ∧ Py.get (pure_name k) c = Some x.
Proof.
  intros Hn H Hc. apply combinations_sublist in H.
  apply (elem_of_sublist _ _ _ Hc) in H. rename H into Hc'.
  unfold all_combinations in Hc'. clear Hc. rename Hc' into Hc.
  rewrite pure_names_new_pc, values_new_pc in Hc.
  apply list_elem_of_fmap in Hc as (t & -> & Ht).
  apply product_elem in Ht.
  assert (Hlen : length t = length (map (fun kv : string * value => pure_name kv.1) ps)).
  { apply Forall2_length in Ht. by rewrite Ht, !length_map. }
  rewrite dict_zip_nodup by done. split; [by apply keys_combine|].
  intros k v Hin. apply list_elem_of_lookup in Hin as [i Hi].
  assert (Hv : map (fun kv : string * value => as_list kv.2) ps !! i = Some (as_list v))
    by (by rewrite list_lookup_fmap, Hi).
  destruct (Forall2_lookup_r _ _ _ _ _ Ht Hv) as (x & Hx & Hxin).
  exists x. split; [done|].
  apply get_nodup; [by rewrite keys_combine|].
  apply list_elem_of_lookup. exists i. apply lookup_combine. split; [|done].
  by rewrite list_lookup_fmap, Hi.
Qed.

Lemma combinations_assign_values_witness :
  NoDup (map (fun kv : string * value => pure_name kv.1) Examples.zip_corner) ∧
  ∃ cs c,
    combinations (new_pc Examples.zip_corner) = Ok cs ∧ c ∈ cs ∧
    Py.keys c = map (fun kv : string * value => pure_name kv.1) Examples.zip_corner ∧
    ∀ k v, (k, v) ∈ Examples.zip_corner →
      ∃ x, x ∈ as_list v ∧ Py.get (pure_name k) c = Some x.
Proof.
  assert (Hn : NoDup (map (fun kv : string * value => pure_name kv.1)
                        Examples.zip_corner)).
  { apply (bool_decide_unpack _). vm_compute. exact I. }
  split; [exact Hn|].
  eexists _, _. split; [vm_compute; reflexivity|]. split; [left|].
  eapply (combinations_assign_values _ _ _ Hn); [vm_compute; reflexivity|left].
Defined.

End CombinationProperties.

Section Coordinates.


Lemma nth_nil_0 (n : nat) : nth n (@nil nat) 0 = 0.
Proof. by destruct n. Qed.







End Coordinates.

Section CombinationClaims.







(** Parameters that share their pure name overwrite each other in every
    combination, whether they are swept or tied in a zip group: the
    number of combinations is unchanged, the values of the earlier
    parameter are lost. *)
Example combinations_shared_name :
  combinations (new_pc Examples.shared_name) =
    Ok (map (fun z : Z => [("a", VInt z)]) [3; 4; 3; 4]%Z) ∧
  combinations (new_pc Examples.shared_zip) =
    Ok (map (fun z : Z => [("a", VInt z)]) [3; 4]%Z).
Proof. split; vm_compute; reflexivity. Qed.




End CombinationClaims.

Section IndexKeys.

Lemma index_key_inj (l l' : nat) : index_key l = index_key l' → l = l'.
Proof.
  unfold index_key, Py.str_nat. intros H.
  apply (String.app_inj "__index_") in H.
  apply Unsigned.to_uint_inj.
  assert (Some (Nat.to_uint l) = Some (Nat.to_uint l')) as [= E]; [|done].
  by rewrite <- !NilEmpty.usu, H.
Qed.

Lemma get_update (k : string) (l acc : dict) :
  is_Some (Py.get k (Py.update acc l)) ↔
  is_Some (Py.get k acc) ∨ k ∈ Py.keys l.
Proof.
  unfold Py.update, Py.keys. revert acc.
  induction l as [|[k' v'] l IH]; intros acc; cbn [fold_left map fst snd].
  - split; [by left|]. intros [H|H]; [done|]. by apply elem_of_nil in H.
  - rewrite IH. destruct (decide (k' = k)) as [->|Hne].
    + rewrite get_set. split; [intros _; right; by left|intros _; left; by eexists].
    + rewrite get_set_ne by done. split.
      * intros [H|H]; [by left|right; by right].
      * intros [H|H]; [by left|].
        apply elem_of_cons in H as [->|H]; [done|by right].
Qed.

Lemma get_dict_zip (k : string) (names : list string) (t : list value) :
  length t = length names →
  is_Some (Py.get k (Py.dict_zip names t)) ↔ k ∈ names.
Proof.
  intros H. unfold Py.dict_zip. rewrite get_update, keys_combine by done.
  split; [intros [[? ?]|?]; done|by right].
Qed.

(** The keys of a returned combination are the pure names. *)
Lemma combination_keys (ps : dict) (cs : list dict) (c : dict) (k : string) :
  combinations (new_pc ps) = Ok cs → c ∈ cs →
  is_Some (Py.get k c) ↔ k ∈ map pure_name (Py.keys ps).
Proof.
  intros H Hc. apply combinations_sublist in H.
  apply (elem_of_sublist _ _ _ Hc) in H. unfold all_combinations in H.
  rewrite pure_names_new_pc, values_new_pc in H.
  apply list_elem_of_fmap in H as (t & -> & Ht). apply product_elem in Ht.
  unfold Py.keys. rewrite map_map. apply get_dict_zip.
  apply Forall2_length in Ht. by rewrite Ht, !length_map.
Qed.

Lemma mapM_first_raise {A B} (f : A → result B) (l1 l2 : list A) (x : A) (e : exn) :
  (∀ y, y ∈ l1 → Res.is_ok (f y) = true) → f x = Raise e →
  mapM f (l1 ++ x :: l2) = Raise e.
Proof.
  intros H Hx. induction l1 as [|y l1 IH]; cbn.
  - by rewrite Hx.
  - assert (Hy := H y (list_elem_of_here _ _)).
    destruct (f y); [|done|done]. cbn. rewrite IH; [done|].
    intros z Hz. apply H. by right.
Qed.

Lemma enumerate_lookup {A} (l : list A) (j : nat) (x : A) :
  l !! j = Some x → enumerate l !! j = Some (j, x).
Proof.
  intros H. unfold enumerate. apply lookup_combine. split; [|done].
  apply lookup_seq. split; [done|]. by eapply lookup_lt_Some.
Qed.

Lemma enumerate_lookup_inv {A} (l : list A) (j i : nat) (x : A) :
  enumerate l !! j = Some (i, x) → i = j ∧ l !! j = Some x.
Proof.
  unfold enumerate. intros [Hs Hl]%lookup_combine.
  apply lookup_seq in Hs as [-> _]. done.
Qed.

End IndexKeys.

Section IndexedCombinations.

(** The level index of a combination is its position. *)
Lemma indexed_position (pc : ParameterCombination) (i_level : nat)
    (cs : list dict) :
  _get_indexed_combinations pc i_level None = Ok cs →
  ∃ cs0,
    combinations pc = Ok cs0 ∧ length cs = length cs0 ∧
    ∀ j c, cs !! j = Some c →
      Py.get (index_key i_level) c = Some (VInt (Z.of_nat j)) ∧
      ∃ c0, cs0 !! j = Some c0 ∧
            ∀ k, k ≠ index_key i_level → Py.get k c = Py.get k c0.
Proof.
  unfold _get_indexed_combinations.
  destruct (combinations pc) as [cs0| |]; cbn [mbind result_bind Res.bind];
    [|done|done].
  intros H. exists cs0. split; [done|].
  pose proof (mapM_length _ _ _ H) as Hlen.
  unfold enumerate in Hlen at 1.
  rewrite length_combine, length_seq, Nat.min_id in Hlen.
  split; [done|]. intros j c Hj.
  apply mapM_result_Forall2 in H.
  destruct (Forall2_lookup_r _ _ _ _ _ H Hj) as ([i c0] & Hic & Hf).
  apply enumerate_lookup_inv in Hic as [-> Hc0]. cbn [fst snd] in Hf.
  injection Hf as <-. split; [apply get_set|].
  exists c0. split; [done|]. intros k Hk. by rewrite get_set_ne.
Qed.

(** X8. Without a test index, [_get_indexed_combinations] returns the
    combinations of the parameter combination, each with its position
    stored under [__index_<level>] and nothing else changed. *)
Theorem level_index_is_position (pc : ParameterCombination) (i_level : nat)
    (cs : list dict) :
  _get_indexed_combinations pc i_level None = Ok cs →
  ∃ cs0,
    combinations pc = Ok cs0 ∧ length cs = length cs0 ∧
    ∀ j c, cs !! j = Some c →
      Py.get (index_key i_level) c = Some (VInt (Z.of_nat j)) ∧
      ∃ c0, cs0 !! j = Some c0 ∧
            ∀ k, k ≠ index_key i_level → Py.get k c = Py.get k c0.
Proof. apply indexed_position. Qed.

Lemma level_index_is_position_witness :
  ∃ cs,
    _get_indexed_combinations (new_pc Examples.zip_corner) 2 None = Ok cs ∧
    ∃ cs0,
      combinations (new_pc Examples.zip_corner) = Ok cs0 ∧
      length cs = length cs0 ∧
      ∀ j c, cs !! j = Some c →
        Py.get (index_key 2) c = Some (VInt (Z.of_nat j)) ∧
        ∃ c0, cs0 !! j = Some c0 ∧
              ∀ k, k ≠ index_key 2 → Py.get k c = Py.get k c0.
Proof.
  eexists. split; [vm_compute; reflexivity|].
  apply level_index_is_position. vm_compute. reflexivity.
Defined.

(** X9. With a test index, [_get_indexed_combinations] needs the indices
    of all levels below [i_level] among the parameters. If they are
    there, every combination gets its position under
    [__index_<i_level>], the list of the values stored under
    [__index_0] to [__index_<i_level>] under [__index], and the test
    index under [__index_test]. If not, the call raises the key error
    for the lowest level that is missing. *)
Theorem test_index_needs_levels (ps : dict) (i_level t : nat) (cs0 : list dict) :
  combinations (new_pc ps) = Ok cs0 →
  ((∀ l, l < i_level → index_key l ∈ map pure_name (Py.keys ps)) →
   ∃ cs,
     _get_indexed_combinations (new_pc ps) i_level (Some t) = Ok cs ∧
     length cs = length cs0 ∧
     ∀ j c, cs !! j = Some c →
       Py.get (index_key i_level) c = Some (VInt (Z.of_nat j)) ∧
       Py.get "__index_test" c = Some (VInt (Z.of_nat t)) ∧
       ∃ ix, Py.get "__index" c = Some (VList ix) ∧
             length ix = i_level + 1 ∧
             ∀ l, l ≤ i_level → Py.get (index_key l) c = ix !! l) ∧
  (∀ l0, l0 < i_level →
     index_key l0 ∉ map pure_name (Py.keys ps) →
     (∀ l, l < l0 → index_key l ∈ map pure_name (Py.keys ps)) →
     _get_indexed_combinations (new_pc ps) i_level (Some t)
       = Raise (KeyError (index_key l0))).
Proof.
  intros Hcs.
  assert (Hkeys : ∀ j c0 l, cs0 !! j = Some c0 → l ≠ i_level →
            (is_Some (Py.get (index_key l)
                        (Py.set (index_key i_level) (VInt (Z.of_nat j)) c0)) ↔
             index_key l ∈ map pure_name (Py.keys ps))).
  { intros j c0 l Hj Hl. rewrite get_set_ne by (intros E; by apply index_key_inj in E).
    eapply combination_keys; [done|]. by eapply list_elem_of_lookup_2. }
  unfold _get_indexed_combinations. rewrite Hcs.
  cbn [mbind result_bind Res.bind]. split.
  - intros Hall.
    set (step := fun ic : nat * dict =>
           let c := Py.set (index_key i_level) (VInt (Z.of_nat ic.1)) ic.2 in
           Py.set "__index_test" (VInt (Z.of_nat t))
             (Py.set "__index"
                (VList (map (fun l => default VNone (Py.get (index_key l) c))
                          (seq 0 (i_level + 1)))) c)).
    exists (map step (enumerate cs0)). split; [|split].
    + apply mapM_result_ok. intros [j c0] Hin. cbn [fst snd].
      apply list_elem_of_lookup in Hin as [j' Hin].
      apply enumerate_lookup_inv in Hin as [-> Hc0].
      rewrite (mapM_result_ok _
        (fun l => default VNone (Py.get (index_key l)
           (Py.set (index_key i_level) (VInt (Z.of_nat j')) c0)))); [done|].
      intros l Hl. apply list_elem_of_In, in_seq in Hl. unfold getitem.
      destruct (decide (l = i_level)) as [->|Hne]; [by rewrite get_set|].
      assert (is_Some (Py.get (index_key l)
                (Py.set (index_key i_level) (VInt (Z.of_nat j')) c0))) as [x ->];
        [|done].
      apply (Hkeys j' c0 l Hc0 Hne). apply Hall. lia.
    + unfold enumerate. by rewrite length_map, length_combine, length_seq, Nat.min_id.
    + intros j c Hj. rewrite list_lookup_fmap in Hj.
      destruct (enumerate cs0 !! j) as [[i c0]|] eqn:E; [|done].
      apply enumerate_lookup_inv in E as [-> Hc0]. injection Hj as <-.
      unfold step. cbn [fst snd].
      destruct (index_key_other i_level) as (N1 & N2 & _).
      split; [by rewrite !get_set_ne, get_set by done|].
      split; [apply get_set|].
      eexists. split; [rewrite get_set_ne by done; apply get_set|].
      split; [by rewrite length_map, length_seq|].
      intros l Hl. destruct (index_key_other l) as (M1 & M2 & _).
      rewrite !get_set_ne by done.
      rewrite list_lookup_fmap, lookup_seq_lt by lia. cbn.
      destruct (decide (l = i_level)) as [->|Hne]; [by rewrite get_set|].
      assert (is_Some (Py.get (index_key l)
                (Py.set (index_key i_level) (VInt (Z.of_nat j)) c0))) as [x ->];
        [|done].
      apply (Hkeys j c0 l Hc0 Hne). apply Hall. lia.
  - intros l0 Hl0 Hmiss Hbelow.
    destruct cs0 as [|c0 cs0'] eqn:Ecs; [by apply combinations_nonempty in Hcs|].
    assert (Hseq : seq 0 (i_level + 1) = seq 0 l0 ++ l0 :: seq (S l0) (i_level - l0)).
    { replace (i_level + 1) with (l0 + S (i_level - l0)) by lia.
      by rewrite seq_app. }
    unfold enumerate. cbn [length seq combine mapM]. cbn [fst snd].
    rewrite Hseq.
    rewrite (mapM_first_raise _ _ _ l0 (KeyError (index_key l0))); [done| |].
    + intros l Hl. apply list_elem_of_In, in_seq in Hl. unfold getitem.
      assert (is_Some (Py.get (index_key l)
                (Py.set (index_key i_level) (VInt (Z.of_nat 0)) c0))) as [x ->];
        [|done].
      apply (Hkeys 0 c0 l); [done|lia|]. apply Hbelow. lia.
    + unfold getitem.
      destruct (Py.get (index_key l0) _) as [x|] eqn:E; [|done].
      destruct Hmiss. apply (Hkeys 0 c0 l0); [done|lia|by eexists].
Qed.

Lemma test_index_needs_levels_witness :
  (∃ cs0,
     combinations (new_pc Examples.indexed_test) = Ok cs0 ∧
     (∀ l, l < 1 → index_key l ∈ map pure_name (Py.keys Examples.indexed_test)) ∧
     ∃ cs,
       _get_indexed_combinations (new_pc Examples.indexed_test) 1 (Some 3) = Ok cs ∧
       length cs = length cs0) ∧
  (∃ cs0,
     combinations (new_pc Examples.unindexed_test) = Ok cs0 ∧
     0 < 1 ∧ (index_key 0 ∉ map pure_name (Py.keys Examples.unindexed_test)) ∧
     _get_indexed_combinations (new_pc Examples.unindexed_test) 1 (Some 3)
       = Raise (KeyError (index_key 0))).
Proof.
  split.
  - eexists. split; [vm_compute; reflexivity|].
    assert (Hall : ∀ l, l < 1 → index_key l ∈ map pure_name (Py.keys Examples.indexed_test)).
    { intros l Hl. replace l with 0 by lia. vm_compute. right. left. }
    split; [exact Hall|].
    destruct (test_index_needs_levels Examples.indexed_test 1 3 _ eq_refl) as [Hok _].
    destruct (Hok Hall) as (cs & Hcs & Hlen & _). by exists cs.
  - eexists. split; [vm_compute; reflexivity|].
    assert (Hlt : 0 < 1) by lia.
    assert (Hmiss : index_key 0 ∉ map pure_name (Py.keys Examples.unindexed_test)).
    { vm_compute. intros H. apply list_elem_of_In in H. simpl in H.
      intuition discriminate. }
    split; [exact Hlt|]. split; [exact Hmiss|].
    destruct (test_index_needs_levels Examples.unindexed_test 1 3 _ eq_refl) as [_ Hraise].
    apply (Hraise 0 Hlt Hmiss). intros l Hl. lia.
Defined.

End IndexedCombinations.

Section ValidSpecifications.

Lemma has_dict_value_found h (cs : list pdict) (vs : list value) :
  Forall2 (fun c v => rep h (PDict c) v) cs vs →
  existsb (has_dict_value h) vs = true →
  ∃ c, c ∈ cs ∧ pdict_children c ≠ [].
Proof.
  induction 1 as [|c v cs vs Hr _ IH]; [done|]. cbn [existsb].
  rewrite (has_dict_value_rep _ _ _ Hr).
  destruct (bool_decide (pdict_children c = [])) eqn:E; cbn [negb orb].
  - intros (c' & Hc & Hn)%IH. exists c'. split; [by right|done].
  - intros _. exists c. split; [by left|]. by apply bool_decide_eq_false in E.
Qed.

Lemma check_validity_loop_cases (fuel : nat) :
  ∀ (d : pdict) h v,
    rep h (PDict d) v → dict_depth (PDict d) ≤ fuel →
    check_validity_loop fuel h v = Ok tt ∨
    ∃ l, below d l ∧ parallel_level l.
Proof.
  induction fuel as [|fuel IH]; intros d h v Hrep Hfuel;
    [cbn in Hfuel; lia|].
  destruct (rep_items _ _ _ Hrep) as (kvs & Hi & HF).
  apply children_rep in HF.
  rewrite check_validity_loop_S, Hi, result_bind_ok. cbv zeta.
  destruct (existsb (truthy h) (dict_children kvs)); [|by left].
  destruct ((1 <? length (dict_children kvs)) &&
            existsb (has_dict_value h) (dict_children kvs)) eqn:E.
  - apply andb_true_iff in E as [Hlen Hex]. apply Nat.ltb_lt in Hlen.
    destruct (has_dict_value_found _ _ _ HF Hex) as (c & Hc & Hn).
    right. exists d. split; [apply below_here|]. split; [|by exists c].
    by rewrite (Forall2_length _ _ _ HF).
  - inversion HF as [|c vc cs vs Hr HF' Heq1 Heq2]; [by left|].
    assert (c ∈ pdict_children d) as Hin by (rewrite <- Heq1; by left).
    pose proof (dict_depth_child _ _ Hin).
    destruct (IH c h vc Hr) as [Hok|(l & Hb & Hp)]; [lia|by left|].
    right. exists l. split; [by eapply below_child|done].
Qed.

End ValidSpecifications.

Section ValidityProperties.

(** X10. For a specification whose entry point is a mapping,
    [check_validity] accepts it exactly when no level below the entry
    point (the entry point's own mapping included) has more than one
    child mapping of which one nests a mapping, and raises the error of
    parallel outer loops exactly when there is such a level. *)
Theorem check_validity_decides (spec m : pdict) :
  pget "main" spec = Some (PDict m) →
  (check_validity (dict_depth (PDict spec))
     (load (PDict spec) []).2 (load (PDict spec) []).1 = Ok tt ↔
   ∀ l, below m l → ¬ parallel_level l) ∧
  (check_validity (dict_depth (PDict spec))
     (load (PDict spec) []).2 (load (PDict spec) []).1
     = Raise (ValueError parallel_msg) ↔
   ∃ l, below m l ∧ parallel_level l).
Proof.
  intros Hmain.
  destruct (load (PDict spec) []) as [root h] eqn:Hload. cbn [fst snd].
  destruct (main_rep _ _ _ _ Hload Hmain) as (kvs & v & Hi & Hget & Hrep & Hdepth).
  assert (Hpar : ∀ l, below m l → parallel_level l →
            check_validity (dict_depth (PDict spec)) h root
              = Raise (ValueError parallel_msg)).
  { intros l Hb Hp. by eapply check_validity_parallel. }
  assert (Hcases : check_validity (dict_depth (PDict spec)) h root = Ok tt ∨
                   ∃ l, below m l ∧ parallel_level l).
  { unfold check_validity. rewrite Hi, result_bind_ok, Hget.
    by eapply check_validity_loop_cases. }
  split; split.
  - intros E l Hb Hp. rewrite (Hpar l Hb Hp) in E. done.
  - intros Hno. destruct Hcases as [Hok|(l & Hb & Hp)]; [done|].
    by destruct (Hno l Hb).
  - intros E. destruct Hcases as [Hok|Hex]; [|done]. by rewrite Hok in E.
  - intros (l & Hb & Hp). by eapply Hpar.
Qed.

Lemma check_validity_decides_witness :
  pget "main" Examples.parallel_loops = Some (PDict Examples.parallel_main) ∧
  (check_validity (dict_depth (PDict Examples.parallel_loops))
     (load (PDict Examples.parallel_loops) []).2
     (load (PDict Examples.parallel_loops) []).1
     = Raise (ValueError parallel_msg) ↔
   ∃ l, below Examples.parallel_main l ∧ parallel_level l).
Proof.
  assert (H : pget "main" Examples.parallel_loops =
              Some (PDict Examples.parallel_main)) by reflexivity.
  split; [exact H|].
  exact (proj2 (check_validity_decides _ _ H)).
Defined.

End ValidityProperties.

Section Returns.

Lemma M_bind_ok {A B} (m : M A) (f : A → M B) (h h' : heap) (b : B) :
  (m ≫= f) h = (Ok b, h') →
  ∃ a h1, m h = (Ok a, h1) ∧ f a h1 = (Ok b, h').
Proof.
  rewrite M_bind_eq. destruct (m h) as [[a|e|] h1]; [|done|done].
  intros H. by exists a, h1.
Qed.

Lemma lift_ok {A} (r : result A) (h h' : heap) (a : A) :
  St.lift r h = (Ok a, h') → r = Ok a ∧ h' = h.
Proof. unfold St.lift. by intros [= -> ->]. Qed.

Lemma ret_ok {A} (x a : A) (h h' : heap) :
  (mret x : M A) h = (Ok a, h') → a = x ∧ h' = h.
Proof. by intros [= -> ->]. Qed.

Lemma except_ok {A} (body : M A) (e : exn) (h h' : heap) (a : A) :
  St.except_type_key body e h = (Ok a, h') → body h = (Ok a, h').
Proof.
  unfold St.except_type_key. destruct (body h) as [[x|[]|] h1]; done.
Qed.

Lemma fill_entry_resolved ps v h x h' :
  fill_entry ps v h = (Ok x, h') → resolved x = true.
Proof.
  unfold fill_entry. destruct v; try (by intros [= <- _]);
    intros H%except_ok;
    apply M_bind_ok in H as (h0 & ? & _ & H);
    apply M_bind_ok in H as (p & ? & _ & H);
    apply M_bind_ok in H as ([? p1] & ? & _ & H);
    apply M_bind_ok in H as ([? p2] & ? & _ & H);
    apply M_bind_ok in H as (h1 & ? & _ & H);
    apply M_bind_ok in H as (p3 & ? & _ & H);
    apply M_bind_ok in H as (c & ? & _ & H);
    by apply ret_ok in H as [-> _].
Qed.

Lemma fill_entries_resolved ps vs :
  ∀ h out h', fill_entries ps vs h = (Ok out, h') →
              Forall (fun x => resolved x = true) out ∧ length out = length vs.
Proof.
  induction vs as [|v vs IH]; intros h out h' H; cbn [fill_entries] in H.
  - apply ret_ok in H as [-> _]. by split.
  - apply M_bind_ok in H as (x & h1 & Hx & H).
    apply M_bind_ok in H as (xs & h2 & Hxs & H).
    apply ret_ok in H as [-> _]. apply fill_entry_resolved in Hx.
    destruct (IH _ _ _ Hxs) as [HF Hl]. split; [by constructor|].
    cbn. by rewrite Hl.
Qed.

Lemma fill_template_resolved ps vs h out h' :
  fill_template ps vs h = (Ok out, h') →
  Forall (fun x => resolved x = true) out.
Proof.
  unfold fill_template. destruct vs; try (by intros [= <- _]);
    intros H;
    apply M_bind_ok in H as (h0 & ? & _ & H);
    apply M_bind_ok in H as (flat & ? & _ & H);
    by apply fill_entries_resolved in H as [? _].
Qed.

Lemma resolve_tests_length ps ts :
  ∀ h out h', resolve_tests ps ts h = (Ok out, h') → length out = length ts.
Proof.
  induction ts as [|t ts IH]; intros h out h' H; cbn [resolve_tests] in H.
  - by apply ret_ok in H as [-> _].
  - apply M_bind_ok in H as (x & h1 & Hx & H).
    apply M_bind_ok in H as (xs & h2 & Hxs & H).
    apply ret_ok in H as [-> _]. cbn. by rewrite (IH _ _ _ Hxs).
Qed.

(** What a skeleton that [extract_loop] returns is made of. *)
Lemma extract_loop_ok (fuel : nat) :
  ∀ ps v s t y i ocs h sk h',
    extract_loop fuel ps v s t y i ocs h = (Ok sk, h') →
    Forall (fun x => resolved x = true) (setups sk) ∧
    Forall (fun x => resolved x = true) (teardowns sk) ∧
    tests sk ≠ [] ∧
    (Forall (fun c : list dict => c ≠ []) ocs →
     Forall (fun c : list dict => c ≠ []) (outer_combinations sk)).
Proof.
  induction fuel as [|fuel IH]; intros ps v s t y i ocs h sk h' H; [done|].
  cbn [extract_loop] in H.
  apply M_bind_ok in H as ([su v1] & h1 & _ & H).
  apply M_bind_ok in H as ([td v2] & h2 & _ & H).
  apply M_bind_ok in H as ([yv v3] & h3 & _ & H).
  apply M_bind_ok in H as (h4 & ? & _ & H).
  apply M_bind_ok in H as (items & h5 & _ & H).
  apply M_bind_ok in H as (c & h6 & Hc & H).
  apply lift_ok in Hc as [Hc _].
  assert (Hne : c ≠ []).
  { unfold _get_indexed_combinations in Hc.
    destruct (combinations _) as [c0| |] eqn:E; cbn in Hc; [|done|done].
    apply combinations_nonempty in E. apply mapM_length in Hc.
    unfold enumerate in Hc. rewrite length_combine, length_seq, Nat.min_id in Hc.
    destruct c, c0; done. }
  destruct (dict_children items) as [|first rest] eqn:Ech; [done|].
  destruct (negb (has_dict_value h4 first)).
  - apply M_bind_ok in H as (ts & h7 & Hts & H).
    apply M_bind_ok in H as (ns & h8 & Hns & H).
    apply M_bind_ok in H as (nt & h9 & Hnt & H).
    apply ret_ok in H as [-> _]. cbn [setups teardowns tests outer_combinations].
    apply fill_template_resolved in Hns, Hnt.
    apply resolve_tests_length in Hts.
    repeat split; try done.
    + by destruct ts.
    + intros Hocs. apply Forall_app. split; [done|]. by constructor.
  - destruct (IH _ _ _ _ _ _ _ _ _ _ H) as (H1 & H2 & H3 & H4).
    repeat split; try done. intros Hocs. apply H4.
    apply Forall_app. split; [done|]. by constructor.
Qed.

(** A call that returns has extracted a skeleton and generated the
    sequence from it. *)
Lemma call_ok (spec : pdict) (out : list value) :
  outcome (call spec) = Ok out →
  ∃ sk, skeleton_of spec = Ok sk ∧
        generate (final_heap (call spec)) sk = Ok out ∧
        Forall (fun x => resolved x = true) (setups sk) ∧
        Forall (fun x => resolved x = true) (teardowns sk) ∧
        tests sk ≠ [] ∧
        Forall (fun c : list dict => c ≠ []) (outer_combinations sk).
Proof.
  unfold call, skeleton_of. destruct (load (PDict spec) []) as [root h].
  destruct (get_combinations _ root h) as [r hf] eqn:E. cbn [outcome final_heap].
  intros ->. unfold get_combinations in E.
  rewrite get_heap_bind_eq, lift_bind_eq in E.
  destruct (check_validity _ h root) as [[]| |]; [|done|done].
  apply M_bind_ok in E as (sk & h1 & Hsk & E).
  rewrite get_heap_bind_eq in E. apply lift_ok in E as [Hg ->].
  exists sk. rewrite Hsk. split; [done|]. split; [done|].
  unfold _extract_skeleton in Hsk.
  apply M_bind_ok in Hsk as (h0 & ? & _ & Hsk).
  apply M_bind_ok in Hsk as (d & ? & _ & Hsk).
  apply M_bind_ok in Hsk as (lvl & ? & _ & Hsk).
  destruct (extract_loop_ok _ _ _ _ _ _ _ _ _ _ _ Hsk) as (H1 & H2 & H3 & H4).
  repeat split; try done. by apply H4.
Qed.

End Returns.

Section Sequence.

Lemma test_events_shape h sk op i p s :
  test_events h sk op (i, p) = Ok s →
  ∃ su td cs,
    s = setup_event su :: map VDict cs ++ [teardown_event td] ∧
    cs ≠ [] ∧ Forall (fun c => is_Some (Py.get "__index_test" c)) cs.
Proof.
  unfold test_events.
  destruct (St.items h p) as [d| |]; cbn [mbind result_bind Res.bind]; [|done|done].
  destruct (Py.pop "setup" VNone d) as [su d1].
  destruct (Py.pop "teardown" VNone d1) as [td d2].
  destruct (Py.pop "yield" (yield_values sk) d2) as [y d3].
  destruct (_get_indexed_combinations _ _ _) as [cs| |] eqn:E;
    cbn [mbind result_bind Res.bind]; [|done|done].
  intros [= <-]. eexists su, td, _. split; [done|].
  pose proof (_get_indexed_combinations_nonempty _ _ _ _ E) as Hne.
  apply _get_indexed_combinations_test in E. split.
  - by destruct cs.
  - apply Forall_map. eapply Forall_impl; [exact E|].
    intros c Hc. cbn. by rewrite get_set_ne.
Qed.

Lemma elem_of_concat {A} (l : list (list A)) (y : A) :
  y ∈ concat l → ∃ x, y ∈ x ∧ x ∈ l.
Proof.
  intros H. apply list_elem_of_In, in_concat in H as (x & Hx & Hy).
  exists x. split; by apply list_elem_of_In.
Qed.

Lemma boundary_events_no_test op e s :
  boundary_events op e = Ok s →
  Forall (fun v => is_test_combination v = false) s.
Proof.
  unfold boundary_events. destruct e as [i [su td]].
  destruct (i =? 0)%nat; [by intros [= <-]|].
  destruct (outer_index op i) as [a| |]; cbn [mbind result_bind Res.bind]; [|done|done].
  destruct (Py.eq_zero a); [|by intros [= <-]].
  destruct (outer_index op (i - 1)) as [b| |]; cbn [mbind result_bind Res.bind]; [|done|done].
  destruct (negb (Py.eq_zero b)); intros [= <-]; by repeat constructor.
Qed.

(** The elements of a generated sequence that are test combinations
    come from the events of the tests. *)
Lemma generate_test_combination h sk out v :
  generate h sk = Ok out → v ∈ out → is_test_combination v = true →
  ∃ op i p s, (i, p) ∈ enumerate (tests sk) ∧
              test_events h sk op (i, p) = Ok s ∧ v ∈ s.
Proof.
  unfold generate.
  destruct (mapM (tuple_events _ _) _) as [body| |] eqn:E;
    cbn [mbind result_bind Res.bind]; [|done|done].
  intros [= <-] Hin Hv. cbn [app] in Hin.
  apply elem_of_cons in Hin as [->|Hin]; [done|].
  apply elem_of_app in Hin as [Hin|Hin];
    [|by apply list_elem_of_singleton in Hin as ->].
  apply elem_of_concat in Hin as (b1 & Hvb & Hb1).
  apply mapM_result_Forall2 in E.
  apply list_elem_of_lookup in Hb1 as [j Hj].
  destruct (Forall2_lookup_r _ _ _ _ _ E Hj) as (tup & _ & Ht).
  unfold tuple_events in Ht.
  destruct (mapM (boundary_events _) _) as [b| |] eqn:Eb;
    cbn [mbind result_bind Res.bind] in Ht; [|done|done].
  destruct (mapM (test_events _ _ _) _) as [t| |] eqn:Et;
    cbn [mbind result_bind Res.bind] in Ht; [|done|done].
  injection Ht as <-. apply elem_of_app in Hvb as [Hvb|Hvb].
  - apply elem_of_concat in Hvb as (s & Hvs & Hs).
    assert (Forall (Forall (fun v => is_test_combination v = false)) b) as HF.
    { eapply mapM_result_Forall; [|exact Eb]. apply boundary_events_no_test. }
    rewrite Forall_forall in HF. specialize (HF s Hs).
    rewrite Forall_forall in HF. by rewrite (HF v Hvs) in Hv.
  - apply elem_of_concat in Hvb as (s & Hvs & Hs).
    apply mapM_result_Forall2 in Et.
    apply list_elem_of_lookup in Hs as [k Hk].
    destruct (Forall2_lookup_r _ _ _ _ _ Et Hk) as ([i p] & Hip & Hs).
    eexists _, i, p, s. split; [by eapply list_elem_of_lookup_2|done].
Qed.

End Sequence.

Section SequenceProperties.

(** X11. The sequence of a successful call starts with one setup event
    that holds the setups of all outer levels, from the outermost in, and
    ends with one teardown event that holds their teardowns in reverse
    order; every entry of the two is resolved: [None], a literal mapping
    or the list of combinations of a template, never a template name. *)
Theorem sequence_frame (spec : pdict) (out : list value) :
  outcome (call spec) = Ok out →
  ∃ sk body,
    skeleton_of spec = Ok sk ∧
    out = [setup_event (VList (setups sk))] ++ body ++
          [teardown_event (VList (rev (teardowns sk)))] ∧
    forallb resolved (setups sk) = true ∧
    forallb resolved (teardowns sk) = true.
Proof.
  intros (sk & Hsk & Hg & Hs & Ht & _)%call_ok.
  unfold generate in Hg.
  destruct (mapM (tuple_events _ _) _) as [body| |];
    cbn [mbind result_bind Res.bind] in Hg; [|done|done].
  injection Hg as <-. exists sk, (concat body).
  split; [done|]. split; [done|].
  split; apply forallb_forall; intros x Hx%list_elem_of_In.
  - rewrite Forall_forall in Hs. by apply Hs.
  - rewrite Forall_forall in Ht. by apply Ht.
Qed.

Lemma sequence_frame_witness :
  ∃ out,
    outcome (call Examples.with_actions) = Ok out ∧
    ∃ sk body,
      skeleton_of Examples.with_actions = Ok sk ∧
      out = [setup_event (VList (setups sk))] ++ body ++
            [teardown_event (VList (rev (teardowns sk)))] ∧
      forallb resolved (setups sk) = true ∧
      forallb resolved (teardowns sk) = true.
Proof.
  eexists. split; [vm_compute; reflexivity|].
  apply sequence_frame. vm_compute. reflexivity.
Defined.

(** X12. A successful call returns at least one test combination, between
    the setup and the teardown event of its test: the sequence has at
    least five elements. *)
Theorem sequence_has_test (spec : pdict) (out : list value) :
  outcome (call spec) = Ok out →
  5 ≤ length out ∧ ∃ v, v ∈ out ∧ is_test_combination v = true.
Proof.
  intros (sk & Hsk & Hg & _ & _ & Hts & Hocs)%call_ok.
  unfold generate in Hg.
  destruct (mapM (tuple_events _ _) _) as [body| |] eqn:E;
    cbn [mbind result_bind Res.bind] in Hg; [|done|done].
  injection Hg as <-.
  apply product_nonempty in Hocs.
  destruct (Py.product (outer_combinations sk)) as [|tup tups]; [done|].
  cbn [mapM] in E.
  destruct (tuple_events _ sk tup) as [b1| |] eqn:E1;
    cbn [mbind result_bind Res.bind] in E; [|done|done].
  destruct (mapM _ tups) as [bs| |]; cbn [mbind result_bind Res.bind] in E;
    [|done|done].
  injection E as <-. unfold tuple_events in E1.
  destruct (mapM (boundary_events _) _) as [b| |];
    cbn [mbind result_bind Res.bind] in E1; [|done|done].
  destruct (tests sk) as [|p ps] eqn:Et; [done|].
  unfold enumerate in E1. cbn [length seq combine mapM] in E1.
  destruct (test_events _ sk _ (0, p)) as [s| |] eqn:Es;
    cbn [mbind result_bind Res.bind] in E1; [|done|done].
  destruct (mapM _ (combine _ ps)) as [ss| |];
    cbn [mbind result_bind Res.bind] in E1; [|done|done].
  injection E1 as <-.
  apply test_events_shape in Es as (su & td & cs & -> & Hne & HF).
  destruct cs as [|c cs]; [done|]. split.
  - cbn [concat app map length]. rewrite !length_app. cbn [length map].
    rewrite !length_app. cbn [length]. lia.
  - exists (VDict c). split.
    + cbn [concat]. right. apply elem_of_app. left. apply elem_of_app. left.
      apply elem_of_app. right. apply elem_of_app. left.
      right. left.
    + inversion HF as [|? ? Hc _]; subst. cbn. by apply bool_decide_eq_true.
Qed.

Lemma sequence_has_test_witness :
  ∃ out,
    outcome (call Examples.temperature_sweep) = Ok out ∧
    5 ≤ length out ∧ ∃ v, v ∈ out ∧ is_test_combination v = true.
Proof.
  eexists. split; [vm_compute; reflexivity|].
  apply (sequence_has_test Examples.temperature_sweep). vm_compute. reflexivity.
Defined.

End SequenceProperties.

Section Preservation.

Lemma parameters_remove (k : string) (d : dict) :
  reserved k = true → parameters_of (Py.remove k d) = parameters_of d.
Proof.
  intros Hk. unfold parameters_of.
  induction d as [|[k' v'] d IH]; [done|]. cbn [Py.remove].
  destruct (String.eqb k k') eqn:E.
  - apply String.eqb_eq in E as <-. cbn [List.filter fst]. by rewrite Hk.
  - cbn [List.filter]. by rewrite IH.
Qed.

Lemma parameters_set (k : string) (v : value) (d : dict) :
  reserved k = true → parameters_of (Py.set k v d) = parameters_of d.
Proof.
  intros Hk. unfold parameters_of.
  induction d as [|[k' v'] d IH]; cbn [Py.set].
  - cbn [List.filter fst]. by rewrite Hk.
  - destruct (String.eqb k k') eqn:E.
    + apply String.eqb_eq in E as <-. cbn [List.filter fst]. by rewrite Hk.
    + cbn [List.filter]. by rewrite IH.
Qed.

Lemma parameters_insert (h : heap) (a : nat) (d d' : dict) :
  h !! a = Some d → parameters_of d' = parameters_of d →
  map parameters_of (<[a:=d']> h) = map parameters_of h.
Proof.
  intros Hl E. change map with (@fmap list _) at 1 2.
  rewrite list_fmap_insert, E. apply list_insert_id.
  by rewrite list_lookup_fmap, Hl.
Qed.

Lemma preserves_ret {A} (x : A) : preserves (mret x : M A).
Proof. done. Qed.

Lemma preserves_bind {A B} (m : M A) (f : A → M B) :
  preserves m → (∀ x, preserves (f x)) → preserves (m ≫= f).
Proof.
  intros Hm Hf h. rewrite M_bind_eq. specialize (Hm h).
  destruct (m h) as [[a|e|] h1]; cbn [snd] in *; [|done|done].
  by rewrite (Hf a h1).
Qed.

Lemma preserves_lift {A} (r : result A) : preserves (St.lift r).
Proof. done. Qed.

Lemma preserves_raise {A} (e : exn) : preserves (@St.raise A e).
Proof. done. Qed.

Lemma preserves_get_heap : preserves St.get_heap.
Proof. done. Qed.

Lemma preserves_pop (obj : value) (k : string) (default : value) :
  reserved k = true → preserves (St.pop obj k default).
Proof.
  intros Hk h. unfold St.pop. destruct obj as [| | | |d|a]; try done.
  - by destruct (Py.pop k default d).
  - destruct (h !! a) as [d|] eqn:E; [|done].
    pose proof (pop_snd k default d) as Hs.
    destruct (Py.pop k default d) as [v d']. cbn in *. subst d'.
    eapply parameters_insert; [done|]. by apply parameters_remove.
Qed.

Lemma preserves_setitem (obj : value) (k : string) (v : value) :
  reserved k = true → preserves (St.setitem obj k v).
Proof.
  intros Hk h. unfold St.setitem. destruct obj as [| | | |d|a]; try done.
  destruct (h !! a) as [d|] eqn:E; [|done]. cbn [snd].
  eapply parameters_insert; [done|]. by apply parameters_set.
Qed.

Lemma preserves_except {A} (body : M A) (e : exn) :
  preserves body → preserves (St.except_type_key body e).
Proof.
  intros Hb h. unfold St.except_type_key. specialize (Hb h).
  destruct (body h) as [[x|[]|] h1]; done.
Qed.

Lemma preserves_fill_entry (ps v : value) : preserves (fill_entry ps v).
Proof.
  unfold fill_entry. destruct v; try apply preserves_ret;
    (apply preserves_except;
     apply preserves_bind; [apply preserves_get_heap|]; intros h0;
     apply preserves_bind; [apply preserves_lift|]; intros p;
     apply preserves_bind; [by apply preserves_pop|]; intros [? p1];
     apply preserves_bind; [by apply preserves_pop|]; intros [? p2];
     apply preserves_bind; [apply preserves_get_heap|]; intros h1;
     apply preserves_bind; [apply preserves_lift|]; intros items;
     apply preserves_bind; [apply preserves_lift|]; intros c;
     apply preserves_ret).
Qed.

Lemma preserves_fill_entries (ps : value) (vs : list value) :
  preserves (fill_entries ps vs).
Proof.
  induction vs as [|v vs IH]; cbn [fill_entries]; [apply preserves_ret|].
  apply preserves_bind; [apply preserves_fill_entry|]; intros x.
  apply preserves_bind; [apply IH|]; intros xs. apply preserves_ret.
Qed.

Lemma preserves_fill_template (ps vs : value) : preserves (fill_template ps vs).
Proof.
  unfold fill_template. destruct vs; try apply preserves_ret;
    (apply preserves_bind; [apply preserves_get_heap|]; intros h0;
     apply preserves_bind; [apply preserves_lift|]; intros flat;
     apply preserves_fill_entries).
Qed.

Lemma preserves_resolve_test (ps test : value) : preserves (resolve_test ps test).
Proof.
  unfold resolve_test.
  apply preserves_bind; [apply preserves_get_heap|]; intros h0.
  apply preserves_bind; [apply preserves_lift|]; intros s.
  apply preserves_bind; [apply preserves_fill_template|]; intros s'.
  apply preserves_bind; [by apply preserves_setitem|]; intros test'.
  apply preserves_bind; [apply preserves_get_heap|]; intros h1.
  apply preserves_bind; [apply preserves_lift|]; intros t.
  apply preserves_bind; [apply preserves_fill_template|]; intros t'.
  by apply preserves_setitem.
Qed.

Lemma preserves_resolve_tests (ps : value) (ts : list value) :
  preserves (resolve_tests ps ts).
Proof.
  induction ts as [|t ts IH]; cbn [resolve_tests]; [apply preserves_ret|].
  apply preserves_bind; [apply preserves_resolve_test|]; intros x.
  apply preserves_bind; [apply IH|]; intros xs. apply preserves_ret.
Qed.

Lemma preserves_extract_loop (fuel : nat) :
  ∀ ps v s t y i ocs, preserves (extract_loop fuel ps v s t y i ocs).
Proof.
  induction fuel as [|fuel IH]; intros ps v s t y i ocs; [done|].
  cbn [extract_loop].
  apply preserves_bind; [by apply preserves_pop|]; intros [su v1].
  apply preserves_bind; [by apply preserves_pop|]; intros [td v2].
  apply preserves_bind; [by apply preserves_pop|]; intros [yv v3].
  apply preserves_bind; [apply preserves_get_heap|]; intros h0.
  apply preserves_bind; [apply preserves_lift|]; intros items.
  apply preserves_bind; [apply preserves_lift|]; intros c.
  destruct (dict_children items) as [|first rest]; [apply preserves_raise|].
  destruct (negb (has_dict_value h0 first)); [|apply IH].
  apply preserves_bind; [apply preserves_resolve_tests|]; intros ts.
  apply preserves_bind; [apply preserves_fill_template|]; intros ns.
  apply preserves_bind; [apply preserves_fill_template|]; intros nt.
  apply preserves_ret.
Qed.

Lemma preserves_get_combinations (fuel : nat) (ps : value) :
  preserves (get_combinations fuel ps).
Proof.
  unfold get_combinations.
  apply preserves_bind; [apply preserves_get_heap|]; intros h0.
  apply preserves_bind; [apply preserves_lift|]; intros [].
  apply preserves_bind.
  - unfold _extract_skeleton.
    apply preserves_bind; [apply preserves_get_heap|]; intros h1.
    apply preserves_bind; [apply preserves_lift|]; intros d.
    apply preserves_bind; [apply preserves_lift|]; intros lvl.
    apply preserves_extract_loop.
  - intros sk.
    apply preserves_bind; [apply preserves_get_heap|]; intros h1.
    apply preserves_lift.
Qed.

End Preservation.

Section StoreProperties.

(** X14. Whatever its outcome, a call of [get_combinations] leaves in
    every mapping of the caller's specification the entries under all
    keys but [setup], [teardown] and [yield_values] as they are: the same
    keys with the same values in the same order, and no mapping is added
    or dropped. *)
Theorem parameters_untouched (spec : pdict) :
  map parameters_of (final_heap (call spec)) =
  map parameters_of (load (PDict spec) []).2.
Proof.
  unfold call. destruct (load (PDict spec) []) as [root h]. cbn [snd].
  pose proof (preserves_get_combinations (dict_depth (PDict spec)) root h) as H.
  by destruct (get_combinations _ root h).
Qed.

End StoreProperties.

Section Templates.

Lemma fill_entries_passes (ps : value) (vs : list value) (h : heap) :
  forallb passes vs = true → fill_entries ps vs h = (Ok vs, h).
Proof.
  induction vs as [|v vs IH]; [done|]. cbn [forallb fill_entries].
  intros [Hv Hvs]%andb_true_iff. rewrite M_bind_eq.
  assert (fill_entry ps v h = (Ok v, h)) as -> by (by destruct v).
  rewrite M_bind_eq, IH by done. done.
Qed.

Lemma fill_entries_first_raise (ps : value) (pre post : list value) (v : value)
    (h : heap) (e : exn) :
  forallb passes pre = true → fill_entry ps v h = (Raise e, h) →
  fill_entries ps (pre ++ v :: post) h = (Raise e, h).
Proof.
  intros Hpre Hv. induction pre as [|x pre IH]; cbn [app fill_entries].
  - by rewrite M_bind_eq, Hv.
  - cbn [forallb] in Hpre. apply andb_true_iff in Hpre as [Hx Hpre].
    rewrite M_bind_eq.
    assert (fill_entry ps x h = (Ok x, h)) as -> by (by destruct x).
    by rewrite M_bind_eq, IH.
Qed.

Lemma combinations_raises (ps : dict) (e : exn) :
  combinations (new_pc ps) = Raise e →
  e = ValueError mismatch_msg ∨ e = IndexError.
Proof.
  intros H. destruct (combinations_cases ps) as [[_ E]|[(_ & _ & E)|(_ & _ & E)]];
    rewrite E in H; inversion H; auto.
Qed.

(** The expansion of a template held by the store. *)
Lemma fill_entry_template (ps : value) (h : heap) (d t : dict) (s : string) (a : nat) :
  St.deref h ps = Some d → Py.get s d = Some (VRef a) → h !! a = Some t →
  fill_entry ps (VStr s) h =
    ((fun cs => VList (map VDict cs)) <$>
       combinations (new_pc (Py.remove "teardown" (Py.remove "setup" t))),
     <[a := Py.remove "teardown" (Py.remove "setup" t)]> h).
Proof.
  intros Hd Hs Ha. unfold fill_entry, St.except_type_key.
  rewrite get_heap_bind_eq, lift_bind_eq.
  unfold lookup_template. rewrite Hd. unfold getitem. rewrite Hs.
  rewrite M_bind_eq, (pop_ref _ _ _ _ _ Ha).
  rewrite M_bind_eq, (pop_ref _ _ _ (Py.remove "setup" t))
    by (by rewrite list_lookup_insert_eq by (by eapply lookup_lt_Some)).
  rewrite list_insert_insert_eq, get_heap_bind_eq, lift_bind_eq.
  unfold St.items. cbn [St.deref].
  rewrite list_lookup_insert_eq by (by eapply lookup_lt_Some).
  rewrite lift_bind_eq.
  destruct (combinations _) as [cs|e|] eqn:E; [done| |done].
  by destruct (combinations_raises _ _ E) as [->| ->].
Qed.

End Templates.

Section TemplateProperties.

(** X15. [fill_template] hands on what needs no resolution: for a list
    whose entries, once flattened, are [None] or mappings it returns the
    flattened list itself, and for [None] the empty list; the store stays
    as it is. *)
Theorem fill_template_passes_literals (ps : value) (vs : list value) (h : heap) :
  forallb passes (flat_map flatten_item vs) = true →
  fill_template ps (VList vs) h = (Ok (flat_map flatten_item vs), h) ∧
  fill_template ps VNone h = (Ok [], h).
Proof.
  intros H. split; [|done].
  unfold fill_template. rewrite get_heap_bind_eq, lift_bind_eq.
  cbn [flatten_multidimensional_list]. by apply fill_entries_passes.
Qed.

Lemma fill_template_passes_literals_witness :
  forallb passes
    (flat_map flatten_item
       [VNone; VList [VDict [("hardware", VStr "initialize")]; VList [VNone]]])
    = true ∧
  fill_template (VRef 1)
    (VList [VNone; VList [VDict [("hardware", VStr "initialize")]; VList [VNone]]])
    Examples.template_store
  = (Ok [VNone; VDict [("hardware", VStr "initialize")]; VNone], Examples.template_store) ∧
  fill_template (VRef 1) VNone Examples.template_store = (Ok [], Examples.template_store).
Proof.
  assert (H : forallb passes
    (flat_map flatten_item
       [VNone; VList [VDict [("hardware", VStr "initialize")]; VList [VNone]]])
    = true) by reflexivity.
  split; [exact H|].
  exact (fill_template_passes_literals (VRef 1) _ Examples.template_store H).
Defined.

(** X16. An entry that is a name without a top-level entry makes
    [fill_template] raise the error that names it, when the entries
    before it are [None] or mappings; the store stays as it is. *)
Theorem fill_template_unknown (ps : value) (vs pre post : list value)
    (h : heap) (d : dict) (s : string) :
  St.deref h ps = Some d →
  flat_map flatten_item vs = pre ++ VStr s :: post →
  forallb passes pre = true →
  Py.get s d = None →
  fill_template ps (VList vs) h =
    (Raise (ValueError ("Template " ++ s ++ " not found in parameters.")), h).
Proof.
  intros Hd Hflat Hpre Hs.
  unfold fill_template. rewrite get_heap_bind_eq, lift_bind_eq.
  cbn [flatten_multidimensional_list]. rewrite Hflat.
  apply fill_entries_first_raise; [done|].
  unfold fill_entry, St.except_type_key.
  rewrite get_heap_bind_eq, lift_bind_eq.
  unfold lookup_template. rewrite Hd. unfold getitem. by rewrite Hs.
Qed.

Lemma fill_template_unknown_witness :
  St.deref Examples.template_store (VRef 1) = Some [("standard_test", VRef 0)] ∧
  flat_map flatten_item [VNone; VList [VStr "unknown"]; VStr "standard_test"]
    = [VNone] ++ VStr "unknown" :: [VStr "standard_test"] ∧
  forallb passes [VNone] = true ∧
  Py.get "unknown" [("standard_test", VRef 0)] = None ∧
  fill_template (VRef 1)
    (VList [VNone; VList [VStr "unknown"]; VStr "standard_test"]) Examples.template_store
  = (Raise (ValueError "Template unknown not found in parameters."),
     Examples.template_store).
Proof.
  assert (H1 : St.deref Examples.template_store (VRef 1) = Some [("standard_test", VRef 0)])
    by reflexivity.
  assert (H2 : flat_map flatten_item
                 [VNone; VList [VStr "unknown"]; VStr "standard_test"]
               = [VNone] ++ VStr "unknown" :: [VStr "standard_test"])
    by reflexivity.
  assert (H3 : forallb passes [VNone] = true) by reflexivity.
  assert (H4 : Py.get "unknown" [("standard_test", VRef 0)] = None) by reflexivity.
  repeat (split; [assumption|]).
  exact (fill_template_unknown _ _ _ _ _ _ _ H1 H2 H3 H4).
Defined.

(** X17. An entry naming a template is replaced by the list of the
    combinations of the template without its own [setup] and [teardown]
    keys, and these two keys are removed from the caller's template, also
    when the combinations cannot be computed: then the mismatch or index
    error of the computation is raised, not the error of an unknown
    template. *)
Theorem fill_template_expands (ps : value) (h : heap) (d t : dict)
    (s : string) (a : nat) :
  St.deref h ps = Some d → Py.get s d = Some (VRef a) → h !! a = Some t →
  fill_template ps (VList [VStr s]) h =
    ((fun cs => [VList (map VDict cs)]) <$>
       combinations (new_pc (Py.remove "teardown" (Py.remove "setup" t))),
     <[a := Py.remove "teardown" (Py.remove "setup" t)]> h).
Proof.
  intros Hd Hs Ha.
  unfold fill_template. rewrite get_heap_bind_eq, lift_bind_eq.
  cbn [flatten_multidimensional_list flat_map flatten_item app fill_entries].
  rewrite M_bind_eq, (fill_entry_template _ _ _ _ _ _ Hd Hs Ha).
  by destruct (combinations _).
Qed.

Lemma fill_template_expands_witness :
  St.deref Examples.template_store (VRef 1) = Some [("standard_test", VRef 0)] ∧
  Py.get "standard_test" [("standard_test", VRef 0)] = Some (VRef 0) ∧
  Examples.template_store !! 0 =
    Some [("setup", VStr "other"); ("temperature", VInt 20);
          ("param_1", Examples.nums [1; 2]%Z)] ∧
  fill_template (VRef 1) (VList [VStr "standard_test"]) Examples.template_store =
    (Ok [VList [VDict [("temperature", VInt 20); ("param_1", VInt 1)];
                VDict [("temperature", VInt 20); ("param_1", VInt 2)]]],
     [[("temperature", VInt 20); ("param_1", Examples.nums [1; 2]%Z)];
      [("standard_test", VRef 0)]]).
Proof.
  assert (H1 : St.deref Examples.template_store (VRef 1) = Some [("standard_test", VRef 0)])
    by reflexivity.
  assert (H2 : Py.get "standard_test" [("standard_test", VRef 0)] = Some (VRef 0))
    by reflexivity.
  assert (H3 : Examples.template_store !! 0 =
    Some [("setup", VStr "other"); ("temperature", VInt 20);
          ("param_1", Examples.nums [1; 2]%Z)]) by reflexivity.
  repeat (split; [assumption|]).
  exact (fill_template_expands _ _ _ _ _ _ H1 H2 H3).
Defined.

End TemplateProperties.

Section EntryPoint.

(** The first steps of [extract_loop] on a level without child mapping:
    the combinations of the level's parameters are computed, then the
    missing inner loops are reported. *)
Lemma extract_loop_no_child (fuel : nat) (ps : value) (a : nat) (kvs : dict)
    (s t : list value) (y : value) (i : nat) (ocs : list (list dict)) (h : heap) :
  h !! a = Some kvs →
  dict_children
    (Py.remove "yield_values" (Py.remove "teardown" (Py.remove "setup" kvs))) = [] →
  (extract_loop (S fuel) ps (VRef a) s t y i ocs h).1 =
    match combinations
            (new_pc (Py.remove "yield_values"
                       (Py.remove "teardown" (Py.remove "setup" kvs)))) with
    | Ok _ => Raise (ValueError no_inner_msg)
    | Raise e => Raise e
    | NoFuel => NoFuel
    end.
Proof.
  intros Hl Hch. cbn [extract_loop].
  assert (Ha : a < length h) by (by eapply lookup_lt_Some).
  rewrite M_bind_eq, (pop_ref _ _ _ _ _ Hl).
  rewrite M_bind_eq, (pop_ref _ _ _ (Py.remove "setup" kvs))
    by (by rewrite list_lookup_insert_eq).
  rewrite list_insert_insert_eq.
  rewrite M_bind_eq, (pop_ref _ _ _ (Py.remove "teardown" (Py.remove "setup" kvs)))
    by (by rewrite list_lookup_insert_eq).
  rewrite list_insert_insert_eq, get_heap_bind_eq, lift_bind_eq.
  unfold St.items. cbn [St.deref]. rewrite list_lookup_insert_eq by done.
  rewrite lift_bind_eq. unfold _get_indexed_combinations.
  rewrite filter_all_true.
  2:{ intros [k x] Hx. cbn [snd]. destruct (Py.is_dict x) eqn:Ex; [|done].
      assert (x ∈ dict_children
                (Py.remove "yield_values"
                   (Py.remove "teardown" (Py.remove "setup" kvs)))) as Hin.
      { unfold dict_children. apply list_elem_of_filter. split; [by rewrite Ex|].
        apply list_elem_of_fmap. by exists (k, x). }
      rewrite Hch in Hin. by apply elem_of_nil in Hin. }
  destruct (combinations _) as [cs|e|] eqn:E; cbn [mbind result_bind Res.bind].
  - rewrite mapM_result_ok with
      (F := fun ic : nat * dict =>
              Py.set (index_key i) (VInt (Z.of_nat ic.1)) ic.2) by done.
    by rewrite Hch.
  - done.
  - done.
Qed.

Lemma rep_length h (o : pyobj) (v : value) :
  rep h o v → length (as_list v) = plength o.
Proof.
  inversion 1; subst; try done. cbn [as_list plength].
  symmetry. by eapply Forall2_length.
Qed.

Lemma elem_rep_inv {R : pyobj → value → Prop} (d : pdict) (kvs : dict)
  (k : string) (v : value) :
  Forall2 (fun (x : string * pyobj) (y : string * value) =>
             x.1 = y.1 ∧ R x.2 y.2) d kvs →
  (k, v) ∈ kvs → ∃ o, (k, o) ∈ d ∧ R o v.
Proof.
  induction 1 as [|[k1 o1] [k2 v2] d kvs [Hk Hr] HF IH];
    intros Hin; [by apply elem_of_nil in Hin|].
  cbn [fst snd] in *. subst k2.
  apply elem_of_cons in Hin as [[= -> ->]|Hin].
  - exists o1. split; [by left|done].
  - destruct (IH Hin) as (o' & Ho' & Hr'). exists o'. split; [by right|done].
Qed.

(** A literal mapping and the mapping the store holds for it have the
    same uneven zip groups and the same empty lists. *)
Lemma uneven_literal_rep h (d : pdict) (kvs : dict) :
  Forall2 (fun (x : string * pyobj) (y : string * value) =>
             x.1 = y.1 ∧ rep h x.2 y.2) d kvs →
  (uneven_literal d ↔ uneven_group kvs) ∧
  (Exists (fun kv : string * pyobj => plength kv.2 = 0) d ↔
   Exists (fun kv : string * value => as_list kv.2 = []) kvs) ∧
  (Forall (fun kv : string * pyobj => plength kv.2 ≠ 0) d ↔
   Forall (fun kv : string * value => as_list kv.2 ≠ []) kvs).
Proof.
  intros HF. split; [|split].
  - split.
    + intros (g & k1 & k2 & o1 & o2 & Hg & H1 & H2 & G1 & G2 & L1 & L2 & Hne).
      destruct (elem_rep _ _ _ _ HF H1) as (v1 & Hv1 & R1%rep_length).
      destruct (elem_rep _ _ _ _ HF H2) as (v2 & Hv2 & R2%rep_length).
      exists g, k1, k2, v1, v2. rewrite R1, R2. by repeat split.
    + intros (g & k1 & k2 & v1 & v2 & Hg & H1 & H2 & G1 & G2 & L1 & L2 & Hne).
      destruct (elem_rep_inv _ _ _ _ HF H1) as (o1 & Ho1 & R1%rep_length).
      destruct (elem_rep_inv _ _ _ _ HF H2) as (o2 & Ho2 & R2%rep_length).
      exists g, k1, k2, o1, o2. rewrite <- R1, <- R2. by repeat split.
  - rewrite !Exists_exists. split.
    + intros ([k o] & Hin & Ho). cbn [snd] in Ho.
      destruct (elem_rep _ _ _ _ HF Hin) as (v & Hv & R%rep_length).
      exists (k, v). split; [done|]. cbn [snd].
      apply length_zero_iff_nil. by rewrite R.
    + intros ([k v] & Hin & Hv). cbn [snd] in Hv.
      destruct (elem_rep_inv _ _ _ _ HF Hin) as (o & Ho & R%rep_length).
      exists (k, o). split; [done|]. cbn [snd]. by rewrite <- R, Hv.
  - rewrite !Forall_forall. split.
    + intros H [k v] Hin Hv. cbn [snd] in Hv.
      destruct (elem_rep_inv _ _ _ _ HF Hin) as (o & Ho & R%rep_length).
      apply (H (k, o) Ho). cbn [snd]. by rewrite <- R, Hv.
    + intros H [k o] Hin Ho. cbn [snd] in Ho.
      destruct (elem_rep _ _ _ _ HF Hin) as (v & Hv & R%rep_length).
      apply (H (k, v) Hv). cbn [snd].
      apply length_zero_iff_nil. by rewrite R.
Qed.

End EntryPoint.

Section EntryPointProperties.

(** X18. A specification without the key [main] makes [get_combinations]
    raise the error of the missing main loop; one whose [main] is not a
    mapping makes it raise an attribute error. In both cases nothing of
    the caller's specification is changed. *)
Theorem entry_point_required (spec : pdict) :
  (∀ m, pget "main" spec ≠ Some (PDict m)) →
  outcome (call spec) =
    Raise (match pget "main" spec with
           | None => ValueError no_main_msg
           | Some _ => AttributeError
           end) ∧
  final_heap (call spec) = (load (PDict spec) []).2.
Proof.
  intros Hmain. unfold call.
  destruct (load (PDict spec) []) as [root h] eqn:Hload. cbn [snd].
  destruct (load_rep _ _ _ _ Hload) as [_ Hroot].
  destruct (rep_items _ _ _ Hroot) as (kvs & Hi & HF).
  pose proof (get_rep _ _ _ "main" HF) as Hget.
  assert (Hcv : check_validity (dict_depth (PDict spec)) h root =
                Raise (match pget "main" spec with
                       | None => ValueError no_main_msg
                       | Some _ => AttributeError
                       end)).
  { unfold check_validity. rewrite Hi, result_bind_ok.
    destruct (pget "main" spec) as [o|]; [|by rewrite Hget].
    destruct Hget as (v & -> & Hr). cbn [dict_depth].
    destruct o as [| | | |m]; inversion Hr; subst; try done.
    by destruct (Hmain m). }
  by rewrite (get_combinations_invalid _ _ _ _ Hcv).
Qed.

Lemma entry_point_required_witness :
  ((∀ m, pget "main" Examples.no_main ≠ Some (PDict m)) ∧
   outcome (call Examples.no_main) = Raise (ValueError no_main_msg) ∧
   final_heap (call Examples.no_main) = (load (PDict Examples.no_main) []).2) ∧
  ((∀ m, pget "main" Examples.scalar_main ≠ Some (PDict m)) ∧
   outcome (call Examples.scalar_main) = Raise AttributeError ∧
   final_heap (call Examples.scalar_main) = (load (PDict Examples.scalar_main) []).2).
Proof.
  assert (H1 : ∀ m, pget "main" Examples.no_main ≠ Some (PDict m)) by (intros m; discriminate).
  assert (H2 : ∀ m, pget "main" Examples.scalar_main ≠ Some (PDict m))
    by (intros m; discriminate).
  split; (split; [assumption|]).
  - exact (entry_point_required Examples.no_main H1).
  - exact (entry_point_required Examples.scalar_main H2).
Defined.

(** X19. An entry point that is a mapping without any mapping among its
    values makes [get_combinations] raise, and the parameters of the
    entry point (its entries other than [setup], [teardown] and
    [yield_values]) decide what: the mismatch error exactly when two
    swept members of one zip group with a non-empty modifier differ in
    length; failing that, the index error exactly when some parameter has
    an empty list of values; and the error of the missing inner loops
    exactly when neither is the case. *)
Theorem no_inner_loops (spec m : pdict) :
  pget "main" spec = Some (PDict m) → pdict_children m = [] →
  (outcome (call spec) = Raise (ValueError mismatch_msg) ↔
     uneven_literal (level_body m)) ∧
  (outcome (call spec) = Raise IndexError ↔
     ¬ uneven_literal (level_body m) ∧
     Exists (fun kv : string * pyobj => plength kv.2 = 0) (level_body m)) ∧
  (outcome (call spec) = Raise (ValueError no_inner_msg) ↔
     ¬ uneven_literal (level_body m) ∧
     Forall (fun kv : string * pyobj => plength kv.2 ≠ 0) (level_body m)).
Proof.
  intros Hmain Hch.
  unfold call.
  destruct (load (PDict spec) []) as [root h] eqn:Hload.
  destruct (main_rep _ _ _ _ Hload Hmain) as (kvs & v & Hi & Hget & Hrep & Hdepth).
  assert (Hfuel : ∃ fuel, dict_depth (PDict spec) = S fuel).
  { destruct (dict_depth (PDict spec)) eqn:E; [cbn in Hdepth; lia|by eexists]. }
  destruct Hfuel as [fuel Hfuel].
  inversion Hrep as [| | | |? a lvl Hl HF0]; subst.
  assert (HF : Forall2 (fun (x : string * pyobj) (y : string * value) =>
                          x.1 = y.1 ∧ rep h x.2 y.2) m lvl).
  { eapply Forall2_impl; [exact HF0|]. intros x y [? Hr]. split; [done|].
    eapply rep_mono; [exact Hr|]. apply prefix_take. }
  assert (Hnone : dict_children lvl = []).
  { apply children_rep in HF. rewrite Hch in HF. by inversion HF. }
  assert (Hbody : dict_children
            (Py.remove "yield_values" (Py.remove "teardown" (Py.remove "setup" lvl)))
            = []).
  { assert (Hsub : ∀ k (d : dict), dict_children d = [] →
                     dict_children (Py.remove k d) = []).
    { intros k d Hd. unfold dict_children in *.
      apply filter_all_false. intros x Hx.
      destruct (Py.is_dict x) eqn:Ex; [|done].
      assert (x ∈ filter (fun v => Py.is_dict v) (Py.values d)) as Hin.
      { apply list_elem_of_filter. split; [by rewrite Ex|].
        unfold Py.values in *. apply list_elem_of_fmap in Hx as ([k' x'] & -> & Hx).
        apply list_elem_of_fmap. exists (k', x'). split; [done|].
        by apply (remove_subseteq k d). }
      rewrite Hd in Hin. by apply elem_of_nil in Hin. }
    by do 3 apply Hsub. }
  assert (Hlit : Forall2 (fun (x : string * pyobj) (y : string * value) =>
                            x.1 = y.1 ∧ rep h x.2 y.2) (level_body m)
                   (Py.remove "yield_values"
                      (Py.remove "teardown" (Py.remove "setup" lvl))))
    by (unfold level_body; by do 3 apply premove_rep).
  destruct (uneven_literal_rep _ _ _ Hlit) as (Hun & Hex & Hall).
  rewrite Hun, Hex, Hall.
  pose proof (extract_loop_no_child fuel root a lvl [] [] VNone 0 [] h Hl Hbody)
    as Hx.
  assert (Hout : (get_combinations (dict_depth (PDict spec)) root h).1 =
            match combinations
                    (new_pc (Py.remove "yield_values"
                               (Py.remove "teardown" (Py.remove "setup" lvl)))) with
            | Ok _ => Raise (ValueError no_inner_msg)
            | Raise e => Raise e
            | NoFuel => NoFuel
            end).
  { unfold get_combinations. rewrite get_heap_bind_eq, lift_bind_eq.
    unfold check_validity. rewrite Hi, result_bind_ok, Hget, Hfuel.
    rewrite check_validity_loop_S. unfold St.items at 1. cbn [St.deref].
    rewrite Hl, result_bind_ok. cbv zeta. rewrite Hnone. cbn [existsb].
    unfold _extract_skeleton.
    rewrite M_bind_eq, get_heap_bind_eq, lift_bind_eq, Hi, lift_bind_eq.
    unfold getitem. rewrite Hget. cbv beta iota.
    destruct (extract_loop _ root (VRef a) [] [] VNone 0 [] h) as [[x|e|] h'];
      cbn [fst] in Hx; destruct (combinations _); by inversion Hx. }
  clear Hx.
  destruct (get_combinations (dict_depth (PDict spec)) root h) as [r h'].
  cbn [fst outcome] in *. subst r.
  assert (Hno : Exists (fun kv : string * value => as_list kv.2 = [])
                  (Py.remove "yield_values"
                     (Py.remove "teardown" (Py.remove "setup" lvl))) →
                Forall (fun kv : string * value => as_list kv.2 ≠ [])
                  (Py.remove "yield_values"
                     (Py.remove "teardown" (Py.remove "setup" lvl))) → False).
  { intros (kv & Hin & He)%Exists_exists Hf.
    rewrite Forall_forall in Hf. by apply (Hf kv). }
  destruct (combinations_cases
              (Py.remove "yield_values"
                 (Py.remove "teardown" (Py.remove "setup" lvl))))
    as [[Hu ->]|[(Hn & He & ->)|(Hn & Ha & ->)]].
  - repeat split; try done; by intros [].
  - repeat split; try done. by intros [_ ?%Hno].
  - repeat split; try done. by intros [_ ?%Hno].
Qed.

Lemma no_inner_loops_witness :
  pget "main" Examples.no_inner = Some (PDict Examples.no_inner_main) ∧
  pdict_children Examples.no_inner_main = [] ∧
  (outcome (call Examples.no_inner) = Raise (ValueError mismatch_msg) ↔
     uneven_literal (level_body Examples.no_inner_main)) ∧
  (outcome (call Examples.no_inner) = Raise IndexError ↔
     ¬ uneven_literal (level_body Examples.no_inner_main) ∧
     Exists (fun kv : string * pyobj => plength kv.2 = 0)
            (level_body Examples.no_inner_main)) ∧
  (outcome (call Examples.no_inner) = Raise (ValueError no_inner_msg) ↔
     ¬ uneven_literal (level_body Examples.no_inner_main) ∧
     Forall (fun kv : string * pyobj => plength kv.2 ≠ 0)
            (level_body Examples.no_inner_main)).
Proof.
  assert (H1 : pget "main" Examples.no_inner = Some (PDict Examples.no_inner_main)) by reflexivity.
  assert (H2 : pdict_children Examples.no_inner_main = []) by reflexivity.
  repeat (split; [assumption|]).
  exact (no_inner_loops Examples.no_inner Examples.no_inner_main H1 H2).
Defined.

(** The specification of the repository's test raises the error of the
    missing inner loops. *)
Example no_inner_loops_raised :
  outcome (call Examples.no_inner) = Raise (ValueError no_inner_msg).
Proof. vm_compute. reflexivity. Qed.

End EntryPointProperties.

Section SkeletonLevels.

Lemma index_slicer_full (pc : ParameterCombination) (g : option string) :
  g = None ∨ g = Some "" →
  Np.range_lengths (index_slicer pc g) = [].
Proof.
  intros Hg. apply no_range_lengths. intros t m.
  rewrite index_slicer_lookup.
  destruct (swept pc !! t) as [[gp n]|]; [|done]. cbn [fmap option_fmap option_map fst].
  destruct (in_zip_group gp g) eqn:E; [|done].
  apply in_zip_group_eq in E as (-> & Hn & He). by destruct Hg.
Qed.

Lemma get_zip_index_all (pc : ParameterCombination) (g : option string) :
  g = None ∨ g = Some "" →
  get_zip_index pc g =
    Ok (Np.mk_ndarray (shape pc) (repeat true (Np.size (shape pc)))).
Proof.
  intros Hg. rewrite get_zip_index_eq, (index_slicer_full _ _ Hg).
  cbn [Np.broadcastable]. do 2 f_equal.
  rewrite <- length_indices.
  induction (Np.indices (shape pc)) as [|idx I IH]; [done|].
  cbn [map length repeat]. rewrite IH. f_equal.
  apply selected_no_range. by apply index_slicer_full.
Qed.

Lemma extract_loop_indices (fuel : nat) :
  ∀ ps v s t y i ocs h sk h',
    extract_loop fuel ps v s t y i ocs h = (Ok sk, h') →
    ∃ more,
      outer_combinations sk = ocs ++ more ∧
      ∀ k c j cj, more !! k = Some c → c !! j = Some cj →
        Py.get (index_key (i + k)) cj = Some (VInt (Z.of_nat j)).
Proof.
  induction fuel as [|fuel IH]; intros ps v s t y i ocs h sk h' H; [done|].
  cbn [extract_loop] in H.
  apply M_bind_ok in H as ([su v1] & h1 & _ & H).
  apply M_bind_ok in H as ([td v2] & h2 & _ & H).
  apply M_bind_ok in H as ([yv v3] & h3 & _ & H).
  apply M_bind_ok in H as (h4 & ? & _ & H).
  apply M_bind_ok in H as (items & h5 & _ & H).
  apply M_bind_ok in H as (c & h6 & Hc & H).
  apply lift_ok in Hc as [Hc _].
  destruct (indexed_position _ _ _ Hc) as (cs0 & _ & _ & Hpos).
  destruct (dict_children items) as [|first rest] eqn:Ech; [done|].
  destruct (negb (has_dict_value h4 first)).
  - apply M_bind_ok in H as (ts & h7 & Hts & H).
    apply M_bind_ok in H as (ns & h8 & Hns & H).
    apply M_bind_ok in H as (nt & h9 & Hnt & H).
    apply ret_ok in H as [-> _]. cbn [outer_combinations].
    exists [c]. split; [done|]. intros [|k] c' j cj Hk Hj; [|done].
    injection Hk as <-. rewrite Nat.add_0_r. by apply Hpos.
  - destruct (IH _ _ _ _ _ _ _ _ _ _ H) as (more & Hm & Hidx).
    exists (c :: more). split; [by rewrite Hm, <- app_assoc|].
    intros [|k] c' j cj Hk Hj.
    + injection Hk as <-. rewrite Nat.add_0_r. by apply Hpos.
    + replace (i + S k) with (S i + k) by lia. by eapply Hidx.
Qed.

End SkeletonLevels.

Section CallProperties.

(** X20. For no zip group ([None]) and for the zip group of empty name
    [get_zip_index] returns the full index: every entry is true, whatever
    the parameters, and no error is raised. *)
Theorem get_zip_index_full (pc : ParameterCombination) :
  get_zip_index pc None =
    Ok (Np.mk_ndarray (shape pc) (repeat true (Np.size (shape pc)))) ∧
  get_zip_index pc (Some "") =
    Ok (Np.mk_ndarray (shape pc) (repeat true (Np.size (shape pc)))).
Proof. split; apply get_zip_index_all; auto. Qed.

(** X21. In an extracted skeleton the combinations of outer level [i]
    carry their position in the level's list under [__index_<i>]. *)
Theorem outer_levels_indexed (spec : pdict) (sk : LoopSkeleton) :
  skeleton_of spec = Ok sk →
  ∀ i c j cj,
    outer_combinations sk !! i = Some c → c !! j = Some cj →
    Py.get (index_key i) cj = Some (VInt (Z.of_nat j)).
Proof.
  unfold skeleton_of. destruct (load (PDict spec) []) as [root h].
  destruct (_extract_skeleton _ root h) as [r h'] eqn:E. cbn [fst]. intros ->.
  unfold _extract_skeleton in E.
  apply M_bind_ok in E as (h0 & ? & _ & E).
  apply M_bind_ok in E as (d & ? & _ & E).
  apply M_bind_ok in E as (lvl & ? & _ & E).
  destruct (extract_loop_indices _ _ _ _ _ _ _ _ _ _ _ E) as (more & Hm & Hidx).
  cbn [app] in Hm. rewrite Hm. intros i c j cj Hi Hj.
  by apply (Hidx i c j cj).
Qed.

Lemma outer_levels_indexed_witness :
  ∃ sk,
    skeleton_of Examples.three_levels = Ok sk ∧
    ∀ i c j cj,
      outer_combinations sk !! i = Some c → c !! j = Some cj →
      Py.get (index_key i) cj = Some (VInt (Z.of_nat j)).
Proof.
  eexists. split; [vm_compute; reflexivity|].
  apply (outer_levels_indexed Examples.three_levels). vm_compute. reflexivity.
Defined.

(** X22. A call of [get_combinations] on a specification literal returns
    or raises: the loops of [check_validity] and [_extract_skeleton] make
    no more iterations than mappings are nested in the specification. *)
Theorem loops_terminate (spec : pdict) :
  Res.is_ok (outcome (call spec)) || Res.is_raise (outcome (call spec)) = true.
Proof.
  pose proof (call_terminates spec) as H. by destruct (outcome (call spec)).
Qed.

(** X23. The sequence of a successful call holds as many setup events as
    teardown events, and every teardown event closes a setup event that
    is open: read from the left, the events nest like brackets. *)
Theorem events_balanced (spec : pdict) (out : list value) :
  outcome (call spec) = Ok out →
  nested 0 out = true ∧
  count_events is_setup_event out = count_events is_teardown_event out.
Proof. apply call_balanced. Qed.

Lemma events_balanced_witness :
  ∃ out,
    outcome (call Examples.three_levels) = Ok out ∧
    nested 0 out = true ∧
    count_events is_setup_event out = count_events is_teardown_event out.
Proof.
  eexists. split; [vm_compute; reflexivity|].
  apply (events_balanced Examples.three_levels). vm_compute. reflexivity.
Defined.

End CallProperties.

Section Yield.

Lemma get_remove_ne (k k' : string) (d : dict) :
  k ≠ k' → Py.get k (Py.remove k' d) = Py.get k d.
Proof.
  intros Hne. induction d as [|[k1 v1] d IH]; [done|]. cbn [Py.remove].
  destruct (String.eqb k' k1) eqn:E; cbn [Py.get].
  - apply String.eqb_eq in E as <-.
    apply String.eqb_neq in Hne. by rewrite Hne.
  - by rewrite IH.
Qed.

Lemma pop_fst (k : string) (default : value) (d : dict) :
  (Py.pop k default d).1 = match Py.get k d with Some v => v | None => default end.
Proof. unfold Py.pop. by destruct (Py.get k d). Qed.

(** The value a test's combinations get under [yield]. *)
Lemma test_events_yield h sk op i p s d :
  St.items h p = Ok d →
  test_events h sk op (i, p) = Ok s →
  Forall (fun v =>
            is_test_combination v = true →
            ∃ c, v = VDict c ∧
                 Py.get "yield" c =
                   Some (match Py.get "yield" d with
                         | Some y => y
                         | None => yield_values sk
                         end)) s.
Proof.
  intros Hd. unfold test_events. rewrite Hd.
  cbn [mbind result_bind Res.bind].
  pose proof (pop_snd "setup" VNone d) as S1.
  destruct (Py.pop "setup" VNone d) as [su d1]. cbn [snd] in S1.
  pose proof (pop_snd "teardown" VNone d1) as S2.
  destruct (Py.pop "teardown" VNone d1) as [td d2]. cbn [snd] in S2.
  pose proof (pop_fst "yield" (yield_values sk) d2) as Y.
  destruct (Py.pop "yield" (yield_values sk) d2) as [y d3]. cbn [fst] in Y.
  destruct (_get_indexed_combinations _ _ _) as [cs| |];
    cbn [mbind result_bind Res.bind]; [|done|done].
  intros [= <-]. constructor; [done|]. apply Forall_app. split.
  - rewrite <- map_map, !Forall_map. apply Forall_forall. intros c _ _.
    exists (Py.set "yield" y c). split; [done|]. rewrite get_set. f_equal.
    rewrite Y. subst d2 d1. by rewrite !get_remove_ne.
  - by constructor.
Qed.

End Yield.

Section YieldProperties.

(** X24. In the sequence of a successful call every test combination
    holds, under [yield], the [yield] entry of its test and, when the
    test has none, the [yield_values] of the skeleton; a parameter of
    that name is overwritten. *)
Theorem test_combination_yield (spec : pdict) (out : list value) :
  outcome (call spec) = Ok out →
  ∃ sk,
    skeleton_of spec = Ok sk ∧
    ∀ v, v ∈ out → is_test_combination v = true →
      ∃ c i p d,
        v = VDict c ∧
        tests sk !! i = Some p ∧
        St.items (final_heap (call spec)) p = Ok d ∧
        Py.get "__index_test" c = Some (VInt (Z.of_nat i)) ∧
        Py.get "yield" c =
          Some (match Py.get "yield" d with
                | Some y => y
                | None => yield_values sk
                end).
Proof.
  intros (sk & Hsk & Hg & _)%call_ok. exists sk. split; [done|].
  intros v Hin Hv.
  destruct (generate_test_combination _ _ _ _ Hg Hin Hv)
    as (op & i & p & s & Hip & Hs & Hvs).
  apply list_elem_of_lookup in Hip as [j Hj].
  apply enumerate_lookup_inv in Hj as [-> Hj].
  destruct (St.items (final_heap (call spec)) p) as [d| |] eqn:Hd;
    [|by unfold test_events in Hs; rewrite Hd in Hs
     |by unfold test_events in Hs; rewrite Hd in Hs].
  pose proof (test_events_yield _ _ _ _ _ _ _ Hd Hs) as HY.
  pose proof (test_events_index _ _ _ _ _ _ Hs) as HI.
  rewrite Forall_forall in HY, HI.
  destruct (HY v Hvs Hv) as (c & -> & Hy).
  destruct (HI _ Hvs Hv) as (c' & ix & [= <-] & _ & _ & Ht).
  by exists c, j, p, d.
Qed.

Lemma test_combination_yield_witness :
  ∃ out,
    outcome (call Examples.temperature_sweep) = Ok out ∧
    ∃ sk,
      skeleton_of Examples.temperature_sweep = Ok sk ∧
      ∀ v, v ∈ out → is_test_combination v = true →
        ∃ c i p d,
          v = VDict c ∧
          tests sk !! i = Some p ∧
          St.items (final_heap (call Examples.temperature_sweep)) p = Ok d ∧
          Py.get "__index_test" c = Some (VInt (Z.of_nat i)) ∧
          Py.get "yield" c =
            Some (match Py.get "yield" d with
                  | Some y => y
                  | None => yield_values sk
                  end).
Proof.
  eexists. split; [vm_compute; reflexivity|].
  apply test_combination_yield. vm_compute. reflexivity.
Defined.

End YieldProperties.

Section Blocks.

(** The events of one leaf test: the setup and the teardown stored in
    the test's mapping around its combinations, each of which carries
    the position of the test and the composite index. *)
Lemma test_events_block h sk op i p s :
  test_events h sk op (i, p) = Ok s →
  ∃ d cs,
    St.items h p = Ok d ∧
    s = setup_event (default VNone (Py.get "setup" d)) :: map VDict cs ++
        [teardown_event (default VNone (Py.get "teardown" d))] ∧
    cs ≠ [] ∧
    Forall (fun c =>
              Py.get "__index_test" c = Some (VInt (Z.of_nat i)) ∧
              ∃ ix, Py.get "__index" c = Some (VList ix) ∧
                    Forall2 (fun level x => Py.get (index_key level) c = Some x)
                            (seq 0 (length (setups sk) + 1)) ix) cs.
Proof.
  intros Hs.
  destruct (test_events_shape _ _ _ _ _ _ Hs) as (su & td & cs & E & Hne & Hsome).
  pose proof (test_events_index _ _ _ _ _ _ Hs) as Hidx.
  unfold test_events in Hs.
  destruct (St.items h p) as [d| |]; cbn [mbind result_bind Res.bind] in Hs;
    [|done|done].
  pose proof (pop_fst "setup" VNone d) as F1.
  pose proof (pop_snd "setup" VNone d) as S1.
  destruct (Py.pop "setup" VNone d) as [su' d1]. cbn [fst snd] in F1, S1.
  pose proof (pop_fst "teardown" VNone d1) as F2.
  destruct (Py.pop "teardown" VNone d1) as [td' d2]. cbn [fst] in F2.
  destruct (Py.pop "yield" (yield_values sk) d2) as [y d3].
  destruct (_get_indexed_combinations _ _ _) as [cs'| |];
    cbn [mbind result_bind Res.bind] in Hs; [|done|done].
  injection Hs as Hs. rewrite E in Hs. cbn [app] in Hs.
  injection Hs as Hsu Hrest.
  apply app_inj_2 in Hrest as [_ Htd]; [|done].
  subst su'. injection Htd as <-.
  exists d, cs. split; [done|]. split.
  { rewrite E, F1, F2, S1, get_remove_ne by done.
    by destruct (Py.get "setup" d), (Py.get "teardown" d). }
  split; [done|].
  apply Forall_forall. intros c Hc.
  rewrite Forall_forall in Hidx. rewrite Forall_forall in Hsome.
  assert (Hin : VDict c ∈ s).
  { rewrite E. right. apply elem_of_app. left.
    apply list_elem_of_fmap. by exists c. }
  assert (Ht : is_test_combination (VDict c) = true)
    by (cbn; apply bool_decide_eq_true; by apply Hsome).
  destruct (Hidx _ Hin Ht) as (c' & ix & [= <-] & Hix & Hlv & Hti).
  split; [done|]. by exists ix.
Qed.

Lemma length_enumerate {A} (l : list A) : length (enumerate l) = length l.
Proof. unfold enumerate. by rewrite length_combine, length_seq, Nat.min_id. Qed.

End Blocks.

Section BlockProperties.

(** X13. The sequence of a successful call is the opening setup event,
    one part for every tuple of the product of the outer combinations,
    and the closing teardown event. A part is made of boundary events,
    none of them a test combination, and one block for every leaf test,
    in the order of the tests. The block of the test at position [i] is
    the setup event of the setup stored in that test, the combinations of
    the test, at least one, and the teardown event of its teardown. Every
    combination of the block holds [i] under [__index_test] and, under
    [__index], the list of the values it holds under [__index_0] to
    [__index_n], where [n] is the number of resolved setup entries of the
    outer levels. *)
Theorem test_combination_indices (spec : pdict) (out : list value) :
  outcome (call spec) = Ok out →
  ∃ sk parts,
    skeleton_of spec = Ok sk ∧
    out = [setup_event (VList (setups sk))] ++ concat parts ++
          [teardown_event (VList (rev (teardowns sk)))] ∧
    length parts = length (Py.product (outer_combinations sk)) ∧
    Forall (fun part =>
      ∃ boundary blocks,
        part = boundary ++ concat blocks ∧
        Forall (fun v => is_test_combination v = false) boundary ∧
        length blocks = length (tests sk) ∧
        ∀ i block, blocks !! i = Some block →
          ∃ p d cs,
            tests sk !! i = Some p ∧
            St.items (final_heap (call spec)) p = Ok d ∧
            block = setup_event (default VNone (Py.get "setup" d)) ::
                    map VDict cs ++
                    [teardown_event (default VNone (Py.get "teardown" d))] ∧
            cs ≠ [] ∧
            Forall (fun c =>
              Py.get "__index_test" c = Some (VInt (Z.of_nat i)) ∧
              ∃ ix, Py.get "__index" c = Some (VList ix) ∧
                    Forall2 (fun level x => Py.get (index_key level) c = Some x)
                            (seq 0 (length (setups sk) + 1)) ix) cs) parts.
Proof.
  intros (sk & Hsk & Hg & _)%call_ok.
  unfold generate in Hg.
  destruct (mapM (tuple_events _ _) _) as [body| |] eqn:E;
    cbn [mbind result_bind Res.bind] in Hg; [|done|done].
  injection Hg as <-. exists sk, body. split; [done|]. split; [done|].
  split; [by apply mapM_length in E|].
  eapply mapM_result_Forall; [|exact E]. clear E.
  intros tup part Ht. unfold tuple_events in Ht.
  destruct (mapM (boundary_events _) _) as [b| |] eqn:Eb;
    cbn [mbind result_bind Res.bind] in Ht; [|done|done].
  destruct (mapM (test_events _ _ _) _) as [t| |] eqn:Et;
    cbn [mbind result_bind Res.bind] in Ht; [|done|done].
  injection Ht as <-. exists (concat b), t. split; [done|]. split.
  { apply Forall_concat. eapply mapM_result_Forall; [|exact Eb].
    apply boundary_events_no_test. }
  split; [by rewrite (mapM_length _ _ _ Et), length_enumerate|].
  intros i block Hb. apply mapM_result_Forall2 in Et.
  destruct (Forall2_lookup_r _ _ _ _ _ Et Hb) as ([i' p] & Hip & Hs).
  apply enumerate_lookup_inv in Hip as [-> Hp].
  destruct (test_events_block _ _ _ _ _ _ Hs) as (d & cs & Hd & -> & Hne & HF).
  by exists p, d, cs.
Qed.

Lemma test_combination_indices_witness :
  ∃ out,
    outcome (call Examples.three_levels) = Ok out ∧
    ∃ sk parts,
      skeleton_of Examples.three_levels = Ok sk ∧
      out = [setup_event (VList (setups sk))] ++ concat parts ++
            [teardown_event (VList (rev (teardowns sk)))] ∧
      length parts = length (Py.product (outer_combinations sk)) ∧
      Forall (fun part =>
        ∃ boundary blocks,
          part = boundary ++ concat blocks ∧
          Forall (fun v => is_test_combination v = false) boundary ∧
          length blocks = length (tests sk) ∧
          ∀ i block, blocks !! i = Some block →
            ∃ p d cs,
              tests sk !! i = Some p ∧
              St.items (final_heap (call Examples.three_levels)) p = Ok d ∧
              block = setup_event (default VNone (Py.get "setup" d)) ::
                      map VDict cs ++
                      [teardown_event (default VNone (Py.get "teardown" d))] ∧
              cs ≠ [] ∧
              Forall (fun c =>
                Py.get "__index_test" c = Some (VInt (Z.of_nat i)) ∧
                ∃ ix, Py.get "__index" c = Some (VList ix) ∧
                      Forall2 (fun level x => Py.get (index_key level) c = Some x)
                              (seq 0 (length (setups sk) + 1)) ix) cs) parts.
Proof.
  eexists. split; [vm_compute; reflexivity|].
  apply test_combination_indices. vm_compute. reflexivity.
Defined.

End BlockProperties.
